(** * SecuriTutor: the study agent of [agent.py]

    A shallow embedding of [SecurityStudyAgent] (progress store, response
    parser, quiz runner, command router) and the properties of its
    specification.

    Conventions of the embedding.
    - Python [str] is [string]; characters are ASCII (a character above 127
      is left alone by [lower] and [upper] and is no white space).
    - Python [int] is [Z]; Python [float] is an IEEE-754 binary64 value,
      [spec_float] with [prec = 53] and [emax = 1024], every operation
      rounding to nearest even as CPython does.
    - The value [json.load] returns, and so [self.progress], is an arbitrary
      JSON value [json]; a [dict] keeps its insertion order: it is an
      association list, read and updated at the first entry of a key.
    - A Python exception is a value of [exn]; a method of the agent is a
      function [state -> (exn + A) * state], the state after a raise being
      the one the exception leaves behind.  Limits of the interpreter
      (memory, recursion depth) are not part of the embedding, except as
      exceptions the [json] interface may raise.
    - The [json] module, the hosted model, the clock and the terminal are
      outside the repository: the codec is an interface ([JsonCodec]), the
      model's reply and the time stamp are arguments of the call that asks
      for them, and the terminal is the [stdin]/[stdout] pair of the state.
      [stdout] records the notices of [generate_quiz] and what the [explain]
      and [quiz] branches of [chat] print around their handler; the menu,
      the separators and the display of the questions and of the score are
      left out.
    - Writing the progress file always succeeds. *)

From Stdlib Require Import ZArith List String Ascii Bool Lia QArith.
From Stdlib Require Import SpecFloat DecimalString DecimalPos.
Import ListNotations.

Local Open Scope string_scope.
Local Open Scope Z_scope.

(** ** Python strings *)

Module Py.

Definition code (c : ascii) : Z := Z.of_nat (nat_of_ascii c).
Definition chr (z : Z) : ascii := ascii_of_nat (Z.to_nat z).

Definition len (s : string) : Z := Z.of_nat (String.length s).

(** [str.isspace] on one ASCII character. *)
Definition is_space (c : ascii) : bool :=
  let n := code c in
  ((9 <=? n) && (n <=? 13)) || ((28 <=? n) && (n <=? 32)).

Definition lower_char (c : ascii) : ascii :=
  let n := code c in
  if (65 <=? n) && (n <=? 90) then chr (n + 32) else c.

Definition upper_char (c : ascii) : ascii :=
  let n := code c in
  if (97 <=? n) && (n <=? 122) then chr (n - 32) else c.

Fixpoint map_chars (f : ascii -> ascii) (s : string) : string :=
  match s with
  | EmptyString => EmptyString
  | String c t => String (f c) (map_chars f t)
  end.

(** [s.lower()], [s.upper()] *)
Definition lower : string -> string := map_chars lower_char.
Definition upper : string -> string := map_chars upper_char.

(** [s.lstrip()], [s.rstrip()], [s.strip()] *)
Fixpoint lstrip (s : string) : string :=
  match s with
  | EmptyString => EmptyString
  | String c t => if is_space c then lstrip t else s
  end.

Fixpoint rstrip (s : string) : string :=
  match s with
  | EmptyString => EmptyString
  | String c t =>
      match rstrip t with
      | EmptyString => if is_space c then EmptyString else String c EmptyString
      | t' => String c t'
      end
  end.

Definition strip (s : string) : string := rstrip (lstrip s).

(** [s.startswith(p)] *)
Fixpoint startswith (p s : string) : bool :=
  match p, s with
  | EmptyString, _ => true
  | String a p', String b s' => Ascii.eqb a b && startswith p' s'
  | String _ _, EmptyString => false
  end.

(** [sub in s] *)
Fixpoint contains (sub s : string) : bool :=
  startswith sub s ||
  match s with
  | EmptyString => false
  | String _ t => contains sub t
  end.

(** [s.find(sub)]: the lowest index at which [sub] starts, or -1. *)
Fixpoint find_from (i : Z) (sub s : string) : Z :=
  if startswith sub s then i
  else match s with
       | EmptyString => -1
       | String _ t => find_from (i + 1) sub t
       end.

Definition find (sub s : string) : Z := find_from 0 sub s.

(** [s.rfind(sub)]: the highest index at which [sub] starts, or -1. *)
Fixpoint rfind_from (i : Z) (sub s : string) : Z :=
  match s with
  | EmptyString => if startswith sub s then i else -1
  | String _ t =>
      let r := rfind_from (i + 1) sub t in
      if r =? -1 then (if startswith sub s then i else -1) else r
  end.

Definition rfind (sub s : string) : Z := rfind_from 0 sub s.

(** One bound of a slice: a negative index counts from the end, and the
    result is clamped to [0 .. len]. *)
Definition slice_index (n i : Z) : Z :=
  if i <? 0 then Z.max 0 (i + n) else Z.min i n.

(** [s[start:stop]] *)
Definition slice (s : string) (start stop : Z) : string :=
  let a := slice_index (len s) start in
  let b := slice_index (len s) stop in
  substring (Z.to_nat a) (Z.to_nat (b - a)) s.

(** [s[:n]] *)
Definition slice_to (s : string) (n : Z) : string := slice s 0 n.

(** [s.replace(old, new)] for a non-empty [old]: occurrences are found
    from the left and do not overlap.  [skip] counts the characters of the
    occurrence being replaced that are still to be dropped. *)
Fixpoint replace_from (skip : nat) (old new s : string) : string :=
  match s with
  | EmptyString => EmptyString
  | String c t =>
      match skip with
      | S k => replace_from k old new t
      | O =>
          if startswith old s
          then new ++ replace_from (String.length old - 1) old new t
          else String c (replace_from O old new t)
      end
  end.

(** With an empty [old], [new] is put before every character and at the
    end. *)
Fixpoint interleave (new s : string) : string :=
  match s with
  | EmptyString => new
  | String c t => new ++ String c (interleave new t)
  end.

Definition replace (old new s : string) : string :=
  match old with
  | EmptyString => interleave new s
  | String _ _ => replace_from O old new s
  end.

End Py.

(** ** Python floats (binary64) and the integer operations that yield them *)

Definition prec : Z := 53.
Definition emax : Z := 1024.

Definition float := spec_float.

Definition fmul : float -> float -> float := SFmul prec emax.
Definition fdiv : float -> float -> float := SFdiv prec emax.
Definition fadd : float -> float -> float := SFadd prec emax.

(** The integer [z] as an unrounded mantissa with exponent 0. *)
Definition exact_int (z : Z) : float :=
  match z with
  | Z0 => S754_zero false
  | Zpos p => S754_finite false p 0
  | Zneg p => S754_finite true p 0
  end.

(** The rational a finite float denotes; 0 for an infinity or a NaN. *)
Definition float_value (f : float) : Q :=
  match f with
  | S754_finite s m e =>
      let n := if s then Zneg m else Zpos m in
      match e with
      | Z0 => inject_Z n
      | Zpos p => inject_Z (n * Z.pow_pos 2 p)
      | Zneg p => Qmake n (Pos.pow 2 p)
      end
  | _ => 0%Q
  end.

Definition is_finite (f : float) : bool :=
  match f with
  | S754_zero _ | S754_finite _ _ _ => true
  | _ => false
  end.

(** ** JSON values, as [json.load] returns them *)

#[warnings="-register-all"]
Inductive json : Type :=
| JNull
| JBool (b : bool)
| JInt (z : Z)
| JFloat (f : float)
| JStr (s : string)
| JArr (l : list json)
| JObj (m : list (string * json)).

Definition dict := list (string * json).

(** ** Exceptions *)

Inductive exn : Type :=
| FileNotFoundError
| JSONDecodeError
| ValueError
| RecursionError
| KeyError (key : string)
| TypeError
| AttributeError
| ZeroDivisionError
| OverflowError
| EOFError.

Definition result (A : Type) : Type := (exn + A)%type.

Definition rbind {A B} (r : result A) (k : A -> result B) : result B :=
  match r with
  | inl e => inl e
  | inr a => k a
  end.

(** The results of [f] on the items of [l], up to the first raise. *)
Fixpoint map_result {A B} (f : A -> result B) (l : list A) : result (list B) :=
  match l with
  | [] => inr []
  | a :: t =>
      rbind (f a) (fun b => rbind (map_result f t) (fun bs => inr (b :: bs)))
  end.

(** ** Python operations on JSON values *)

(** [m[k]] and [m[k] = v] on the items of a [dict]. *)
Fixpoint dict_get (k : string) (m : dict) : option json :=
  match m with
  | [] => None
  | (k', v) :: t => if String.eqb k k' then Some v else dict_get k t
  end.

Fixpoint dict_set (k : string) (v : json) (m : dict) : dict :=
  match m with
  | [] => [(k, v)]
  | (k', v') :: t =>
      if String.eqb k k' then (k, v) :: t else (k', v') :: dict_set k v t
  end.

(** [x[k]] for a string [k]. *)
Definition py_getitem (x : json) (k : string) : result json :=
  match x with
  | JObj m =>
      match dict_get k m with
      | Some v => inr v
      | None => inl (KeyError k)
      end
  | _ => inl TypeError
  end.

(** [x[k] = v] for a string [k]. *)
Definition py_setitem (x : json) (k : string) (v : json) : result json :=
  match x with
  | JObj m => inr (JObj (dict_set k v m))
  | _ => inl TypeError
  end.

(** [x.append(v)] *)
Definition py_append (x v : json) : result json :=
  match x with
  | JArr l => inr (JArr (l ++ [v]))
  | _ => inl AttributeError
  end.

Fixpoint chars (s : string) : list json :=
  match s with
  | EmptyString => []
  | String c t => JStr (String c EmptyString) :: chars t
  end.

(** The items [for q in x] visits. *)
Definition py_iter (x : json) : result (list json) :=
  match x with
  | JArr l => inr l
  | JObj m => inr (map (fun kv => JStr (fst kv)) m)
  | JStr s => inr (chars s)
  | _ => inl TypeError
  end.

(** [len(x)] *)
Definition py_len (x : json) : result Z :=
  match x with
  | JArr l => inr (Z.of_nat (List.length l))
  | JObj m => inr (Z.of_nat (List.length m))
  | JStr s => inr (Py.len s)
  | _ => inl TypeError
  end.

Definition float_is_zero (f : float) : bool :=
  match f with
  | S754_zero _ => true
  | _ => false
  end.

(** The truth value of [x] in [if x:]. *)
Definition py_truthy (x : json) : bool :=
  match x with
  | JNull => false
  | JBool b => b
  | JInt z => negb (z =? 0)
  | JFloat f => negb (float_is_zero f)
  | JStr s => negb (Py.len s =? 0)
  | JArr l => negb (Z.of_nat (List.length l) =? 0)
  | JObj m => negb (Z.of_nat (List.length m) =? 0)
  end.

(** [s == x] for a [str] s. *)
Definition py_str_eq (s : string) (x : json) : bool :=
  match x with
  | JStr s' => String.eqb s s'
  | _ => false
  end.

(** [float(z)] for an [int] z. *)
Definition float_of_int (z : Z) : result float :=
  let f := binary_normalize prec emax z 0 false in
  if is_finite f then inr f else inl OverflowError.

(** [a / b] for two [int]s: the quotient rounded once. *)
Definition int_truediv (a b : Z) : result float :=
  if b =? 0 then inl ZeroDivisionError
  else
    let q := fdiv (exact_int a) (exact_int b) in
    if is_finite q then inr q else inl OverflowError.

(** [f * z] for a [float] f and an [int] z. *)
Definition float_mul_int (f : float) (z : Z) : result float :=
  rbind (float_of_int z) (fun g => inr (fmul f g)).

(** [x + n] for an [int] n, as [x += n] computes it. *)
Definition py_add_int (x : json) (n : Z) : result json :=
  match x with
  | JInt z => inr (JInt (z + n))
  | JBool b => inr (JInt ((if b then 1 else 0) + n))
  | JFloat f => rbind (float_of_int n) (fun g => inr (JFloat (fadd f g)))
  | _ => inl TypeError
  end.

(** ** The [json] module *)

(** [json.loads] and [json.dumps(_, indent=2)].  [json.load(f)] is
    [json.loads(f.read())] and [json.dump(v, f, indent=2)] writes
    [json.dumps(v, indent=2)]. *)
Class JsonCodec : Type := {
  json_loads : string -> result json;
  json_dumps : json -> string
}.

(** ** The agent *)

(** [progress] is [self.progress]; [progress_file] is the content of the
    file ['study_progress.json'], [None] when there is no such file;
    [stdin] holds the lines [input()] will return; [stdout] the lines
    printed, the latest last. *)
Record state : Type := {
  progress : json;
  progress_file : option string;
  stdin : list string;
  stdout : list string
}.

Definition M (A : Type) : Type := state -> result A * state.

Definition ret {A} (a : A) : M A := fun st => (inr a, st).

Definition raise {A} (e : exn) : M A := fun st => (inl e, st).

Definition bind {A B} (c : M A) (k : A -> M B) : M B :=
  fun st =>
    match c st with
    | (inr a, st') => k a st'
    | (inl e, st') => (inl e, st')
    end.

Definition lift {A} (r : result A) : M A := fun st => (r, st).

(** [try: c  except: h] *)
Definition try_except {A} (c : M A) (h : exn -> M A) : M A :=
  fun st =>
    match c st with
    | (inr a, st') => (inr a, st')
    | (inl e, st') => h e st'
    end.

Notation "x <- c ;; k" := (bind c (fun x => k))
  (at level 61, c at next level, right associativity).
Notation "c ;;; k" := (bind c (fun _ => k))
  (at level 61, right associativity).

Definition with_progress (p : json) (st : state) : state :=
  {| progress := p; progress_file := progress_file st;
     stdin := stdin st; stdout := stdout st |}.

Definition with_file (text : string) (st : state) : state :=
  {| progress := progress st; progress_file := Some text;
     stdin := stdin st; stdout := stdout st |}.

Definition with_stdin (lines : list string) (st : state) : state :=
  {| progress := progress st; progress_file := progress_file st;
     stdin := lines; stdout := stdout st |}.

Definition with_stdout (lines : list string) (st : state) : state :=
  {| progress := progress st; progress_file := progress_file st;
     stdin := stdin st; stdout := lines |}.

Definition get_progress : M json := fun st => (inr (progress st), st).

Definition set_progress (p : json) : M unit := fun st =>
  (inr tt, with_progress p st).

(** [open(self.progress_file, 'r')] then [f.read()] *)
Definition read_progress_file : M string := fun st =>
  match progress_file st with
  | Some text => (inr text, st)
  | None => (inl FileNotFoundError, st)
  end.

(** [open(self.progress_file, 'w')] then [f.write(text)] *)
Definition write_progress_file (text : string) : M unit := fun st =>
  (inr tt, with_file text st).

(** [input(prompt)] *)
Definition input : M string := fun st =>
  match stdin st with
  | [] => (inl EOFError, st)
  | line :: rest => (inr line, with_stdin rest st)
  end.

(** [print(line)] *)
Definition print (line : string) : M unit := fun st =>
  (inr tt, with_stdout (stdout st ++ [line]) st).

(** [self.progress[k]] and [self.progress[k] = v] *)
Definition progress_getitem (k : string) : M json :=
  p <- get_progress ;; lift (py_getitem p k).

Definition progress_setitem (k : string) (v : json) : M unit :=
  p <- get_progress ;; p' <- lift (py_setitem p k v) ;; set_progress p'.

(** The record [load_progress] creates when the file cannot be read
    (lines 37-42). *)
Definition default_progress : json :=
  JObj [("topics_studied", JArr []);
        ("quiz_scores", JArr []);
        ("total_questions", JInt 0);
        ("correct_answers", JInt 0)].

Section Agent.

Context {codec : JsonCodec}.

(** [load_progress] (lines 31-42); the bare [except] takes every
    exception. *)
Definition load_progress : M unit :=
  try_except
    (text <- read_progress_file ;;
     p <- lift (json_loads text) ;;
     set_progress p)
    (fun _ => set_progress default_progress).

(** [save_progress] (lines 44-47).  The write is taken to succeed: an
    exception of [open] or of [json.dump] (a full disk, a directory that
    cannot be written, an integer CPython refuses to print) is left out,
    so that nothing is said here of a run in which [save_progress]
    raises. *)
Definition save_progress : M unit :=
  p <- get_progress ;; write_progress_file (json_dumps p).

Definition rate_limit_explanation : string :=
  "⚠️ API rate limit reached. Please wait a minute and try again, or check your API quota at https://ai.dev/usage".

Definition access_denied_explanation : string :=
  "⚠️ API access denied. Please check your API key is valid and has proper permissions.".

Definition explanation_error (error_msg : string) : string :=
  "⚠️ Error generating explanation: " ++ Py.slice_to error_msg 100.

(** [explain_concept] (lines 49-86).  [reply] is what
    [self.model.generate_content(prompt).text] does: [inr text], or
    [inl error_msg] when it raises an exception [e] with
    [str(e) = error_msg]; [now] is [datetime.now().isoformat()]. *)
Definition explain_concept (reply : string + string) (now topic : string)
  : M string :=
  match reply with
  | inl error_msg =>
      if Py.contains "429" error_msg
         || Py.contains "quota" (Py.lower error_msg)
         || Py.contains "rate" (Py.lower error_msg)
      then ret rate_limit_explanation
      else if Py.contains "403" error_msg
              || Py.contains "permission" (Py.lower error_msg)
      then ret access_denied_explanation
      else ret (explanation_error error_msg)
  | inr explanation =>
      studied <- progress_getitem "topics_studied" ;;
      entries <- lift (py_iter studied) ;;
      topics <- lift (map_result (fun t => py_getitem t "topic") entries) ;;
      (if negb (existsb (py_str_eq topic) topics)
       then
         studied' <- lift (py_append studied
                             (JObj [("topic", JStr topic); ("date", JStr now)])) ;;
         progress_setitem "topics_studied" studied' ;;;
         save_progress
       else ret tt) ;;;
      ret explanation
  end.

Definition rate_limit_notice : string :=
  "⚠️ API rate limit reached. Please wait a minute and try again.".

Definition access_denied_notice : string :=
  "⚠️ API access denied. Please check your API key.".

Definition quiz_error (error_msg : string) : string :=
  "⚠️ Error generating quiz: " ++ Py.slice_to error_msg 100.

(** The extraction step of [generate_quiz] (lines 126-137). *)
Definition extract_quiz (text : string) : result json :=
  let start := Py.find "[" text in
  let end_ := Py.rfind "]" text + 1 in
  if negb (start =? -1) && negb (end_ =? 0)
  then
    match json_loads (Py.slice text start end_) with
    | inr quiz_data => inr quiz_data
    | inl JSONDecodeError => inr (JArr [])
    | inl e => inl e
    end
  else inr (JArr []).

(** [generate_quiz] (lines 88-137) *)
Definition generate_quiz (reply : string + string) (topic : string) : M json :=
  match reply with
  | inl error_msg =>
      if Py.contains "429" error_msg
         || Py.contains "quota" (Py.lower error_msg)
         || Py.contains "rate" (Py.lower error_msg)
      then print rate_limit_notice ;;; ret (JArr [])
      else if Py.contains "403" error_msg
              || Py.contains "permission" (Py.lower error_msg)
      then print access_denied_notice ;;; ret (JArr [])
      else print (quiz_error error_msg) ;;; ret (JArr [])
  | inr text => lift (extract_quiz text)
  end.

(** The loop of [take_quiz] (lines 148-163).  What it prints is left out;
    the look-ups its [print]s make are kept, as they can raise. *)
Fixpoint ask_questions (questions : list json) (score : Z) : M Z :=
  match questions with
  | [] => ret score
  | q :: rest =>
      lift (py_getitem q "question") ;;;
      options <- lift (py_getitem q "options") ;;
      lift (py_iter options) ;;;
      line <- input ;;
      let answer := Py.upper (Py.strip line) in
      correct <- lift (py_getitem q "correct") ;;
      let score' := if py_str_eq answer correct then score + 1 else score in
      lift (py_getitem q "explanation") ;;;
      ask_questions rest score'
  end.

(** The end of [take_quiz] (lines 165-175): the score of a quiz of [n]
    questions goes into the record, which is saved. *)
Definition record_score (now : string) (score n : Z) : M unit :=
  ratio <- lift (int_truediv score n) ;;
  accuracy <- lift (float_mul_int ratio 100) ;;
  scores <- progress_getitem "quiz_scores" ;;
  scores' <- lift (py_append scores
                     (JObj [("date", JStr now);
                            ("score", JInt score);
                            ("total", JInt n);
                            ("accuracy", JFloat accuracy)])) ;;
  progress_setitem "quiz_scores" scores' ;;;
  total <- progress_getitem "total_questions" ;;
  total' <- lift (py_add_int total n) ;;
  progress_setitem "total_questions" total' ;;;
  right <- progress_getitem "correct_answers" ;;
  right' <- lift (py_add_int right score) ;;
  progress_setitem "correct_answers" right' ;;;
  save_progress.

(** [take_quiz] (lines 139-177) *)
Definition take_quiz (now : string) (quiz_data : json) : M (Z * Z) :=
  questions <- lift (py_iter quiz_data) ;;
  score <- ask_questions questions 0 ;;
  n <- lift (py_len quiz_data) ;;
  record_score now score n ;;;
  ret (score, n).

End Agent.

(** ** [show_progress] *)

(** A JSON value as a Python number: an [int] (a [bool] is one) or a
    [float]. *)
Inductive number : Type :=
| NInt (z : Z)
| NFloat (f : float).

Definition py_number (x : json) : option number :=
  match x with
  | JInt z => Some (NInt z)
  | JBool b => Some (NInt (if b then 1 else 0))
  | JFloat f => Some (NFloat f)
  | _ => None
  end.

(** The number as a [float], as an operation with a [float] converts it. *)
Definition number_float (n : number) : result float :=
  match n with
  | NInt z => float_of_int z
  | NFloat f => inr f
  end.

(** [a / b] *)
Definition py_truediv (a b : json) : result float :=
  match py_number a, py_number b with
  | Some (NInt x), Some (NInt y) => int_truediv x y
  | Some na, Some nb =>
      rbind (number_float na) (fun fa =>
      rbind (number_float nb) (fun fb =>
      if float_is_zero fb then inl ZeroDivisionError else inr (fdiv fa fb)))
  | _, _ => inl TypeError
  end.

(** [a + b] on numbers. *)
Definition py_add (a b : json) : result json :=
  match py_number a, py_number b with
  | Some (NInt x), Some (NInt y) => inr (JInt (x + y))
  | Some na, Some nb =>
      rbind (number_float na) (fun fa =>
      rbind (number_float nb) (fun fb => inr (JFloat (fadd fa fb))))
  | _, _ => inl TypeError
  end.

(** What [f"{x:.1f}"] raises; the text it makes is not kept. *)
Definition py_format_f (x : json) : result unit :=
  match x with
  | JFloat _ => inr tt
  | JInt z => rbind (float_of_int z) (fun _ => inr tt)
  | JBool _ => inr tt
  | JStr _ => inl ValueError
  | _ => inl TypeError
  end.

(** [x[-n:]]: the last [n] items of a list, the last [n] characters of a
    string.  A [dict] is no sequence: CPython up to 3.11 raises
    [TypeError] as here (a slice cannot be hashed); from 3.12 on it
    raises [KeyError]. *)
Definition py_last (n : nat) (x : json) : result json :=
  match x with
  | JArr l => inr (JArr (skipn (List.length l - n) l))
  | JStr s => inr (JStr (substring (String.length s - n) n s))
  | _ => inl TypeError
  end.

(** [sum(q['accuracy'] for q in quizzes)] from the running sum [acc]: each
    accuracy is looked up, then added, before the next one is.  The sum
    is the one of plain additions; CPython from 3.12 on compensates the
    rounding of a sum of floats, which changes its last digits and
    nothing of what it raises. *)
Fixpoint sum_accuracies (quizzes : list json) (acc : json) : result json :=
  match quizzes with
  | [] => inr acc
  | q :: rest =>
      rbind (py_getitem q "accuracy") (fun accuracy =>
      rbind (py_add acc accuracy) (fun acc' => sum_accuracies rest acc'))
  end.

(** The line of one recent quiz (line 209). *)
Definition show_quiz (quiz : json) : result unit :=
  rbind (py_getitem quiz "score") (fun _ =>
  rbind (py_getitem quiz "total") (fun _ =>
  rbind (py_getitem quiz "accuracy") (fun accuracy =>
  py_format_f accuracy))).

(** [show_progress] (lines 179-227).  What it displays is left out, as
    for [take_quiz]; every look-up, slice, division, sum and format it
    evaluates is kept, in the order of the source, as each can raise.  The
    average of the accuracies only chooses the advice displayed.  The
    text of an integer is taken to exist: CPython from 3.11 on refuses,
    by default, to write one of more than 4300 digits. *)
Definition show_progress : M unit :=
  studied <- progress_getitem "topics_studied" ;;
  lift (py_len studied) ;;;
  studied <- progress_getitem "topics_studied" ;;
  (if py_truthy studied
   then
     studied <- progress_getitem "topics_studied" ;;
     recent <- lift (py_last 5 studied) ;;
     items <- lift (py_iter recent) ;;
     lift (map_result (fun item => py_getitem item "topic") items) ;;;
     ret tt
   else ret tt) ;;;
  scores <- progress_getitem "quiz_scores" ;;
  (if py_truthy scores
   then
     right <- progress_getitem "correct_answers" ;;
     total <- progress_getitem "total_questions" ;;
     ratio <- lift (py_truediv right total) ;;
     lift (float_mul_int ratio 100) ;;;
     progress_getitem "total_questions" ;;;
     progress_getitem "correct_answers" ;;;
     scores <- progress_getitem "quiz_scores" ;;
     recent <- lift (py_last 3 scores) ;;
     quizzes <- lift (py_iter recent) ;;
     lift (map_result show_quiz quizzes) ;;;
     ret tt
   else ret tt) ;;;
  scores <- progress_getitem "quiz_scores" ;;
  (if py_truthy scores
   then
     scores <- progress_getitem "quiz_scores" ;;
     quizzes <- lift (py_iter scores) ;;
     total <- lift (sum_accuracies quizzes (JInt 0)) ;;
     scores <- progress_getitem "quiz_scores" ;;
     n <- lift (py_len scores) ;;
     lift (py_truediv total (JInt n)) ;;;
     ret tt
   else ret tt).

(** ** The command router: one turn of the loop of [chat] *)

Definition nl : string := String "010"%char EmptyString.

Inductive command : Type :=
| Quit
| Help
| Explain (topic : string)
| Quiz (topic : string)
| Progress
| Unknown.

(** The [if]/[elif] chain of lines 256-299 on the line [input()] returned. *)
Definition parse_command (line : string) : command :=
  let user_input := Py.lower (Py.strip line) in
  if String.eqb user_input "quit" then Quit
  else if String.eqb user_input "help" then Help
  else if Py.startswith "explain " user_input
  then Explain (Py.strip (Py.replace "explain " EmptyString user_input))
  else if Py.startswith "quiz " user_input
  then Quiz (Py.strip (Py.replace "quiz " EmptyString user_input))
  else if String.eqb user_input "progress" then Progress
  else Unknown.

Section Chat.

Context {codec : JsonCodec}.

(** The [explain] branch (lines 269-273). *)
Definition explain_command (reply : string + string) (now topic : string)
  : M unit :=
  print (nl ++ "🤖 Agent: Let me explain " ++ topic ++ "..." ++ nl) ;;;
  explanation <- explain_concept reply now topic ;;
  print explanation ;;;
  print (nl ++ "💡 Want to test your knowledge? Try: quiz " ++ topic).

(** The [quiz] branch (lines 276-294).  The score line and the remark
    after it are not recorded in [stdout]; the arithmetic they do is. *)
Definition quiz_command (reply : string + string) (now topic : string)
  : M unit :=
  print (nl ++ "🤖 Agent: Generating quiz on " ++ topic ++ "..." ++ nl) ;;;
  quiz_data <- generate_quiz reply topic ;;
  if py_truthy quiz_data
  then
    outcome <- take_quiz now quiz_data ;;
    let (score, total) := outcome in
    ratio <- lift (int_truediv score total) ;;
    lift (float_mul_int ratio 100) ;;;
    (if score =? total then ret tt
     else lift (float_of_int total) ;;; ret tt)
  else print "❌ Sorry, couldn't generate quiz. Try another topic!".

(** One turn of the [while] loop of [chat] (lines 255-301).  The command
    is returned, [Quit] ending the loop.  [quit], [help] and an unknown line
    only display text, which is not recorded here; [progress] calls
    [show_progress] (lines 296-297), which can raise. *)
Definition chat_turn (reply : string + string) (now : string) : M command :=
  line <- input ;;
  match parse_command line with
  | Explain topic => explain_command reply now topic ;;; ret (Explain topic)
  | Quiz topic => quiz_command reply now topic ;;; ret (Quiz topic)
  | Progress => show_progress ;;; ret Progress
  | c => ret c
  end.

End Chat.

(** ** A reference codec

    An instance of [JsonCodec] written out in full: a decoder for the JSON
    grammar that [json.loads] reads (RFC 8259 and the constants [NaN],
    [Infinity], [-Infinity]) and an encoder with the layout of
    [json.dumps(_, indent=2)].  It is what the examples and instances below
    run on.  One difference: a float is written with its exact decimal
    expansion, where CPython writes the shortest digits that read back as
    the same float; both texts decode to the same value. *)

Module RefJson.

Definition dquote : ascii := "034"%char.
Definition backslash : ascii := "092"%char.

(** A text given with ['] where JSON has the double quote. *)
Definition dq (s : string) : string :=
  Py.map_chars (fun c => if Ascii.eqb c "'"%char then dquote else c) s.

(** *** Decoder *)

Definition parser (A : Type) : Type := string -> option (A * string).

Fixpoint skip_ws (s : string) : string :=
  match s with
  | String c t =>
      let n := Py.code c in
      if (n =? 32) || (n =? 9) || (n =? 10) || (n =? 13) then skip_ws t else s
  | EmptyString => s
  end.

Definition digit_val (c : ascii) : option Z :=
  let n := Py.code c in
  if (48 <=? n) && (n <=? 57) then Some (n - 48) else None.

Definition hex_val (c : ascii) : option Z :=
  let n := Py.code c in
  if (48 <=? n) && (n <=? 57) then Some (n - 48)
  else if (97 <=? n) && (n <=? 102) then Some (n - 87)
  else if (65 <=? n) && (n <=? 70) then Some (n - 55)
  else None.

(** The digits at the head of [s]: their value after [acc], how many there
    are, and the rest. *)
Fixpoint digits (acc : Z) (count : Z) (s : string) : Z * Z * string :=
  match s with
  | String c t =>
      match digit_val c with
      | Some d => digits (10 * acc + d) (count + 1) t
      | None => (acc, count, s)
      end
  | EmptyString => (acc, count, s)
  end.

(** [sign * m * 10^e] rounded to the nearest float. *)
Definition decimal_float (neg : bool) (m e : Z) : float :=
  match m with
  | Zpos p =>
      if 0 <=? e
      then
        match binary_normalize prec emax (m * 10 ^ e) 0 false with
        | S754_finite _ m' e' => S754_finite neg m' e'
        | S754_infinity _ => S754_infinity neg
        | f => f
        end
      else fdiv (S754_finite neg p 0) (exact_int (10 ^ (- e)))
  | _ => S754_zero neg
  end.

Definition parse_number : parser json := fun s =>
  let (neg, s1) :=
    match s with
    | String "-"%char t => (true, t)
    | _ => (false, s)
    end in
  let int_part :=
    match s1 with
    | String "0"%char t => Some (0, t)
    | String _ _ =>
        match digits 0 0 s1 with
        | (_, 0, _) => None
        | (v, _, t) => Some (v, t)
        end
    | EmptyString => None
    end in
  match int_part with
  | None => None
  | Some (i, s2) =>
      let '(m, fcount, s3) :=
        match s2 with
        | String "."%char t =>
            match digits i 0 t with
            | (_, 0, _) => (i, 0, s2)
            | r => r
            end
        | _ => (i, 0, s2)
        end in
      let exp_part :=
        match s3 with
        | String c t =>
            if Ascii.eqb c "e"%char || Ascii.eqb c "E"%char
            then
              let (eneg, t') :=
                match t with
                | String "-"%char u => (true, u)
                | String "+"%char u => (false, u)
                | _ => (false, t)
                end in
              match digits 0 0 t' with
              | (_, 0, _) => None
              | (v, _, rest) => Some ((if eneg then - v else v), rest)
              end
            else None
        | EmptyString => None
        end in
      match exp_part with
      | Some (e, s4) => Some (JFloat (decimal_float neg m (e - fcount)), s4)
      | None =>
          if fcount =? 0
          then Some (JInt (if neg then - i else i), s3)
          else Some (JFloat (decimal_float neg m (- fcount)), s3)
      end
  end.

(** The characters of a string up to its closing quote. *)
Fixpoint parse_chars (s : string) : option (string * string) :=
  match s with
  | EmptyString => None
  | String c t =>
      if Ascii.eqb c dquote then Some (EmptyString, t)
      else if Ascii.eqb c backslash
      then
        match t with
        | String e u =>
            let simple (x : ascii) :=
              match parse_chars u with
              | Some (r, rest) => Some (String x r, rest)
              | None => None
              end in
            if Ascii.eqb e dquote then simple dquote
            else if Ascii.eqb e backslash then simple backslash
            else if Ascii.eqb e "/"%char then simple "/"%char
            else if Ascii.eqb e "b"%char then simple "008"%char
            else if Ascii.eqb e "f"%char then simple "012"%char
            else if Ascii.eqb e "n"%char then simple "010"%char
            else if Ascii.eqb e "r"%char then simple "013"%char
            else if Ascii.eqb e "t"%char then simple "009"%char
            else if Ascii.eqb e "u"%char
            then
              match u with
              | String h1 (String h2 (String h3 (String h4 v))) =>
                  match hex_val h1, hex_val h2, hex_val h3, hex_val h4 with
                  | Some 0, Some 0, Some a, Some b =>
                      match parse_chars v with
                      | Some (r, rest) => Some (String (Py.chr (16 * a + b)) r, rest)
                      | None => None
                      end
                  | _, _, _, _ => None
                  end
              | _ => None
              end
            else None
        | EmptyString => None
        end
      else if Py.code c <? 32 then None
      else
        match parse_chars t with
        | Some (r, rest) => Some (String c r, rest)
        | None => None
        end
  end.

Definition keyword (k : string) (v : json) : parser json := fun s =>
  if Py.startswith k s
  then Some (v, substring (String.length k) (String.length s) s)
  else None.

Fixpoint parse_value (fuel : nat) (s : string) : option (json * string) :=
  match fuel with
  | O => None
  | S fuel' =>
      match skip_ws s with
      | String c t =>
          if Ascii.eqb c "["%char
          then
            match skip_ws t with
            | String "]"%char rest => Some (JArr [], rest)
            | _ =>
                match parse_items fuel' t with
                | Some (l, rest) => Some (JArr l, rest)
                | None => None
                end
            end
          else if Ascii.eqb c "{"%char
          then
            match skip_ws t with
            | String "}"%char rest => Some (JObj [], rest)
            | _ =>
                match parse_members fuel' [] t with
                | Some (m, rest) => Some (JObj m, rest)
                | None => None
                end
            end
          else if Ascii.eqb c dquote
          then
            match parse_chars t with
            | Some (str, rest) => Some (JStr str, rest)
            | None => None
            end
          else if Ascii.eqb c "n"%char then keyword "null" JNull (String c t)
          else if Ascii.eqb c "t"%char then keyword "true" (JBool true) (String c t)
          else if Ascii.eqb c "f"%char then keyword "false" (JBool false) (String c t)
          else if Ascii.eqb c "N"%char then keyword "NaN" (JFloat S754_nan) (String c t)
          else if Ascii.eqb c "I"%char
          then keyword "Infinity" (JFloat (S754_infinity false)) (String c t)
          else if Py.startswith "-Infinity" (String c t)
          then keyword "-Infinity" (JFloat (S754_infinity true)) (String c t)
          else parse_number (String c t)
      | EmptyString => None
      end
  end

(** The items of an array after its bracket, up to the closing one. *)
with parse_items (fuel : nat) (s : string) : option (list json * string) :=
  match fuel with
  | O => None
  | S fuel' =>
      match parse_value fuel' s with
      | Some (v, rest) =>
          match skip_ws rest with
          | String c t =>
              if Ascii.eqb c "]"%char then Some ([v], t)
              else if Ascii.eqb c ","%char
              then
                match parse_items fuel' t with
                | Some (l, rest') => Some (v :: l, rest')
                | None => None
                end
              else None
          | EmptyString => None
          end
      | None => None
      end
  end

(** The members of an object after its brace; a key met again replaces the
    value of the first. *)
with parse_members (fuel : nat) (acc : dict) (s : string)
  : option (dict * string) :=
  match fuel with
  | O => None
  | S fuel' =>
      match skip_ws s with
      | String q t =>
          if Ascii.eqb q dquote
          then
            match parse_chars t with
            | Some (k, rest) =>
                match skip_ws rest with
                | String ":"%char rest1 =>
                    match parse_value fuel' rest1 with
                    | Some (v, rest2) =>
                        let acc' := dict_set k v acc in
                        match skip_ws rest2 with
                        | String c u =>
                            if Ascii.eqb c "}"%char then Some (acc', u)
                            else if Ascii.eqb c ","%char
                            then parse_members fuel' acc' u
                            else None
                        | EmptyString => None
                        end
                    | None => None
                    end
                | _ => None
                end
            | None => None
            end
          else None
      | EmptyString => None
      end
  end.

(** [json.loads(s)] *)
Definition loads (s : string) : result json :=
  match parse_value (S (S (String.length s))) s with
  | Some (v, rest) =>
      match skip_ws rest with
      | EmptyString => inr v
      | _ => inl JSONDecodeError
      end
  | None => inl JSONDecodeError
  end.

(** *** Encoder *)

Definition int_repr (z : Z) : string := NilZero.string_of_int (Z.to_int z).

Definition hex_digit (n : Z) : ascii :=
  if n <? 10 then Py.chr (48 + n) else Py.chr (87 + n).

(** One character inside a string, as [ensure_ascii] writes it. *)
Definition escape_char (c : ascii) : string :=
  let n := Py.code c in
  if Ascii.eqb c dquote then String backslash (String dquote EmptyString)
  else if Ascii.eqb c backslash then String backslash (String backslash EmptyString)
  else if n =? 10 then String backslash "n"
  else if n =? 13 then String backslash "r"
  else if n =? 9 then String backslash "t"
  else if n =? 8 then String backslash "b"
  else if n =? 12 then String backslash "f"
  else if (n <? 32) || (127 <? n)
  then String backslash
         ("u00" ++ String (hex_digit (n / 16)) (String (hex_digit (n mod 16)) EmptyString))
  else String c EmptyString.

Fixpoint escape (s : string) : string :=
  match s with
  | EmptyString => EmptyString
  | String c t => escape_char c ++ escape t
  end.

Definition quote (s : string) : string :=
  String dquote (escape s ++ String dquote EmptyString).

Fixpoint zeros (n : nat) : string :=
  match n with
  | O => EmptyString
  | S k => String "0"%char (zeros k)
  end.

(** [s] without the zeros at its end, its first character kept. *)
Fixpoint drop_zeros (s : string) : string :=
  match s with
  | EmptyString => EmptyString
  | String c t =>
      match drop_zeros t with
      | EmptyString => if Ascii.eqb c "0"%char then EmptyString else String c EmptyString
      | t' => String c t'
      end
  end.

Definition fraction_digits (s : string) : string :=
  match s with
  | EmptyString => "0"
  | String c t => String c (drop_zeros t)
  end.

(** The exact decimal expansion of [m * 2^e]. *)
Definition decimal_repr (m : positive) (e : Z) : string :=
  match e with
  | Zneg k =>
      let k' := Pos.to_nat k in
      let ds := int_repr (Zpos m * 5 ^ Zpos k) in
      let ds' := zeros (S k' - String.length ds) ++ ds in
      let n := (String.length ds' - k')%nat in
      substring 0 n ds' ++ "." ++ fraction_digits (substring n k' ds')
  | _ => int_repr (Zpos m * 2 ^ e) ++ ".0"
  end.

Definition float_repr (f : float) : string :=
  match f with
  | S754_nan => "NaN"
  | S754_infinity false => "Infinity"
  | S754_infinity true => "-Infinity"
  | S754_zero false => "0.0"
  | S754_zero true => "-0.0"
  | S754_finite false m e => decimal_repr m e
  | S754_finite true m e => "-" ++ decimal_repr m e
  end.

Fixpoint spaces (n : nat) : string :=
  match n with
  | O => EmptyString
  | S k => String " "%char (spaces k)
  end.

Fixpoint join (sep : string) (l : list string) : string :=
  match l with
  | [] => EmptyString
  | [x] => x
  | x :: t => x ++ sep ++ join sep t
  end.

(** [v] written at nesting depth [level], two spaces a level. *)
Fixpoint dumps_at (level : nat) (v : json) : string :=
  let inner := nl ++ spaces (2 * S level) in
  let outer := nl ++ spaces (2 * level) in
  match v with
  | JNull => "null"
  | JBool true => "true"
  | JBool false => "false"
  | JInt z => int_repr z
  | JFloat f => float_repr f
  | JStr s => quote s
  | JArr [] => "[]"
  | JArr l =>
      "[" ++ inner
          ++ join ("," ++ inner) (map (dumps_at (S level)) l)
          ++ outer ++ "]"
  | JObj [] => "{}"
  | JObj m =>
      "{" ++ inner
          ++ join ("," ++ inner)
               (map (fun kv : string * json => let (k, x) := kv in
                               quote k ++ ": " ++ dumps_at (S level) x) m)
          ++ outer ++ "}"
  end.

(** [json.dumps(v, indent=2)] *)
Definition dumps (v : json) : string := dumps_at 0 v.

End RefJson.

#[export] Instance reference_codec : JsonCodec :=
  {| json_loads := RefJson.loads; json_dumps := RefJson.dumps |}.

(** ** A session: [chat], [__init__] and the main block *)

Section Session.

Context {codec : JsonCodec}.

(** The [while True] loop of [chat] (lines 254-301), [fuel] turns of it
    at most; the [i]-th turn gets from [oracle] the reply of the model and
    the time stamp.  [true] is returned when [quit] ended the loop,
    [false] when the turns allowed ran out. *)
Fixpoint chat_loop (oracle : nat -> (string + string) * string)
    (fuel i : nat) : M bool :=
  match fuel with
  | O => ret false
  | S fuel' =>
      c <- chat_turn (fst (oracle i)) (snd (oracle i)) ;;
      match c with
      | Quit => ret true
      | _ => chat_loop oracle fuel' (S i)
      end
  end.

(** [chat] (lines 229-301): every turn reads a line, so one turn more
    than there are lines to read is allowed. *)
Definition chat (oracle : nat -> (string + string) * string) : M bool :=
  fun st => chat_loop oracle (S (List.length (stdin st))) O st.

(** [__init__] (lines 14-29).  [api_key] is [os.getenv('GOOGLE_API_KEY')];
    [model_ok] tells whether [genai.GenerativeModel] returns;
    [genai.configure] is taken to return. *)
Definition init (api_key : option string) (model_ok : bool) : M unit :=
  match api_key with
  | None => raise ValueError
  | Some EmptyString => raise ValueError
  | Some _ => if model_ok then load_progress else raise ValueError
  end.

(** The main block (lines 304-319): the exit status of the process, 1
    after any exception, and the state it leaves. *)
Definition main (api_key : option string) (model_ok : bool)
    (oracle : nat -> (string + string) * string) (st : state) : Z * state :=
  match (init api_key model_ok ;;; chat oracle) st with
  | (inr _, st') => (0, st')
  | (inl _, st') => (1, st')
  end.

End Session.

(** ** The decoder under the guard on recursion

    CPython's decoder calls itself for every array and every object it
    enters, and the interpreter lets calls nest only so deep
    ([sys.getrecursionlimit()], 1000 by default): entering one array or
    object too many raises [RecursionError], before the rest of the text
    has been read and so whether or not the text is JSON.
    [GuardedJson.loads limit] is the reference decoder under that guard,
    [limit] arrays and objects being allowed inside one another. *)

Module GuardedJson.

Inductive outcome (A : Type) : Type :=
| Parsed (a : A) (rest : string)
| Malformed
| TooDeep.

Arguments Parsed {A} a rest.
Arguments Malformed {A}.
Arguments TooDeep {A}.

Fixpoint parse_value (fuel depth : nat) (s : string) : outcome json :=
  match fuel with
  | O => Malformed
  | S fuel' =>
      match RefJson.skip_ws s with
      | String c t =>
          if Ascii.eqb c "["%char
          then
            match depth with
            | O => TooDeep
            | S depth' =>
                match RefJson.skip_ws t with
                | String "]"%char rest => Parsed (JArr []) rest
                | _ =>
                    match parse_items fuel' depth' t with
                    | Parsed l rest => Parsed (JArr l) rest
                    | Malformed => Malformed
                    | TooDeep => TooDeep
                    end
                end
            end
          else if Ascii.eqb c "{"%char
          then
            match depth with
            | O => TooDeep
            | S depth' =>
                match RefJson.skip_ws t with
                | String "}"%char rest => Parsed (JObj []) rest
                | _ =>
                    match parse_members fuel' depth' [] t with
                    | Parsed m rest => Parsed (JObj m) rest
                    | Malformed => Malformed
                    | TooDeep => TooDeep
                    end
                end
            end
          else
            (* a string, a constant or a number: no call nests *)
            match RefJson.parse_value 1 (String c t) with
            | Some (v, rest) => Parsed v rest
            | None => Malformed
            end
      | EmptyString => Malformed
      end
  end

with parse_items (fuel depth : nat) (s : string) : outcome (list json) :=
  match fuel with
  | O => Malformed
  | S fuel' =>
      match parse_value fuel' depth s with
      | Parsed v rest =>
          match RefJson.skip_ws rest with
          | String c t =>
              if Ascii.eqb c "]"%char then Parsed [v] t
              else if Ascii.eqb c ","%char
              then
                match parse_items fuel' depth t with
                | Parsed l rest' => Parsed (v :: l) rest'
                | Malformed => Malformed
                | TooDeep => TooDeep
                end
              else Malformed
          | EmptyString => Malformed
          end
      | Malformed => Malformed
      | TooDeep => TooDeep
      end
  end

with parse_members (fuel depth : nat) (acc : dict) (s : string)
  : outcome dict :=
  match fuel with
  | O => Malformed
  | S fuel' =>
      match RefJson.skip_ws s with
      | String q t =>
          if Ascii.eqb q RefJson.dquote
          then
            match RefJson.parse_chars t with
            | Some (k, rest) =>
                match RefJson.skip_ws rest with
                | String ":"%char rest1 =>
                    match parse_value fuel' depth rest1 with
                    | Parsed v rest2 =>
                        let acc' := dict_set k v acc in
                        match RefJson.skip_ws rest2 with
                        | String c u =>
                            if Ascii.eqb c "}"%char then Parsed acc' u
                            else if Ascii.eqb c ","%char
                            then parse_members fuel' depth acc' u
                            else Malformed
                        | EmptyString => Malformed
                        end
                    | Malformed => Malformed
                    | TooDeep => TooDeep
                    end
                | _ => Malformed
                end
            | None => Malformed
            end
          else Malformed
      | EmptyString => Malformed
      end
  end.

(** [json.loads(s)] *)
Definition loads (limit : nat) (s : string) : result json :=
  match parse_value (S (S (String.length s))) limit s with
  | Parsed v rest =>
      match RefJson.skip_ws rest with
      | EmptyString => inr v
      | _ => inl JSONDecodeError
      end
  | Malformed => inl JSONDecodeError
  | TooDeep => inl RecursionError
  end.

End GuardedJson.


(** ** Vocabulary of the specification *)

(** [sub] occurs in [s]. *)
Definition occurs (sub s : string) : Prop :=
  exists pre post, s = pre ++ sub ++ post.

(** [sub] (in lower case) occurs in [s] whatever the case of the letters
    of [s]. *)
Definition occurs_nocase (sub s : string) : Prop :=
  exists pre w post, s = pre ++ w ++ post /\ Py.lower w = sub.

(** The classes of section 4.4. *)
Definition rate_limited (msg : string) : Prop :=
  occurs "429" msg \/ occurs_nocase "quota" msg \/ occurs_nocase "rate" msg.

Definition permission_denied (msg : string) : Prop :=
  occurs "403" msg \/ occurs_nocase "permission" msg.

(** [shown] is the first [n] characters of [s], or all of [s] if it has
    fewer. *)
Definition first_chars (n : nat) (s shown : string) : Prop :=
  (exists rest, s = shown ++ rest) /\
  String.length shown = Nat.min n (String.length s).

Section StoreVocabulary.

Context {codec : JsonCodec}.

(** The record [load_progress] installs. *)
Definition loaded_record (file : option string) : json :=
  match file with
  | Some text =>
      match json_loads text with
      | inr v => v
      | inl _ => default_progress
      end
  | None => default_progress
  end.

End StoreVocabulary.


(** The shape of a progress record (section 3), as far as the operations
    read it. *)

(** [topics_studied] holds [entries], an entry for each of [names]. *)
Definition has_topics (p : json) (entries : list json) (names : list string)
  : Prop :=
  py_getitem p "topics_studied" = inr (JArr entries) /\
  Forall2 (fun e name => py_getitem e "topic" = inr (JStr name)) entries names.

Definition has_scores (p : json) (scores : list json) : Prop :=
  py_getitem p "quiz_scores" = inr (JArr scores).

Definition has_counters (p : json) (total right : Z) : Prop :=
  py_getitem p "total_questions" = inr (JInt total) /\
  py_getitem p "correct_answers" = inr (JInt right).

(** The invariant of section 3. *)
Definition counters_ok (p : json) : Prop :=
  exists total right, has_counters p total right /\ right <= total.

(** [p'] is [p] but for what it holds under [k]. *)
Definition same_except (k : string) (p p' : json) : Prop :=
  forall k', k' <> k -> py_getitem p' k' = py_getitem p k'.

(** The entry [explain_concept] makes for a topic. *)
Definition topic_entry (topic now : string) : json :=
  JObj [("topic", JStr topic); ("date", JStr now)].

(** A question the quiz runner can display and mark (section 3). *)
Definition question_ok (q : json) : Prop :=
  exists text options items answer explanation,
    py_getitem q "question" = inr text /\
    py_getitem q "options" = inr options /\
    py_iter options = inr items /\
    py_getitem q "correct" = inr answer /\
    py_getitem q "explanation" = inr explanation.

(** The answer typed, stripped and in upper case, is the [correct] of the
    question (section 4.2). *)
Definition right_answer (q : json) (line : string) : bool :=
  match py_getitem q "correct" with
  | inr answer => py_str_eq (Py.upper (Py.strip line)) answer
  | inl _ => false
  end.

(** How many of the questions the lines typed answer correctly. *)
Fixpoint count_right (questions : list json) (lines : list string) : Z :=
  match questions, lines with
  | q :: questions', line :: lines' =>
      (if right_answer q line then 1 else 0) + count_right questions' lines'
  | _, _ => 0
  end.

(** 100.0 *)
Definition hundred : float := S754_finite false 7036874417766400 (-46).

(** The float [(score / n) * 100]: the quotient rounded to the nearest
    float, then its product with 100.0 rounded to the nearest float. *)
Definition percentage (score n : Z) : float :=
  fmul (fdiv (exact_int score) (exact_int n)) hundred.

(** The entry [take_quiz] appends to [quiz_scores]. *)
Definition score_entry (now : string) (score n : Z) (accuracy : float) : json :=
  JObj [("date", JStr now);
        ("score", JInt score);
        ("total", JInt n);
        ("accuracy", JFloat accuracy)].

Section AgentVocabulary.

Context {codec : JsonCodec}.

(** The state after a topic has been appended and the record saved. *)
Definition studied_more (m : dict) (entries : list json) (topic now : string)
    (st : state) : state :=
  let p := JObj (dict_set "topics_studied"
                   (JArr (entries ++ [topic_entry topic now])) m) in
  with_file (json_dumps p) (with_progress p st).

(** The state after a score has been recorded and the record saved. *)
Definition scored (m : dict) (scores : json) (total right : Z) (st : state)
  : state :=
  let p := JObj (dict_set "correct_answers" (JInt right)
                   (dict_set "total_questions" (JInt total)
                      (dict_set "quiz_scores" scores m))) in
  with_file (json_dumps p) (with_progress p st).

(** What happens to the record in a session: an explanation is asked
    for, or a quiz is taken. *)
Inductive action : Type :=
| Explained (reply : string + string) (now topic : string)
| Quizzed (now : string) (quiz_data : json).

Definition perform (a : action) : M unit :=
  match a with
  | Explained reply now topic => explain_concept reply now topic ;;; ret tt
  | Quizzed now quiz_data => take_quiz now quiz_data ;;; ret tt
  end.

(** The state a sequence of actions leaves; an exception ends the
    session. *)
Fixpoint perform_all (actions : list action) (st : state) : state :=
  match actions with
  | [] => st
  | a :: rest =>
      match perform a st with
      | (inr _, st') => perform_all rest st'
      | (inl _, st') => st'
      end
  end.

(** Every action of the sequence returns: none raises, be it in a call
    of [save_progress]. *)
Fixpoint completes (actions : list action) (st : state) : Prop :=
  match actions with
  | [] => True
  | a :: rest =>
      match perform a st with
      | (inr _, st') => completes rest st'
      | (inl _, _) => False
      end
  end.

End AgentVocabulary.

(** The computation [c], run from [st], does not end in a division by
    zero. *)
Definition no_zero_division {A : Type} (c : M A) (st : state) : Prop :=
  fst (c st) <> inl ZeroDivisionError.

(** ** Sample data for the instances below *)

Definition fresh_state (lines : list string) : state :=
  {| progress := default_progress; progress_file := None;
     stdin := lines; stdout := [] |}.

Definition sample_question : json :=
  JObj [("question", JStr "What is phishing?");
        ("options", JArr [JStr "A) A scam"; JStr "B) A fish";
                          JStr "C) A wall"; JStr "D) A virus"]);
        ("correct", JStr "A");
        ("explanation", JStr "Phishing tricks people.")].

(** A reply of the model with a quiz of one question in it. *)
Definition sample_reply : string :=
  RefJson.dq "Sure! [{'question': 'What is phishing?', 'options': ['A) A scam', 'B) A fish', 'C) A wall', 'D) A virus'], 'correct': 'A', 'explanation': 'Phishing tricks people.'}] Good luck".

Definition sample_time : string := "2024-05-01T10:00:00".



(** A record with one topic and one quiz of five questions, three right. *)
Definition sample_record : json :=
  JObj [("topics_studied", JArr [topic_entry "phishing" sample_time]);
        ("quiz_scores", JArr [score_entry sample_time 3 5 (percentage 3 5)]);
        ("total_questions", JInt 5);
        ("correct_answers", JInt 3)].

(** ** Vocabulary for the further properties *)

(** The last character of a string. *)
Fixpoint last_char (s : string) : option ascii :=
  match s with
  | EmptyString => None
  | String c EmptyString => Some c
  | String _ t => last_char t
  end.

(** A string that does not begin with white space. *)
Definition starts_clean (s : string) : Prop :=
  match s with
  | EmptyString => True
  | String c _ => Py.is_space c = false
  end.


(** Every run of [c] takes a state to one related to it by [R], whether
    it returns or raises. *)
Definition preserves {A : Type} (R : state -> state -> Prop) (c : M A) : Prop :=
  forall st, R st (snd (c st)).

(** The record and the file are the same in both states. *)
Definition same_record (st st' : state) : Prop :=
  progress st' = progress st /\ progress_file st' = progress_file st.

(** What the record holds under [k] is the same in both states. *)
Definition same_at (k : string) (st st' : state) : Prop :=
  py_getitem (progress st') k = py_getitem (progress st) k.

(** The file holds the record as [save_progress] writes it. *)
Definition persisted {codec : JsonCodec} (st : state) : Prop :=
  progress_file st = Some (json_dumps (progress st)).

(** [topics_studied] lists entries with a topic each, no topic twice. *)
Definition unique_topics (p : json) : Prop :=
  exists entries names, has_topics p entries names /\ NoDup names.

(** An entry of [quiz_scores] with its score and total, and a finite
    float as accuracy. *)
Definition score_record (e : json) (score n : Z) : Prop :=
  py_getitem e "score" = inr (JInt score) /\
  py_getitem e "total" = inr (JInt n) /\
  exists accuracy,
    py_getitem e "accuracy" = inr (JFloat accuracy) /\
    is_finite accuracy = true.

(** The entries of [quiz_scores] add up to [total] questions and [right]
    answers, each entry with at least one question and no more right
    answers than questions. *)
Inductive tally : list json -> Z -> Z -> Prop :=
| tally_nil : tally [] 0 0
| tally_snoc scores total right e score n :
    tally scores total right ->
    score_record e score n ->
    0 <= score <= n -> 0 < n ->
    tally (scores ++ [e]) (total + n) (right + score).

(** The counters of the record are the sums over its [quiz_scores]. *)
Definition tallied (p : json) : Prop :=
  exists scores total right,
    has_scores p scores /\ has_counters p total right /\
    tally scores total right.

(** Lines are only taken from the front of the input. *)
Definition consumed (st st' : state) : Prop :=
  exists taken, stdin st = (taken ++ stdin st')%list.

(** A property of the record that holds before holds after. *)
Definition carries (P : json -> Prop) (st st' : state) : Prop :=
  P (progress st) -> P (progress st').

(** A line that makes the loop display text and nothing else. *)
Definition idle (line : string) : Prop :=
  parse_command line = Help \/ parse_command line = Unknown.

(** From a record with its counters: the counters are still there, and
    record and file are as they were or the file holds the record. *)
Definition settled {codec : JsonCodec} (st st' : state) : Prop :=
  counters_ok (progress st) ->
  counters_ok (progress st') /\ (same_record st st' \/ persisted st').

(** ** Further sample data *)

(** A question whose answer is given in lower case. *)
Definition lowercase_question : json :=
  JObj [("question", JStr "What is phishing?");
        ("options", JArr [JStr "a) A scam"; JStr "b) A fish"]);
        ("correct", JStr "a");
        ("explanation", JStr "Phishing tricks people.")].

(** A record with scores listed and no question counted. *)
Definition uncounted_record : json :=
  JObj [("topics_studied", JArr []);
        ("quiz_scores", JArr [score_entry sample_time 3 5 (percentage 3 5)]);
        ("total_questions", JInt 0);
        ("correct_answers", JInt 0)].

(** A model that gives [sample_reply] at every call, and a clock that
    stands still. *)
Definition sample_oracle (i : nat) : (string + string) * string :=
  (inr sample_reply, sample_time).

(** ** The values the codec reads back *)

(** No string twice. *)
Fixpoint distinct (l : list string) : bool :=
  match l with
  | [] => true
  | k :: t => negb (existsb (String.eqb k) t) && distinct t
  end.

(** A JSON value as Python holds one: the keys of a [dict] are all
    different, and a [float] is a number of the arithmetic (its mantissa
    of 53 bits at most and its exponent in range) or an infinity; [nan],
    which is not equal to itself, is left out. *)
Fixpoint well_formed (v : json) : bool :=
  match v with
  | JFloat S754_nan => false
  | JFloat f => valid_binary prec emax f
  | JArr l => forallb well_formed l
  | JObj m =>
      forallb (fun kv : string * json => well_formed (snd kv)) m
      && distinct (map fst m)
  | _ => true
  end.

(** The number of values in a value, itself included and the items of an
    array and the members of an object counted twice. *)
Fixpoint size (v : json) : nat :=
  match v with
  | JArr l => S (fold_right (fun x n => S (size x + n)) O l)
  | JObj m => S (fold_right (fun (kv : string * json) n => S (size (snd kv) + n)) O m)
  | _ => 1
  end.

(** The value the decimal digits of [s] denote after [acc]; a character
    that is no digit ends it. *)
Fixpoint digits_value (acc : Z) (s : string) : Z :=
  match s with
  | String c t =>
      match RefJson.digit_val c with
      | Some d => digits_value (10 * acc + d) t
      | None => acc
      end
  | EmptyString => acc
  end.

Fixpoint all_digits (s : string) : bool :=
  match s with
  | String c t =>
      match RefJson.digit_val c with
      | Some _ => all_digits t
      | None => false
      end
  | EmptyString => true
  end.

(** The text does not go on with a digit. *)
Definition no_digit (rest : string) : Prop :=
  match rest with
  | String c _ => RefJson.digit_val c = None
  | EmptyString => True
  end.

(** A digit that is not 0. *)
Definition leading (c : ascii) : Prop :=
  exists d, RefJson.digit_val c = Some d /\ 0 < d.

(** The integer part of a number: "0", or digits of which the first is
    not "0". *)
Inductive int_part : string -> Prop :=
| int_part_zero : int_part "0"
| int_part_digits c t :
    leading c -> all_digits t = true -> int_part (String c t).

(** A character a value can begin with. *)
Definition value_start (c : ascii) : bool :=
  existsb (Ascii.eqb c)
    (list_ascii_of_string (RefJson.dq "ntfNI-0123456789'[{")).

(** What can follow a value in the text the encoder writes: nothing, a
    comma or a new line. *)
Definition stops (rest : string) : bool :=
  match rest with
  | EmptyString => true
  | String c _ => Ascii.eqb c ","%char || Ascii.eqb c "010"%char
  end.

(** The text [d x] of [x], followed by what can follow a value, is read
    as [x] by the reference decoder when it is allowed to go deep
    enough. *)
Definition reads_back (d : json -> string) (x : json) : Prop :=
  forall fuel rest,
    (size x < fuel)%nat -> stops rest = true ->
    RefJson.parse_value fuel (d x ++ rest) = Some (x, rest).

(** The limits of CPython on what [json] writes and reads: an integer of
    4300 decimal digits at most (the default of
    [sys.get_int_max_str_digits()]), and arrays and objects [room] deep at
    most inside one another. *)
Fixpoint within_limits (room : nat) (v : json) : bool :=
  match v with
  | JInt z => Z.abs z <? 10 ^ 4300
  | JArr l =>
      match room with
      | O => false
      | S room' => forallb (within_limits room') l
      end
  | JObj m =>
      match room with
      | O => false
      | S room' =>
          forallb (fun kv : string * json => within_limits room' (snd kv)) m
      end
  | _ => true
  end.

(** A record that [save_progress] can write and [load_progress] read
    again: well formed and within the limits, with 900 levels of nesting
    (the recursion limit of the interpreter, 1000 by default, leaves
    [json] more than that where this program calls it). *)
Definition storable (v : json) : bool := well_formed v && within_limits 900 v.
(** * Properties *)

(** ** Strings *)

Lemma append_assoc (a b c : string) : (a ++ b) ++ c = a ++ (b ++ c).
Proof. induction a as [|x a IH]; simpl; [reflexivity | now rewrite IH]. Qed.

Lemma append_length (a b : string) :
  String.length (a ++ b) = (String.length a + String.length b)%nat.
Proof. induction a as [|x a IH]; simpl; [reflexivity | now rewrite IH]. Qed.

Lemma startswith_iff (p s : string) :
  Py.startswith p s = true <-> exists post, s = p ++ post.
Proof.
  revert s; induction p as [|a p IH]; intros s; simpl.
  - split; [intros _; now exists s | reflexivity].
  - destruct s as [|b s].
    + split; [discriminate | intros [post H]; discriminate].
    + rewrite andb_true_iff, Ascii.eqb_eq, IH. split.
      * intros [-> [post ->]]. now exists post.
      * intros [post H]. injection H as -> ->. split; [reflexivity | now exists post].
Qed.

Lemma contains_iff (sub s : string) :
  Py.contains sub s = true <-> occurs sub s.
Proof.
  unfold occurs. induction s as [|c s IH].
  - simpl. rewrite orb_false_r, startswith_iff. split.
    + intros [post H]. exists EmptyString, post. exact H.
    + intros [[|x pre] [post H]]; [now exists post | discriminate].
  - cbn [Py.contains]. rewrite orb_true_iff, startswith_iff, IH. split.
    + intros [[post H] | [pre [post H]]].
      * exists EmptyString, post. exact H.
      * exists (String c pre), post. simpl. now rewrite H.
    + intros [[|x pre] [post H]].
      * left. now exists post.
      * right. injection H as -> ->. now exists pre, post.
Qed.

Lemma map_chars_app (f : ascii -> ascii) (a b : string) :
  Py.map_chars f (a ++ b) = Py.map_chars f a ++ Py.map_chars f b.
Proof. induction a as [|x a IH]; simpl; [reflexivity | now rewrite IH]. Qed.

Lemma map_chars_app_inv (f : ascii -> ascii) (s a b : string) :
  Py.map_chars f s = a ++ b ->
  exists a' b', s = a' ++ b' /\ Py.map_chars f a' = a /\ Py.map_chars f b' = b.
Proof.
  revert s; induction a as [|x a IH]; intros s H.
  - exists EmptyString, s. now repeat split.
  - destruct s as [|c s]; [discriminate |].
    simpl in H. injection H as Hc Hs.
    destruct (IH _ Hs) as (a' & b' & -> & Ha & Hb).
    exists (String c a'), b'. simpl. now rewrite Hc, Ha, Hb.
Qed.

Lemma contains_lower_iff (sub s : string) :
  Py.contains sub (Py.lower s) = true <-> occurs_nocase sub s.
Proof.
  rewrite contains_iff. unfold occurs, occurs_nocase, Py.lower. split.
  - intros (pre & post & H).
    apply map_chars_app_inv in H. destruct H as (pre' & r & -> & Hpre & Hr).
    apply map_chars_app_inv in Hr. destruct Hr as (w & post' & -> & Hw & Hpost).
    now exists pre', w, post'.
  - intros (pre & w & post & -> & Hw).
    exists (Py.map_chars Py.lower_char pre), (Py.map_chars Py.lower_char post).
    now rewrite !map_chars_app, Hw.
Qed.

Lemma substring_0_length (n : nat) (s : string) :
  String.length (substring 0 n s) = Nat.min n (String.length s).
Proof.
  revert s; induction n as [|n IH]; intros [|c s]; simpl; try reflexivity.
  now rewrite IH.
Qed.

Lemma substring_0_prefix (n : nat) (s : string) :
  exists rest, s = substring 0 n s ++ rest.
Proof.
  revert s; induction n as [|n IH]; intros [|c s]; simpl.
  - now exists EmptyString.
  - now exists (String c s).
  - now exists EmptyString.
  - destruct (IH s) as [rest H]. exists rest. now rewrite <- H.
Qed.

Lemma slice_to_first_chars (n : nat) (s : string) :
  first_chars n s (Py.slice_to s (Z.of_nat n)).
Proof.
  unfold first_chars, Py.slice_to, Py.slice, Py.slice_index, Py.len.
  replace (0 <? 0) with false by reflexivity.
  replace (Z.of_nat n <? 0) with false by (symmetry; apply Z.ltb_ge; lia).
  replace (Z.to_nat (Z.min 0 (Z.of_nat (String.length s)))) with 0%nat by lia.
  replace (Z.to_nat (Z.min (Z.of_nat n) (Z.of_nat (String.length s))
                     - Z.min 0 (Z.of_nat (String.length s))))
    with (Nat.min n (String.length s)) by lia.
  split.
  - apply substring_0_prefix.
  - rewrite substring_0_length. lia.
Qed.

(** ** Model-call failures (section 4.4) *)

Section Failures.

Context {codec : JsonCodec}.

Lemma rate_limited_iff (msg : string) :
  Py.contains "429" msg
  || Py.contains "quota" (Py.lower msg)
  || Py.contains "rate" (Py.lower msg) = true
  <-> rate_limited msg.
Proof.
  unfold rate_limited.
  rewrite !orb_true_iff, contains_iff, !contains_lower_iff. tauto.
Qed.

Lemma permission_denied_iff (msg : string) :
  Py.contains "403" msg || Py.contains "permission" (Py.lower msg) = true
  <-> permission_denied msg.
Proof.
  unfold permission_denied.
  rewrite orb_true_iff, contains_iff, contains_lower_iff. tauto.
Qed.

(** C7.  A failure of the model call is classified by the text of its
    error alone: "429", or "quota" or "rate" in any case, gives the
    rate-limit message; failing that, "403", or "permission" in any case,
    gives the access-denied message; failing both, the generic message
    with the first 100 characters of the text (all of it if shorter).
    [explain_concept] returns the message, [generate_quiz] prints it and
    returns the empty list; neither touches the record. *)
Theorem failure_classified_by_text
    (error_msg now topic : string) (st : state) :
  (rate_limited error_msg ->
   explain_concept (inl error_msg) now topic st
     = (inr rate_limit_explanation, st) /\
   generate_quiz (inl error_msg) topic st
     = (inr (JArr []), with_stdout (stdout st ++ [rate_limit_notice]) st))
  /\
  (~ rate_limited error_msg -> permission_denied error_msg ->
   explain_concept (inl error_msg) now topic st
     = (inr access_denied_explanation, st) /\
   generate_quiz (inl error_msg) topic st
     = (inr (JArr []), with_stdout (stdout st ++ [access_denied_notice]) st))
  /\
  (~ rate_limited error_msg -> ~ permission_denied error_msg ->
   exists shown,
     first_chars 100 error_msg shown /\
     explain_concept (inl error_msg) now topic st
       = (inr ("⚠️ Error generating explanation: " ++ shown), st) /\
     generate_quiz (inl error_msg) topic st
       = (inr (JArr []),
          with_stdout (stdout st ++ ["⚠️ Error generating quiz: " ++ shown]) st)).
Proof.
  unfold explain_concept, generate_quiz.
  pose proof (rate_limited_iff error_msg) as Hr.
  pose proof (permission_denied_iff error_msg) as Hp.
  destruct (Py.contains "429" error_msg
            || Py.contains "quota" (Py.lower error_msg)
            || Py.contains "rate" (Py.lower error_msg)) eqn:Er.
  - assert (rate_limited error_msg) by now apply Hr.
    repeat split; intros; try contradiction; reflexivity.
  - assert (~ rate_limited error_msg) as Hnr
        by (intros Hc; apply Hr in Hc; discriminate).
    destruct (Py.contains "403" error_msg
              || Py.contains "permission" (Py.lower error_msg)) eqn:Ep.
    + assert (permission_denied error_msg) by now apply Hp.
      repeat split; intros; try contradiction; reflexivity.
    + assert (~ permission_denied error_msg)
          by (intros Hc; apply Hp in Hc; discriminate).
      repeat split; intros; try contradiction.
      exists (Py.slice_to error_msg 100). split; [| split; reflexivity].
      apply (slice_to_first_chars 100).
Qed.

End Failures.

(** ** The progress store (section 4.3) *)

Section Store.

Context {codec : JsonCodec}.

Lemma load_progress_eq (st : state) :
  load_progress st
  = (inr tt, with_progress (loaded_record (progress_file st)) st).
Proof.
  unfold load_progress, loaded_record, try_except, bind, read_progress_file, lift.
  destruct (progress_file st) as [text|]; [| reflexivity].
  destruct (json_loads text); reflexivity.
Qed.

(** C4.  When the progress file is missing, or its content does not
    decode, [load_progress] does not raise and installs the empty record:
    no topic, no score, no question asked, none answered. *)
Theorem load_progress_missing_or_malformed (st : state) :
  progress_file st = None \/
  (exists text e, progress_file st = Some text /\ json_loads text = inl e) ->
  load_progress st = (inr tt, with_progress default_progress st) /\
  py_getitem default_progress "topics_studied" = inr (JArr []) /\
  py_getitem default_progress "quiz_scores" = inr (JArr []) /\
  py_getitem default_progress "total_questions" = inr (JInt 0) /\
  py_getitem default_progress "correct_answers" = inr (JInt 0).
Proof.
  intros H. split; [| repeat split].
  rewrite load_progress_eq. unfold loaded_record.
  destruct H as [H | (text & e & H & He)]; rewrite H; [reflexivity |].
  now rewrite He.
Qed.

(** C9.  Whatever JSON value the progress file decodes to becomes the
    record as it is: nothing checks its shape, and the empty record is not
    put in its place. *)
Theorem load_progress_adopts_any_json (st : state) (text : string) (v : json) :
  progress_file st = Some text ->
  json_loads text = inr v ->
  load_progress st = (inr tt, with_progress v st).
Proof.
  intros Hf Hv.
  rewrite load_progress_eq. unfold loaded_record.
  now rewrite Hf, Hv.
Qed.

End Store.

(** ** The response parser (section 4.1) *)







Lemma substring_skip (pre s : string) (n : nat) :
  substring (String.length pre) n (pre ++ s) = substring 0 n s.
Proof. induction pre as [|x pre IH]; [reflexivity | exact IH]. Qed.



Lemma substring_none (n : nat) (s : string) : substring n 0 s = EmptyString.
Proof.
  revert s; induction n as [|n IH]; intros [|x s]; cbn; try reflexivity.
  apply IH.
Qed.



(** Every text with both brackets has a bracketed part, so the cases of
    the contract below leave no text out. *)





Section Parser.

Context {codec : JsonCodec}.




End Parser.

(** ** Dictionaries *)

Lemma dict_get_set_same (k : string) (v : json) (m : dict) :
  dict_get k (dict_set k v m) = Some v.
Proof.
  induction m as [|[k' v'] m IH]; cbn.
  - now rewrite String.eqb_refl.
  - destruct (String.eqb k k') eqn:E; cbn; rewrite ?String.eqb_refl, ?E; auto.
Qed.

Lemma dict_get_set_other (k k' : string) (v : json) (m : dict) :
  k' <> k -> dict_get k' (dict_set k v m) = dict_get k' m.
Proof.
  intros Hne. induction m as [|[k0 v0] m IH]; cbn.
  - apply String.eqb_neq in Hne. now rewrite Hne.
  - destruct (String.eqb k k0) eqn:E; cbn.
    + apply String.eqb_eq in E. subst k0.
      apply String.eqb_neq in Hne. now rewrite Hne.
    + now rewrite IH.
Qed.

Lemma getitem_is_dict (p : json) (k : string) (v : json) :
  py_getitem p k = inr v -> exists m, p = JObj m /\ dict_get k m = Some v.
Proof.
  destruct p; try discriminate. cbn.
  destruct (dict_get k m) eqn:E; [| discriminate].
  intros H. injection H as ->. now exists m.
Qed.

Lemma getitem_setitem_same (m : dict) (k : string) (v : json) :
  py_getitem (JObj (dict_set k v m)) k = inr v.
Proof. cbn. now rewrite dict_get_set_same. Qed.

Lemma getitem_setitem_other (m : dict) (k k' : string) (v : json) :
  k' <> k -> py_getitem (JObj (dict_set k v m)) k' = py_getitem (JObj m) k'.
Proof. intros H. cbn. now rewrite dict_get_set_other. Qed.

Lemma same_except_refl (k : string) (p : json) : same_except k p p.
Proof. now intros k' _. Qed.

Lemma same_except_set (k : string) (v : json) (m : dict) :
  same_except k (JObj m) (JObj (dict_set k v m)).
Proof. intros k' H. now apply getitem_setitem_other. Qed.

(** ** The monad *)

Lemma bind_ok {A B} (c : M A) (k : A -> M B) (st st' : state) (a : A) :
  c st = (inr a, st') -> bind c k st = k a st'.
Proof. intros H. unfold bind. now rewrite H. Qed.

Lemma progress_getitem_eq (k : string) (st : state) :
  progress_getitem k st = (py_getitem (progress st) k, st).
Proof. reflexivity. Qed.

Lemma progress_setitem_dict (k : string) (v : json) (st : state) (m : dict) :
  progress st = JObj m ->
  progress_setitem k v st = (inr tt, with_progress (JObj (dict_set k v m)) st).
Proof.
  intros H. unfold progress_setitem, bind, get_progress, lift, set_progress.
  now rewrite H.
Qed.

Lemma progress_setitem_again (k : string) (v : json) (st : state) (m : dict) :
  progress_setitem k v (with_progress (JObj m) st)
  = (inr tt, with_progress (JObj (dict_set k v m)) st).
Proof. reflexivity. Qed.

Lemma map_result_entries (entries : list json) (names : list string) :
  Forall2 (fun e name => py_getitem e "topic" = inr (JStr name)) entries names ->
  map_result (fun t => py_getitem t "topic") entries = inr (map JStr names).
Proof.
  induction 1 as [|e name entries names He _ IH]; cbn; [reflexivity |].
  now rewrite He, IH.
Qed.

Lemma existsb_topic (topic : string) (names : list string) :
  existsb (py_str_eq topic) (map JStr names) = true <-> In topic names.
Proof.
  rewrite existsb_exists. split.
  - intros (x & Hin & Heq). apply in_map_iff in Hin as (name & <- & Hin).
    cbn in Heq. apply String.eqb_eq in Heq. now subst.
  - intros Hin. exists (JStr topic). split; [now apply in_map | apply String.eqb_refl].
Qed.

(** ** Explanations and the topics studied *)

Section Explain.

Context {codec : JsonCodec}.

Lemma explain_concept_fresh
    (st : state) (m : dict) (entries : list json) (names : list string)
    (explanation now topic : string) :
  progress st = JObj m ->
  has_topics (progress st) entries names ->
  ~ In topic names ->
  explain_concept (inr explanation) now topic st
  = (inr explanation, studied_more m entries topic now st).
Proof.
  intros Hp [Hget Hnames] Hfresh.
  unfold explain_concept.
  rewrite (bind_ok _ _ st st (JArr entries))
    by (rewrite progress_getitem_eq; now rewrite Hget).
  unfold bind at 1. cbn [lift py_iter].
  unfold bind at 1. cbn [lift]. rewrite (map_result_entries _ _ Hnames).
  destruct (existsb (py_str_eq topic) (map JStr names)) eqn:E.
  - apply existsb_topic in E. contradiction.
  - cbn [negb]. unfold bind at 1. unfold bind at 1. cbn [lift py_append].
    unfold bind at 1. rewrite (progress_setitem_dict _ _ _ m Hp).
    reflexivity.
Qed.

Lemma explain_concept_known
    (st : state) (entries : list json) (names : list string)
    (explanation now topic : string) :
  has_topics (progress st) entries names ->
  In topic names ->
  explain_concept (inr explanation) now topic st = (inr explanation, st).
Proof.
  intros [Hget Hnames] Hin.
  unfold explain_concept.
  rewrite (bind_ok _ _ st st (JArr entries))
    by (rewrite progress_getitem_eq; now rewrite Hget).
  unfold bind at 1. cbn [lift py_iter].
  unfold bind at 1. cbn [lift]. rewrite (map_result_entries _ _ Hnames).
  apply existsb_topic in Hin. rewrite Hin. reflexivity.
Qed.

Lemma has_topics_more
    (m : dict) (entries : list json) (names : list string) (topic now : string) :
  Forall2 (fun e name => py_getitem e "topic" = inr (JStr name)) entries names ->
  has_topics (JObj (dict_set "topics_studied"
                      (JArr (entries ++ [topic_entry topic now])) m))
             (entries ++ [topic_entry topic now]) (names ++ [topic]).
Proof.
  intros H. split.
  - apply getitem_setitem_same.
  - apply Forall2_app; [assumption |]. constructor; [reflexivity | constructor].
Qed.

(** C6.  On a record whose [topics_studied] lists entries with a topic
    each, two successful calls of [explain_concept] for one topic: the
    first appends one entry for the topic (and saves the record) if the
    topic is not among those studied, and nothing if it is; the second
    changes nothing at all.  So the two calls together add exactly one
    entry for a topic that was not there, and none is ever added twice. *)
Theorem explain_twice_appends_once
    (st : state) (entries : list json) (names : list string)
    (topic e1 now1 e2 now2 : string) :
  has_topics (progress st) entries names ->
  exists st1,
    explain_concept (inr e1) now1 topic st = (inr e1, st1) /\
    explain_concept (inr e2) now2 topic st1 = (inr e2, st1) /\
    (~ In topic names ->
     has_topics (progress st1)
                (entries ++ [topic_entry topic now1]) (names ++ [topic]) /\
     progress_file st1 = Some (json_dumps (progress st1))) /\
    (In topic names -> st1 = st).
Proof.
  intros Hvalid.
  destruct (in_dec string_dec topic names) as [Hin | Hfresh].
  - exists st. repeat split; try (intros; contradiction).
    + now apply (explain_concept_known st entries names).
    + now apply (explain_concept_known st entries names).
  - destruct (getitem_is_dict _ _ _ (proj1 Hvalid)) as (m & Hp & _).
    exists (studied_more m entries topic now1 st).
    assert (has_topics (progress (studied_more m entries topic now1 st))
              (entries ++ [topic_entry topic now1]) (names ++ [topic])) as Hmore
        by (apply has_topics_more, Hvalid).
    repeat split; try (intros; contradiction); try apply Hmore.
    + now apply (explain_concept_fresh st m entries names).
    + apply (explain_concept_known _ _ _ _ _ _ Hmore).
      apply in_or_app. right. now left.
Qed.

End Explain.

(** ** The command router (section 2) *)

Lemma replace_from_absent (old new s : string) :
  Py.contains old s = false -> Py.replace_from O old new s = s.
Proof.
  induction s as [|c s IH]; intros H; [reflexivity |].
  cbn [Py.contains] in H. apply orb_false_iff in H as [Hhere Hlater].
  cbn [Py.replace_from]. now rewrite Hhere, IH.
Qed.

Lemma replace_from_skip (old new a s : string) :
  Py.replace_from (String.length a) old new (a ++ s)
  = Py.replace_from O old new s.
Proof. induction a as [|x a IH]; [reflexivity | exact IH]. Qed.

(** A command word at the head of the line is removed, the rest of the
    line being free of it. *)
Lemma replace_prefix (c : ascii) (word rest : string) :
  Py.contains (String c word) rest = false ->
  Py.replace (String c word) EmptyString (String c word ++ rest) = rest.
Proof.
  intros H. unfold Py.replace. cbn [append Py.replace_from].
  replace (Py.startswith (String c word) (String c (word ++ rest))) with true.
  - replace (String.length (String c word) - 1)%nat with (String.length word)
      by (cbn [String.length]; lia).
    rewrite replace_from_skip.
    cbn [append]. now apply replace_from_absent.
  - symmetry. apply startswith_iff. now exists rest.
Qed.

Lemma parse_explain (line rest : string) :
  Py.lower (Py.strip line) = "explain " ++ rest ->
  ~ occurs "explain " rest ->
  parse_command line = Explain (Py.strip rest).
Proof.
  intros Hline Hrest. unfold parse_command. rewrite Hline.
  assert (Py.contains "explain " rest = false) as Hno.
  { destruct (Py.contains "explain " rest) eqn:E; [| reflexivity].
    now apply contains_iff in E. }
  rewrite (replace_prefix _ _ _ Hno). reflexivity.
Qed.

Lemma parse_quiz (line rest : string) :
  Py.lower (Py.strip line) = "quiz " ++ rest ->
  ~ occurs "quiz " rest ->
  parse_command line = Quiz (Py.strip rest).
Proof.
  intros Hline Hrest. unfold parse_command. rewrite Hline.
  assert (Py.contains "quiz " rest = false) as Hno.
  { destruct (Py.contains "quiz " rest) eqn:E; [| reflexivity].
    now apply contains_iff in E. }
  rewrite (replace_prefix _ _ _ Hno). reflexivity.
Qed.

Section Router.

Context {codec : JsonCodec}.

(** C8, as the code has it.  The line is stripped and put in lower case
    before it is matched.  When it then reads "explain " or "quiz "
    followed by a rest in which that word and space do not occur again, the
    topic handed to the handler is the rest, stripped; for [explain], with
    a successful model call, on a record that does not list it, that topic
    is the one recorded. *)
Theorem command_topic_normalised
    (st : state) (line rest : string) (more : list string) :
  stdin st = line :: more ->
  (Py.lower (Py.strip line) = "quiz " ++ rest -> ~ occurs "quiz " rest ->
   parse_command line = Quiz (Py.strip rest)) /\
  (Py.lower (Py.strip line) = "explain " ++ rest -> ~ occurs "explain " rest ->
   parse_command line = Explain (Py.strip rest) /\
   forall entries names explanation now,
     has_topics (progress st) entries names ->
     ~ In (Py.strip rest) names ->
     exists st',
       chat_turn (inr explanation) now st = (inr (Explain (Py.strip rest)), st') /\
       has_topics (progress st')
                  (entries ++ [topic_entry (Py.strip rest) now])
                  (names ++ [Py.strip rest])).
Proof.
  intros Hin. split; [apply parse_quiz |].
  intros Hline Hrest. pose proof (parse_explain _ _ Hline Hrest) as Hparse.
  split; [exact Hparse |].
  intros entries names explanation now Hvalid Hfresh.
  destruct (getitem_is_dict _ _ _ (proj1 Hvalid)) as (m & Hp & _).
  eexists. split.
  - unfold chat_turn, bind at 1, input. rewrite Hin, Hparse.
    unfold explain_command, print.
    unfold bind at 1. unfold bind at 1. unfold bind at 1.
    rewrite (explain_concept_fresh _ m entries names) by assumption.
    reflexivity.
  - cbn. apply has_topics_more, Hvalid.
Qed.

End Router.

(** ** Floats: a quotient of integers that is at most 1 is finite *)

Lemma digits2_pos_size (p : positive) : digits2_pos p = Pos.size p.
Proof. induction p as [p IH | p IH |]; cbn; now rewrite ?IH. Qed.

Lemma Zdigits2_nonneg (m : Z) : 0 <= Zdigits2 m.
Proof. destruct m; cbn; lia. Qed.

Lemma Zdigits2_upper (m k : Z) : 0 <= m < 2 ^ k -> 0 <= k -> Zdigits2 m <= k.
Proof.
  intros [Hm Hlt] Hk. destruct m as [|p|p]; cbn; [assumption | | lia].
  rewrite digits2_pos_size.
  pose proof (Pos.size_le p) as Hle.
  apply Pos2Z.pos_le_pos in Hle. rewrite Pos2Z.inj_pow in Hle.
  assert (2 ^ Z.pos (Pos.size p) < 2 ^ (k + 1)) as H
      by (rewrite Z.pow_add_r, Z.pow_1_r by lia; lia).
  apply Z.pow_lt_mono_r_iff in H; lia.
Qed.

Lemma Zdigits2_lower (m : Z) : 0 <= m -> m < 2 ^ Zdigits2 m.
Proof.
  intros Hm. destruct m as [|p|p]; cbn; [lia | | lia].
  rewrite digits2_pos_size.
  pose proof (Pos.size_gt p) as H.
  apply Pos2Z.pos_lt_pos in H. now rewrite Pos2Z.inj_pow in H.
Qed.

Lemma iter_pos_invariant {A : Type} (f : A -> A) (P : Z -> A -> Prop) :
  (forall k x, P k x -> P (k + 1) (f x)) ->
  forall n k x, P k x -> P (k + Z.pos n) (iter_pos f n x).
Proof.
  intros Hstep. induction n as [n IH | n IH |]; intros k x Hx; cbn.
  - replace (k + Z.pos n~1) with (k + 1 + Z.pos n + Z.pos n) by lia.
    apply IH, IH, Hstep, Hx.
  - replace (k + Z.pos n~0) with (k + Z.pos n + Z.pos n) by lia.
    apply IH, IH, Hx.
  - apply Hstep, Hx.
Qed.

Lemma shr_1_halves (mrs : shr_record) :
  0 <= shr_m mrs ->
  0 <= shr_m (shr_1 mrs) /\ 2 * shr_m (shr_1 mrs) <= shr_m mrs.
Proof.
  destruct mrs as [m r s]. cbn [shr_m]. intros Hm.
  destruct m as [|[p|p|]|p]; cbn; lia.
Qed.

Lemma shr_shrinks (mrs : shr_record) (e n : Z) :
  0 <= shr_m mrs ->
  0 <= shr_m (fst (shr mrs e n)) /\
  snd (shr mrs e n) = e + Z.max 0 n /\
  shr_m (fst (shr mrs e n)) * 2 ^ Z.max 0 n <= shr_m mrs.
Proof.
  intros Hm. destruct n as [|p|p]; cbn [shr fst snd Z.max Z.compare].
  - rewrite Z.pow_0_r. lia.
  - set (P := fun k x => 0 <= k /\ 0 <= shr_m x /\ shr_m x * 2 ^ k <= shr_m mrs).
    assert (forall k x, P k x -> P (k + 1) (shr_1 x)) as Hstep.
    { intros k x (Hk & H0 & Hle).
      destruct (shr_1_halves x H0) as [H1 H2].
      repeat split; [lia | assumption |].
      rewrite Z.pow_add_r, Z.pow_1_r by lia. nia. }
    assert (P 0 mrs) as Hinit by (unfold P; rewrite Z.pow_0_r; lia).
    destruct (iter_pos_invariant shr_1 P Hstep p 0 mrs Hinit) as (_ & H0 & Hle).
    cbn [Z.add] in Hle. repeat split; (assumption || lia).
  - rewrite Z.pow_0_r. lia.
Qed.

(** What [shr_fexp] returns for a mantissa that is not negative. *)
Lemma shr_fexp_bounds (m e : Z) (l : location) (bound : Z) :
  0 <= m ->
  Zdigits2 m + e <= bound ->
  e <= bound - prec ->
  emin prec emax <= bound - prec ->
  let r := shr_fexp prec emax m e l in
  0 <= shr_m (fst r) /\
  snd r <= bound - prec /\
  Zdigits2 (shr_m (fst r)) + snd r <= Z.max bound (snd r).
Proof.
  intros Hm Hd He Hmin r. subst r. unfold shr_fexp.
  assert (shr_m (shr_record_of_loc m l) = m) as Hrec
      by (destruct l as [|[| |]]; reflexivity).
  set (n := fexp prec emax (Zdigits2 m + e) - e).
  pose proof (shr_shrinks (shr_record_of_loc m l) e n) as H.
  rewrite Hrec in H. destruct (H Hm) as (H0 & He' & Hle). clear H.
  set (m' := shr_m (fst (shr (shr_record_of_loc m l) e n))) in *.
  set (e' := snd (shr (shr_record_of_loc m l) e n)) in *.
  assert (n <= bound - prec - e) as Hn by (unfold n, fexp; lia).
  split; [assumption |]. split; [lia |].
  pose proof (Zdigits2_lower m Hm) as Hlow.
  pose proof (Zdigits2_nonneg m) as Hdn.
  destruct (Z.le_gt_cases (Z.max 0 n) (Zdigits2 m)) as [Hsmall | Hbig].
  - assert (Zdigits2 m' <= Zdigits2 m - Z.max 0 n); [| lia].
    apply Zdigits2_upper; [| lia]. split; [assumption |].
    apply (Z.mul_lt_mono_pos_r (2 ^ Z.max 0 n)); [apply Z.pow_pos_nonneg; lia |].
    rewrite <- Z.pow_add_r by lia.
    replace (Zdigits2 m - Z.max 0 n + Z.max 0 n) with (Zdigits2 m) by lia. lia.
  - assert (m' = 0) as ->; [| cbn; lia].
    assert (2 ^ Zdigits2 m < 2 ^ Z.max 0 n)
      by (apply Z.pow_lt_mono_r; lia).
    nia.
Qed.

Lemma Zdigits2_succ (m : Z) : 0 <= m -> Zdigits2 (m + 1) <= Zdigits2 m + 1.
Proof.
  intros Hm. pose proof (Zdigits2_lower m Hm). pose proof (Zdigits2_nonneg m).
  apply Zdigits2_upper; [| lia].
  rewrite Z.pow_add_r, Z.pow_1_r by lia. lia.
Qed.

Lemma round_nearest_even_bounds (m : Z) (l : location) :
  0 <= m ->
  0 <= round_nearest_even m l /\
  Zdigits2 (round_nearest_even m l) <= Zdigits2 m + 1.
Proof.
  intros Hm. pose proof (Zdigits2_succ m Hm).
  destruct l as [|[| |]]; cbn [round_nearest_even];
    try destruct (Z.even m); split; lia.
Qed.

(** Rounding a mantissa that is not negative, of a value below [2^1023],
    gives a zero or a finite float. *)
Lemma binary_round_aux_finite (sx : bool) (mx ex : Z) (lx : location) :
  0 <= mx ->
  Zdigits2 mx + ex <= 1023 ->
  ex <= 970 ->
  is_finite (binary_round_aux prec emax sx mx ex lx) = true.
Proof.
  intros Hm Hd He. unfold binary_round_aux.
  pose proof (shr_fexp_bounds mx ex lx 1023 Hm Hd) as H1.
  destruct (shr_fexp prec emax mx ex lx) as [mrs' e'].
  cbn [fst snd] in H1.
  destruct H1 as (H0 & He' & Hd'); [unfold prec; lia | cbv; discriminate |].
  unfold prec in He'.
  pose proof (round_nearest_even_bounds (shr_m mrs') (loc_of_shr_record mrs') H0)
    as [Hr0 Hrd].
  set (m1 := round_nearest_even (shr_m mrs') (loc_of_shr_record mrs')) in *.
  pose proof (shr_fexp_bounds m1 e' loc_Exact 1024 Hr0) as H2.
  destruct (shr_fexp prec emax m1 e' loc_Exact) as [mrs'' e''].
  cbn [fst snd] in H2.
  destruct H2 as (H0' & He'' & _); [lia | unfold prec; lia | cbv; discriminate |].
  destruct (shr_m mrs'') as [|p|p]; [reflexivity | | lia].
  replace (e'' <=? emax - prec) with true; [reflexivity |].
  symmetry. apply Z.leb_le. unfold prec, emax in *. lia.
Qed.

Lemma fdiv_le_one_finite (a b : positive) :
  (a <= b)%positive ->
  is_finite (fdiv (S754_finite false a 0) (S754_finite false b 0)) = true.
Proof.
  intros Hab. unfold fdiv, SFdiv, SFdiv_core_binary.
  set (e' := Z.min (fexp prec emax (Zdigits2 (Z.pos a) + 0 - (Zdigits2 (Z.pos b) + 0)))
                   (0 - 0)).
  set (s := 0 - 0 - e').
  assert (e' <= 0) as He' by (unfold e'; lia).
  set (m' := match s with
             | 0 => Z.pos a
             | Z.pos _ => Z.shiftl (Z.pos a) s
             | Z.neg _ => 0
             end).
  assert (m' = Z.pos a * 2 ^ s) as Hm'.
  { unfold m'. destruct s as [|p|p] eqn:Es.
    - rewrite Z.pow_0_r. lia.
    - apply Z.shiftl_mul_pow2. lia.
    - unfold s in Es. lia. }
  pose proof (Z_div_mod m' (Z.pos b) eq_refl) as Hdiv.
  destruct (Z.div_eucl m' (Z.pos b)) as [q r].
  destruct Hdiv as [Hq Hr].
  assert (0 < 2 ^ s) as Hpow by (apply Z.pow_pos_nonneg; unfold s; lia).
  assert (0 <= q) as Hq0 by nia.
  assert (q <= 2 ^ s) as Hqs.
  { apply Pos2Z.pos_le_pos in Hab. nia. }
  apply binary_round_aux_finite; [assumption | | lia].
  assert (Zdigits2 q <= s + 1); [| unfold s in *; lia].
  apply Zdigits2_upper; [| unfold s; lia].
  rewrite Z.pow_add_r, Z.pow_1_r by (unfold s; lia). lia.
Qed.

(** [score / n] does not raise for [0 <= score <= n], [n] not 0. *)
Lemma int_truediv_ok (score n : Z) :
  0 <= score <= n -> 0 < n ->
  int_truediv score n = inr (fdiv (exact_int score) (exact_int n)).
Proof.
  intros [H0 Hle] Hn. unfold int_truediv.
  replace (n =? 0) with false by (symmetry; apply Z.eqb_neq; lia).
  destruct n as [|b|b]; try lia.
  destruct score as [|a|a]; try lia.
  - reflexivity.
  - cbn [exact_int]. now rewrite fdiv_le_one_finite.
Qed.

Lemma float_mul_int_100 (f : float) :
  float_mul_int f 100 = inr (fmul f hundred).
Proof. reflexivity. Qed.

(** A score of nothing is 0.0 and a perfect score is 100.0, exactly. *)
Lemma percentage_of_none (n : Z) : 0 < n -> percentage 0 n = S754_zero false.
Proof. destruct n; try lia. reflexivity. Qed.

Lemma fdiv_same (a : positive) :
  fdiv (S754_finite false a 0) (S754_finite false a 0)
  = S754_finite false 4503599627370496 (-52).
Proof.
  unfold fdiv, SFdiv, SFdiv_core_binary.
  replace (Zdigits2 (Z.pos a) + 0 - (Zdigits2 (Z.pos a) + 0)) with 0 by lia.
  change (Z.min (fexp prec emax 0) (0 - 0)) with (-53).
  change (0 - 0 - -53) with 53.
  cbv iota. rewrite Z.shiftl_mul_pow2 by lia.
  destruct (Z.div_eucl (Z.pos a * 2 ^ 53) (Z.pos a)) as [q r] eqn:E.
  assert (q = 2 ^ 53 /\ r = 0) as [-> ->].
  { change q with (fst (q, r)). change r with (snd (q, r)) at 2. rewrite <- E.
    change (fst (Z.div_eucl (Z.pos a * 2 ^ 53) (Z.pos a)))
      with (Z.pos a * 2 ^ 53 / Z.pos a).
    change (snd (Z.div_eucl (Z.pos a * 2 ^ 53) (Z.pos a)))
      with ((Z.pos a * 2 ^ 53) mod Z.pos a).
    rewrite Z.mul_comm. split; [apply Z.div_mul | apply Z.mod_mul]; lia. }
  unfold new_location, new_location_even, new_location_odd.
  destruct (Z.even (Z.pos a)); reflexivity.
Qed.

Lemma percentage_of_all (n : Z) : 0 < n -> percentage n n = hundred.
Proof.
  destruct n as [|a|a]; try lia. intros _.
  unfold percentage. cbn [exact_int]. rewrite fdiv_same. reflexivity.
Qed.

(** ** The quiz runner (section 4.2) *)

Lemma py_len_iter (x : json) (items : list json) :
  py_iter x = inr items -> py_len x = inr (Z.of_nat (List.length items)).
Proof.
  destruct x; try discriminate; cbn; intros H; injection H as <-.
  - unfold Py.len. f_equal. f_equal.
    induction s as [|c s IH]; cbn; [reflexivity | now rewrite IH].
  - reflexivity.
  - now rewrite length_map.
Qed.

Lemma count_right_bounds (questions : list json) (lines : list string) :
  0 <= count_right questions lines <= Z.of_nat (List.length questions).
Proof.
  revert lines; induction questions as [|q questions IH]; intros lines.
  - cbn. lia.
  - destruct lines as [|line lines]; [cbn; lia |].
    specialize (IH lines). cbn [count_right List.length].
    destruct (right_answer q line); lia.
Qed.

Section Quiz.

Context {codec : JsonCodec}.

(** The loop, on questions that are well formed and with an answer typed
    for each. *)
Lemma ask_questions_ok
    (questions : list json) (lines more : list string) (score : Z) (st : state) :
  Forall question_ok questions ->
  List.length lines = List.length questions ->
  stdin st = (lines ++ more)%list ->
  ask_questions questions score st
  = (inr (score + count_right questions lines), with_stdin more st).
Proof.
  intros Hok. revert lines score st.
  induction Hok as [|q questions Hq _ IH]; intros lines score st Hlen Hin.
  - destruct lines; [| discriminate]. cbn in *.
    rewrite Z.add_0_r. unfold ret. destruct st; cbn in *. now subst.
  - destruct lines as [|line lines]; [discriminate |].
    destruct Hq as (text & options & items & answer & explanation
                    & Hq1 & Hq2 & Hq3 & Hq4 & Hq5).
    cbn [ask_questions]. unfold bind at 1, lift at 1. rewrite Hq1.
    unfold bind at 1, lift at 1. rewrite Hq2.
    unfold bind at 1, lift at 1. rewrite Hq3.
    unfold bind at 1, input at 1. rewrite Hin. cbn [app].
    unfold bind at 1, lift at 1. rewrite Hq4.
    unfold bind at 1, lift at 1. rewrite Hq5.
    rewrite (IH lines) by (cbn in *; (lia || reflexivity)).
    cbn [count_right]. unfold right_answer at 1. rewrite Hq4.
    f_equal. f_equal.
    destruct (py_str_eq (Py.upper (Py.strip line)) answer); lia.
Qed.

(** The loop, whatever the questions and the lines typed: it leaves the
    record and the file alone, and marks no more questions right than it
    asked. *)
Lemma ask_questions_frame (questions : list json) (score : Z) (st : state) :
  progress (snd (ask_questions questions score st)) = progress st /\
  progress_file (snd (ask_questions questions score st)) = progress_file st /\
  forall score', fst (ask_questions questions score st) = inr score' ->
                 score <= score' <= score + Z.of_nat (List.length questions).
Proof.
  revert score st; induction questions as [|q questions IH]; intros score st.
  - cbn. repeat split; injection H as <-; lia.
  - cbn [ask_questions List.length]. unfold bind, lift, input.
    destruct (py_getitem q "question"); [cbn; repeat split; discriminate |].
    destruct (py_getitem q "options") as [|options];
      [cbn; repeat split; discriminate |].
    destruct (py_iter options); [cbn; repeat split; discriminate |].
    destruct (stdin st) as [|line rest];
      [cbn; repeat split; discriminate |].
    destruct (py_getitem q "correct") as [|answer];
      [cbn; repeat split; discriminate |].
    destruct (py_getitem q "explanation");
      [cbn; repeat split; discriminate |].
    destruct (IH (if py_str_eq (Py.upper (Py.strip line)) answer
                  then score + 1 else score) (with_stdin rest st))
      as (Hp & Hf & Hs).
    split; [exact Hp | split; [exact Hf |]].
    intros score' H. specialize (Hs _ H).
    destruct (py_str_eq (Py.upper (Py.strip line)) answer); lia.
Qed.

(** How [record_score] ends on a record with both counters. *)
Lemma record_score_run
    (st : state) (m : dict) (total right : Z) (now : string) (score n : Z) :
  progress st = JObj m ->
  dict_get "total_questions" m = Some (JInt total) ->
  dict_get "correct_answers" m = Some (JInt right) ->
  record_score now score n st =
  match int_truediv score n with
  | inl e => (inl e, st)
  | inr ratio =>
      match float_mul_int ratio 100 with
      | inl e => (inl e, st)
      | inr accuracy =>
          match dict_get "quiz_scores" m with
          | None => (inl (KeyError "quiz_scores"), st)
          | Some scores =>
              match py_append scores (score_entry now score n accuracy) with
              | inl e => (inl e, st)
              | inr scores' =>
                  (inr tt, scored m scores' (total + n) (right + score) st)
              end
          end
      end
  end.
Proof.
  intros Hp Ht Hr. unfold record_score.
  unfold bind at 1, lift at 1. destruct (int_truediv score n) as [|ratio]; [reflexivity |].
  unfold bind at 1, lift at 1.
  destruct (float_mul_int ratio 100) as [|accuracy]; [reflexivity |].
  unfold bind at 1. rewrite progress_getitem_eq, Hp. cbn [py_getitem].
  destruct (dict_get "quiz_scores" m) as [scores|]; [| reflexivity].
  unfold bind at 1, lift at 1. fold (score_entry now score n accuracy).
  destruct (py_append scores (score_entry now score n accuracy)) as [|scores'];
    [reflexivity |].
  unfold bind at 1. rewrite (progress_setitem_dict _ _ _ m Hp).
  unfold bind at 1. rewrite progress_getitem_eq. cbn [with_progress progress py_getitem].
  rewrite dict_get_set_other, Ht by discriminate.
  unfold bind at 1, lift at 1. cbn [py_add_int].
  unfold bind at 1. rewrite progress_setitem_again.
  unfold bind at 1. rewrite progress_getitem_eq. cbn [with_progress progress py_getitem].
  rewrite !dict_get_set_other, Hr by discriminate.
  unfold bind at 1, lift at 1. cbn [py_add_int].
  unfold bind at 1. rewrite progress_setitem_again.
  reflexivity.
Qed.

Lemma scored_counters (m : dict) (scores : json) (total right : Z) (st : state) :
  has_counters (progress (scored m scores total right st)) total right.
Proof.
  split; cbn.
  - now rewrite dict_get_set_other, dict_get_set_same by discriminate.
  - now rewrite dict_get_set_same.
Qed.

Lemma scored_scores (m : dict) (scores : list json) (total right : Z) (st : state) :
  has_scores (progress (scored m (JArr scores) total right st)) scores.
Proof.
  unfold has_scores. cbn.
  now rewrite !dict_get_set_other, dict_get_set_same by discriminate.
Qed.

End Quiz.

Section QuizProperties.

Context {codec : JsonCodec}.

(** C2, as the code has it.  On a record with its scores and counters, a
    quiz of [n] well-formed questions ([n] not 0) with an answer typed for
    each, [score] of them right: [take_quiz] returns [(score, n)], adds [n]
    to [total_questions] and [score] to [correct_answers], appends to
    [quiz_scores] one entry with that score, that total and, as accuracy,
    the float [(score / n) * 100], leaves the topics alone, and saves the
    record.  That float is 0.0 for no right answer, 100.0 for a perfect
    score and 60.0 for 3 of 5. *)
Theorem take_quiz_records_score
    (st : state) (questions : list json) (lines more : list string)
    (now : string) (scores : list json) (total right : Z) :
  questions <> [] ->
  Forall question_ok questions ->
  List.length lines = List.length questions ->
  stdin st = (lines ++ more)%list ->
  has_scores (progress st) scores ->
  has_counters (progress st) total right ->
  let n := Z.of_nat (List.length questions) in
  let score := count_right questions lines in
  exists st',
    take_quiz now (JArr questions) st = (inr (score, n), st') /\
    has_counters (progress st') (total + n) (right + score) /\
    has_scores (progress st')
               (scores ++ [score_entry now score n (percentage score n)]) /\
    py_getitem (progress st') "topics_studied"
      = py_getitem (progress st) "topics_studied" /\
    progress_file st' = Some (json_dumps (progress st')) /\
    stdin st' = more /\
    (score = 0 -> percentage score n = S754_zero false) /\
    (score = n -> percentage score n = hundred) /\
    percentage 3 5 = S754_finite false 8444249301319680 (-47) /\
    (float_value (percentage 3 5) == 60)%Q.
Proof.
  intros Hne Hok Hlen Hin Hscores [Ht Hr] n score.
  destruct (getitem_is_dict _ _ _ Hscores) as (m & Hp & Hs).
  rewrite Hp in Ht, Hr. cbn in Ht, Hr.
  destruct (dict_get "total_questions" m) as [t|] eqn:Et; [| discriminate].
  destruct (dict_get "correct_answers" m) as [r|] eqn:Er; [| discriminate].
  injection Ht as ->. injection Hr as ->.
  pose proof (count_right_bounds questions lines) as Hb.
  assert (0 < n) as Hn by (unfold n; destruct questions; [contradiction | cbn; lia]).
  exists (scored m (JArr (scores ++ [score_entry now score n (percentage score n)]))
                 (total + n) (right + score) (with_stdin more st)).
  split; [| split; [apply scored_counters | split; [apply scored_scores |]]].
  - unfold take_quiz. unfold bind at 1. cbn [lift py_iter].
    unfold bind at 1.
    rewrite (ask_questions_ok questions lines more 0 st Hok Hlen Hin).
    unfold bind at 1. cbn [lift py_len]. fold n.
    unfold bind at 1.
    rewrite (record_score_run (with_stdin more st) m total right now _ n Hp Et Er).
    cbn [Z.add]. fold score.
    rewrite (int_truediv_ok score n) by (fold n in Hb; lia).
    rewrite float_mul_int_100, Hs. reflexivity.
  - split; [| split; [| split; [| split; [| split; [| split]]]]];
      try reflexivity.
    + rewrite Hp. cbn. now rewrite !dict_get_set_other by discriminate.
    + intros ->. now apply percentage_of_none.
    + intros ->. now apply percentage_of_all.
Qed.

(** [explain_concept] changes nothing in the record but [topics_studied]. *)
Lemma explain_concept_frame
    (reply : string + string) (now topic : string) (st : state) :
  same_except "topics_studied" (progress st)
              (progress (snd (explain_concept reply now topic st))).
Proof.
  unfold explain_concept. destruct reply as [error_msg | explanation].
  - repeat match goal with
           | |- context [if ?b then _ else _] => destruct b
           end; apply same_except_refl.
  - unfold bind at 1. rewrite progress_getitem_eq.
    destruct (py_getitem (progress st) "topics_studied") as [|studied] eqn:Hget;
      [apply same_except_refl |].
    destruct (getitem_is_dict _ _ _ Hget) as (m & Hp & _).
    unfold bind at 1, lift at 1.
    destruct (py_iter studied) as [|entries]; [apply same_except_refl |].
    unfold bind at 1, lift at 1.
    destruct (map_result _ entries) as [|topics]; [apply same_except_refl |].
    destruct (existsb (py_str_eq topic) topics); cbn [negb];
      [apply same_except_refl |].
    unfold bind at 1. unfold bind at 1. unfold lift at 1.
    destruct (py_append studied _) as [|studied']; [apply same_except_refl |].
    unfold bind at 1. rewrite (progress_setitem_dict _ _ _ m Hp).
    cbn. rewrite Hp. apply same_except_set.
Qed.

Lemma counters_ok_same_except (k : string) (p p' : json) :
  same_except k p p' ->
  k <> "total_questions" -> k <> "correct_answers" ->
  counters_ok p -> counters_ok p'.
Proof.
  intros Hsame Hk1 Hk2 (total & right & [Ht Hr] & Hle).
  exists total, right. split; [| assumption].
  split; rewrite Hsame; auto.
Qed.

Lemma explain_concept_counters
    (reply : string + string) (now topic : string) (st : state) :
  counters_ok (progress st) ->
  counters_ok (progress (snd (explain_concept reply now topic st))).
Proof.
  apply (counters_ok_same_except "topics_studied");
    [apply explain_concept_frame | discriminate | discriminate].
Qed.

Lemma record_score_counters (now : string) (score n : Z) (st : state) :
  counters_ok (progress st) ->
  0 <= score <= n ->
  counters_ok (progress (snd (record_score now score n st))).
Proof.
  intros Hok Hb. pose proof Hok as (total & right & [Ht Hr] & Hle).
  destruct (getitem_is_dict _ _ _ Ht) as (m & Hp & Et).
  destruct (getitem_is_dict _ _ _ Hr) as (m' & Hp' & Er).
  rewrite Hp in Hp'. injection Hp' as <-.
  rewrite (record_score_run st m total right now score n Hp Et Er).
  destruct (int_truediv score n) as [|ratio]; [exact Hok |].
  destruct (float_mul_int ratio 100) as [|accuracy]; [exact Hok |].
  destruct (dict_get "quiz_scores" m) as [scores|]; [| exact Hok].
  destruct (py_append scores _) as [|scores']; [exact Hok |].
  exists (total + n), (right + score).
  split; [apply scored_counters | lia].
Qed.

Lemma take_quiz_counters (now : string) (quiz_data : json) (st : state) :
  counters_ok (progress st) ->
  counters_ok (progress (snd (take_quiz now quiz_data st))).
Proof.
  intros Hok. unfold take_quiz. unfold bind at 1, lift at 1.
  destruct (py_iter quiz_data) as [|questions] eqn:Hiter; [exact Hok |].
  pose proof (ask_questions_frame questions 0 st) as (Hp & _ & Hs).
  unfold bind at 1.
  destruct (ask_questions questions 0 st) as [[e | score] st1];
    cbn [fst snd] in *; [now rewrite Hp |].
  specialize (Hs score eq_refl).
  unfold bind at 1, lift at 1. rewrite (py_len_iter _ _ Hiter).
  unfold bind at 1.
  pose proof (record_score_counters now score
                (Z.of_nat (List.length questions)) st1) as H.
  rewrite Hp in H. specialize (H Hok ltac:(lia)).
  destruct (record_score now score (Z.of_nat (List.length questions)) st1)
    as [[e | []] st2]; exact H.
Qed.

Lemma perform_counters (a : action) (st : state) :
  counters_ok (progress st) -> counters_ok (progress (snd (perform a st))).
Proof.
  intros Hok. destruct a as [reply now topic | now quiz_data]; cbn [perform].
  - pose proof (explain_concept_counters reply now topic st Hok) as H.
    unfold bind. destruct (explain_concept reply now topic st) as [[e | x] st'];
      exact H.
  - pose proof (take_quiz_counters now quiz_data st Hok) as H.
    unfold bind. destruct (take_quiz now quiz_data st) as [[e | x] st'];
      exact H.
Qed.

(** C5.  [correct_answers <= total_questions] holds of the empty record,
    and [explain_concept] and [take_quiz] keep it, whatever their
    arguments, whatever is typed, and whether they return or raise; so it
    holds after every sequence of explanations and quizzes that starts
    from the empty record. *)
Theorem counters_invariant :
  counters_ok default_progress /\
  (forall reply now topic st,
      counters_ok (progress st) ->
      counters_ok (progress (snd (explain_concept reply now topic st)))) /\
  (forall now quiz_data st,
      counters_ok (progress st) ->
      counters_ok (progress (snd (take_quiz now quiz_data st)))) /\
  (forall actions st,
      counters_ok (progress st) ->
      counters_ok (progress (perform_all actions st))).
Proof.
  split; [| split; [| split]].
  - exists 0, 0. repeat split. lia.
  - intros. now apply explain_concept_counters.
  - intros. now apply take_quiz_counters.
  - induction actions as [|a actions IH]; intros st Hok; [exact Hok |].
    cbn [perform_all]. pose proof (perform_counters a st Hok) as H.
    destruct (perform a st) as [[e | x] st']; [exact H | now apply IH].
Qed.

End QuizProperties.

(** ** Division by zero *)

Lemma nzd_ret {A} (a : A) (st : state) : no_zero_division (ret a) st.
Proof. discriminate. Qed.

Lemma nzd_lift {A} (r : result A) (st : state) :
  r <> inl ZeroDivisionError -> no_zero_division (lift r) st.
Proof. intros H. exact H. Qed.

Lemma nzd_bind {A B} (c : M A) (k : A -> M B) (st : state) :
  no_zero_division c st ->
  (forall a st', c st = (inr a, st') -> no_zero_division (k a) st') ->
  no_zero_division (bind c k) st.
Proof.
  unfold no_zero_division, bind. intros Hc Hk.
  destruct (c st) as [[e | a] st']; [| now apply Hk].
  cbn in *. intros [= ->]. now apply Hc.
Qed.

Lemma nzd_print (line : string) (st : state) : no_zero_division (print line) st.
Proof. discriminate. Qed.

Lemma nzd_input (st : state) : no_zero_division input st.
Proof. unfold no_zero_division, input. destruct (stdin st); discriminate. Qed.

Lemma py_getitem_nzd (x : json) (k : string) :
  py_getitem x k <> inl ZeroDivisionError.
Proof. destruct x; cbn; try discriminate. destruct (dict_get k m); discriminate. Qed.

Lemma py_setitem_nzd (x : json) (k : string) (v : json) :
  py_setitem x k v <> inl ZeroDivisionError.
Proof. destruct x; discriminate. Qed.

Lemma py_append_nzd (x v : json) : py_append x v <> inl ZeroDivisionError.
Proof. destruct x; discriminate. Qed.

Lemma py_iter_nzd (x : json) : py_iter x <> inl ZeroDivisionError.
Proof. destruct x; discriminate. Qed.

Lemma py_len_nzd (x : json) : py_len x <> inl ZeroDivisionError.
Proof. destruct x; discriminate. Qed.

Lemma float_of_int_nzd (z : Z) : float_of_int z <> inl ZeroDivisionError.
Proof. unfold float_of_int. destruct (is_finite _); discriminate. Qed.

Lemma float_mul_int_nzd (f : float) (z : Z) :
  float_mul_int f z <> inl ZeroDivisionError.
Proof.
  unfold float_mul_int, float_of_int. destruct (is_finite _); discriminate.
Qed.

Lemma py_add_int_nzd (x : json) (n : Z) : py_add_int x n <> inl ZeroDivisionError.
Proof.
  destruct x; cbn; try discriminate.
  unfold float_of_int. destruct (is_finite _); discriminate.
Qed.

Lemma int_truediv_nzd (a b : Z) :
  b <> 0 -> int_truediv a b <> inl ZeroDivisionError.
Proof.
  intros Hb. unfold int_truediv. apply Z.eqb_neq in Hb. rewrite Hb.
  destruct (is_finite _); discriminate.
Qed.

Lemma nzd_progress_getitem (k : string) (st : state) :
  no_zero_division (progress_getitem k) st.
Proof. apply py_getitem_nzd. Qed.

Lemma nzd_progress_setitem (k : string) (v : json) (st : state) :
  no_zero_division (progress_setitem k v) st.
Proof.
  unfold no_zero_division, progress_setitem, bind, get_progress, lift.
  pose proof (py_setitem_nzd (progress st) k v).
  destruct (py_setitem (progress st) k v); [| discriminate].
  cbn. intros [= ->]. now apply H.
Qed.

Lemma nzd_get_progress (st : state) : no_zero_division get_progress st.
Proof. discriminate. Qed.

Lemma nzd_write_progress_file (text : string) (st : state) :
  no_zero_division (write_progress_file text) st.
Proof. discriminate. Qed.

Create HintDb nzd.

#[local] Hint Resolve nzd_ret nzd_lift nzd_print nzd_input py_getitem_nzd
  py_append_nzd py_iter_nzd py_len_nzd float_of_int_nzd float_mul_int_nzd
  py_add_int_nzd int_truediv_nzd nzd_progress_getitem nzd_progress_setitem
  nzd_get_progress nzd_write_progress_file
  : nzd.

(** Go through a chain of [bind]s, leaving what the hints do not close. *)
Ltac nzd_chain :=
  repeat (apply nzd_bind; [auto with nzd | intros ? ? ?]); auto with nzd.

Lemma lift_inr {A} (r : result A) (st st' : state) (a : A) :
  lift r st = (inr a, st') -> r = inr a.
Proof. unfold lift. now intros [= ->]. Qed.

Lemma truthy_len (x : json) (n : Z) :
  py_truthy x = true -> py_len x = inr n -> n <> 0.
Proof.
  destruct x; cbn; try discriminate;
    intros Ht [= <-]; apply negb_true_iff, Z.eqb_neq in Ht; exact Ht.
Qed.

Section NoZeroDivision.

Context {codec : JsonCodec}.

Lemma nzd_ask_questions (questions : list json) (score : Z) (st : state) :
  no_zero_division (ask_questions questions score) st.
Proof.
  revert score st; induction questions as [|q questions IH]; intros score st;
    cbn [ask_questions]; [apply nzd_ret |].
  nzd_chain.
Qed.

Lemma nzd_record_score (now : string) (score n : Z) (st : state) :
  n <> 0 -> no_zero_division (record_score now score n) st.
Proof.
  intros Hn. unfold record_score. nzd_chain.
Qed.

Lemma nzd_take_quiz (now : string) (quiz_data : json) (st : state) :
  py_truthy quiz_data = true -> no_zero_division (take_quiz now quiz_data) st.
Proof.
  intros Ht. unfold take_quiz.
  apply nzd_bind; [auto with nzd | intros questions st1 _].
  apply nzd_bind; [apply nzd_ask_questions | intros score st2 _].
  apply nzd_bind; [auto with nzd | intros n st3 Hn].
  apply lift_inr in Hn.
  apply nzd_bind; [| intros; apply nzd_ret].
  apply nzd_record_score. now apply (truthy_len quiz_data).
Qed.

(** The total [take_quiz] returns is the length of the quiz. *)
Lemma take_quiz_total
    (now : string) (quiz_data : json) (st st' : state) (score total : Z) :
  take_quiz now quiz_data st = (inr (score, total), st') ->
  py_len quiz_data = inr total.
Proof.
  unfold take_quiz, bind, lift.
  destruct (py_iter quiz_data) as [|questions]; [discriminate |].
  destruct (ask_questions questions 0 st) as [[e | s] st1]; [discriminate |].
  destruct (py_len quiz_data) as [|n]; [discriminate |].
  destruct (record_score now s n st1) as [[e | []] st2]; [discriminate |].
  unfold ret. now intros [= _ -> _].
Qed.

Lemma extract_quiz_nzd (text : string) :
  (forall s, json_loads s <> inl ZeroDivisionError) ->
  extract_quiz text <> inl ZeroDivisionError.
Proof.
  intros Hdec. unfold extract_quiz.
  destruct (negb _ && negb _); [| discriminate].
  pose proof (Hdec (Py.slice text (Py.find "[" text) (Py.rfind "]" text + 1))) as H.
  destruct (json_loads _) as [e | quiz]; [| discriminate].
  destruct e; (discriminate || assumption).
Qed.

Lemma nzd_generate_quiz (reply : string + string) (topic : string) (st : state) :
  (forall s, json_loads s <> inl ZeroDivisionError) ->
  no_zero_division (generate_quiz reply topic) st.
Proof.
  intros Hdec. unfold generate_quiz. destruct reply as [error_msg | text].
  - repeat match goal with
           | |- context [if ?b then _ else _] => destruct b
           end; discriminate.
  - apply nzd_lift. now apply extract_quiz_nzd.
Qed.

(** C10.  [take_quiz] divides by the length of the quiz: on the empty
    list it raises [ZeroDivisionError], having changed nothing.  In the
    [quiz] branch of [chat] that does not happen: a quiz that is not
    truthy (the empty list for one) is not handed to [take_quiz], which is
    then not run at all; a truthy one has a length that is not 0, and
    neither [take_quiz] nor the score line after it divides by zero (the
    decoder being one that does not raise that exception itself). *)
Theorem quiz_division_is_guarded
    (reply : string + string) (now topic : string) (st : state) :
  (forall s, json_loads s <> inl ZeroDivisionError) ->
  take_quiz now (JArr []) st = (inl ZeroDivisionError, st) /\
  py_truthy (JArr []) = false /\
  (forall quiz_data n,
      py_truthy quiz_data = true -> py_len quiz_data = inr n -> n <> 0) /\
  (forall quiz_data st1,
      generate_quiz reply topic
        (snd (print (nl ++ "🤖 Agent: Generating quiz on " ++ topic ++ "..." ++ nl) st))
      = (inr quiz_data, st1) ->
      py_truthy quiz_data = false ->
      quiz_command reply now topic st
      = print "❌ Sorry, couldn't generate quiz. Try another topic!" st1) /\
  no_zero_division (quiz_command reply now topic) st.
Proof.
  intros Hdec. split; [reflexivity | split; [reflexivity |]].
  split; [exact truthy_len | split].
  - intros quiz_data st1 Hgen Hfalse.
    unfold quiz_command. unfold bind at 1. cbn [print snd] in *.
    unfold bind at 1. rewrite Hgen, Hfalse. reflexivity.
  - unfold quiz_command.
    apply nzd_bind; [apply nzd_print | intros [] st1 _].
    apply nzd_bind; [now apply nzd_generate_quiz | intros quiz_data st2 _].
    destruct (py_truthy quiz_data) eqn:Ht; [| apply nzd_print].
    apply nzd_bind; [now apply nzd_take_quiz | intros [score total] st3 Htq].
    apply take_quiz_total in Htq.
    pose proof (truthy_len _ _ Ht Htq).
    nzd_chain. destruct (score =? total); nzd_chain.
Qed.

End NoZeroDivision.

(** * Further properties *)

(** ** Floats: the accuracy of a quiz is finite *)

Lemma Zdigits2_mul (a b : Z) :
  0 <= a -> 0 <= b -> Zdigits2 (a * b) <= Zdigits2 a + Zdigits2 b.
Proof.
  intros Ha Hb.
  pose proof (Zdigits2_lower a Ha) as La. pose proof (Zdigits2_lower b Hb) as Lb.
  pose proof (Zdigits2_nonneg a) as Na. pose proof (Zdigits2_nonneg b) as Nb.
  apply Zdigits2_upper; [| lia].
  rewrite Z.pow_add_r by lia. nia.
Qed.

(** Rounding a mantissa that is not negative, of a value below
    [2^bound], gives a zero or a float below [2^(bound+1)]. *)
Lemma binary_round_aux_bounded (sx : bool) (mx ex : Z) (lx : location) (bound : Z) :
  0 <= mx ->
  Zdigits2 mx + ex <= bound ->
  ex <= bound - prec ->
  emin prec emax <= bound - prec ->
  bound <= 1023 ->
  match binary_round_aux prec emax sx mx ex lx with
  | S754_zero _ => True
  | S754_finite _ m e => Zdigits2 (Z.pos m) + e <= bound + 1 /\ e <= bound + 1 - prec
  | _ => False
  end.
Proof.
  intros Hm Hd He Hmin Hb. unfold binary_round_aux.
  pose proof (shr_fexp_bounds mx ex lx bound Hm Hd He Hmin) as H1.
  destruct (shr_fexp prec emax mx ex lx) as [mrs' e'].
  cbn [fst snd] in H1. destruct H1 as (H0 & He' & Hd').
  pose proof (round_nearest_even_bounds (shr_m mrs') (loc_of_shr_record mrs') H0)
    as [Hr0 Hrd].
  set (m1 := round_nearest_even (shr_m mrs') (loc_of_shr_record mrs')) in *.
  pose proof (shr_fexp_bounds m1 e' loc_Exact (bound + 1) Hr0) as H2.
  destruct (shr_fexp prec emax m1 e' loc_Exact) as [mrs'' e''].
  cbn [fst snd] in H2.
  destruct H2 as (H0' & He'' & Hd''); [unfold prec in *; lia .. |].
  destruct (shr_m mrs'') as [|p|p]; [exact I | | lia].
  replace (e'' <=? emax - prec) with true
    by (symmetry; apply Z.leb_le; unfold prec, emax in *; lia).
  unfold prec in *. lia.
Qed.

Lemma fdiv_le_one_bounded (a b : positive) :
  (a <= b)%positive ->
  match fdiv (S754_finite false a 0) (S754_finite false b 0) with
  | S754_zero _ => True
  | S754_finite _ m e => Zdigits2 (Z.pos m) + e <= 54 /\ e <= 1
  | _ => False
  end.
Proof.
  intros Hab. unfold fdiv, SFdiv, SFdiv_core_binary.
  set (e' := Z.min (fexp prec emax (Zdigits2 (Z.pos a) + 0 - (Zdigits2 (Z.pos b) + 0)))
                   (0 - 0)).
  set (s := 0 - 0 - e').
  assert (e' <= 0) as He' by (unfold e'; lia).
  set (m' := match s with
             | 0 => Z.pos a
             | Z.pos _ => Z.shiftl (Z.pos a) s
             | Z.neg _ => 0
             end).
  assert (m' = Z.pos a * 2 ^ s) as Hm'.
  { unfold m'. destruct s as [|p|p] eqn:Es.
    - rewrite Z.pow_0_r. lia.
    - apply Z.shiftl_mul_pow2. lia.
    - unfold s in Es. lia. }
  pose proof (Z_div_mod m' (Z.pos b) eq_refl) as Hdiv.
  destruct (Z.div_eucl m' (Z.pos b)) as [q r].
  destruct Hdiv as [Hq Hr].
  assert (0 < 2 ^ s) as Hpow by (apply Z.pow_pos_nonneg; unfold s; lia).
  assert (0 <= q) as Hq0 by nia.
  assert (q <= 2 ^ s) as Hqs.
  { apply Pos2Z.pos_le_pos in Hab. nia. }
  assert (Zdigits2 q <= s + 1) as Hdq.
  { apply Zdigits2_upper; [| unfold s; lia].
    rewrite Z.pow_add_r, Z.pow_1_r by (unfold s; lia). lia. }
  apply (binary_round_aux_bounded _ q e' _ 53);
    unfold prec, emin, emax; unfold s in *; lia.
Qed.

(** [score / n * 100] is a finite float for [0 <= score <= n], [n] not 0. *)
Lemma percentage_finite (score n : Z) :
  0 <= score <= n -> 0 < n -> is_finite (percentage score n) = true.
Proof.
  intros [H0 Hle] Hn. destruct n as [|b|b]; try lia.
  destruct score as [|a|a]; try lia; [reflexivity |].
  unfold percentage. cbn [exact_int].
  pose proof (fdiv_le_one_bounded a b ltac:(lia)) as H.
  destruct (fdiv (S754_finite false a 0) (S754_finite false b 0))
    as [s | s | | s m e]; try contradiction; [reflexivity |].
  destruct H as [Hd He].
  unfold fmul, SFmul, hundred.
  pose proof (Zdigits2_mul (Z.pos m) 7036874417766400 ltac:(lia) ltac:(lia)) as Hmul.
  change (Zdigits2 7036874417766400) with 53 in Hmul.
  apply binary_round_aux_finite; [lia | | lia].
  rewrite Pos2Z.inj_mul. lia.
Qed.

(** ** Normal forms of strings: [strip], [lower], [upper] *)

Lemma is_space_lower_char (c : ascii) :
  Py.is_space (Py.lower_char c) = Py.is_space c.
Proof. destruct c as [[] [] [] [] [] [] [] []]; reflexivity. Qed.

Lemma is_space_upper_char (c : ascii) :
  Py.is_space (Py.upper_char c) = Py.is_space c.
Proof. destruct c as [[] [] [] [] [] [] [] []]; reflexivity. Qed.

Lemma lower_char_idem (c : ascii) :
  Py.lower_char (Py.lower_char c) = Py.lower_char c.
Proof. destruct c as [[] [] [] [] [] [] [] []]; reflexivity. Qed.

Lemma upper_char_idem (c : ascii) :
  Py.upper_char (Py.upper_char c) = Py.upper_char c.
Proof. destruct c as [[] [] [] [] [] [] [] []]; reflexivity. Qed.

Lemma map_chars_idem (f : ascii -> ascii) (s : string) :
  (forall c, f (f c) = f c) ->
  Py.map_chars f (Py.map_chars f s) = Py.map_chars f s.
Proof.
  intros Hf. induction s as [|c s IH]; cbn; [reflexivity | now rewrite Hf, IH].
Qed.

Lemma lstrip_map (f : ascii -> ascii) (s : string) :
  (forall c, Py.is_space (f c) = Py.is_space c) ->
  Py.lstrip (Py.map_chars f s) = Py.map_chars f (Py.lstrip s).
Proof.
  intros Hf. induction s as [|c s IH]; cbn; [reflexivity |].
  rewrite Hf. destruct (Py.is_space c); [exact IH | reflexivity].
Qed.

Lemma rstrip_map (f : ascii -> ascii) (s : string) :
  (forall c, Py.is_space (f c) = Py.is_space c) ->
  Py.rstrip (Py.map_chars f s) = Py.map_chars f (Py.rstrip s).
Proof.
  intros Hf. induction s as [|c s IH]; cbn; [reflexivity |].
  rewrite IH, Hf.
  destruct (Py.rstrip s); cbn; [destruct (Py.is_space c) |]; reflexivity.
Qed.

Lemma strip_map (f : ascii -> ascii) (s : string) :
  (forall c, Py.is_space (f c) = Py.is_space c) ->
  Py.strip (Py.map_chars f s) = Py.map_chars f (Py.strip s).
Proof.
  intros Hf. unfold Py.strip. now rewrite lstrip_map, rstrip_map.
Qed.

Lemma rstrip_idem (s : string) : Py.rstrip (Py.rstrip s) = Py.rstrip s.
Proof.
  induction s as [|c s IH]; [reflexivity |]. cbn [Py.rstrip].
  destruct (Py.rstrip s) as [|d r] eqn:E.
  - destruct (Py.is_space c) eqn:Ec; cbn; [reflexivity | now rewrite Ec].
  - cbn [Py.rstrip] in *. now rewrite IH.
Qed.

Lemma lstrip_starts_clean (s : string) : starts_clean (Py.lstrip s).
Proof.
  induction s as [|c s IH]; cbn; [exact I |].
  destruct (Py.is_space c) eqn:E; [exact IH | exact E].
Qed.

Lemma lstrip_of_clean (s : string) : starts_clean s -> Py.lstrip s = s.
Proof. destruct s as [|c s]; cbn; [reflexivity | now intros ->]. Qed.

Lemma rstrip_starts_clean (s : string) :
  starts_clean s -> starts_clean (Py.rstrip s).
Proof.
  destruct s as [|c s]; cbn; [trivial |]. intros Hc.
  destruct (Py.rstrip s); [now rewrite Hc | exact Hc].
Qed.

Lemma strip_idem (s : string) : Py.strip (Py.strip s) = Py.strip s.
Proof.
  unfold Py.strip.
  rewrite (lstrip_of_clean (Py.rstrip (Py.lstrip s)))
    by apply rstrip_starts_clean, lstrip_starts_clean.
  apply rstrip_idem.
Qed.

Lemma lower_strip_normal (s : string) :
  Py.lower (Py.strip (Py.lower (Py.strip s))) = Py.lower (Py.strip s).
Proof.
  unfold Py.lower.
  rewrite (strip_map Py.lower_char) by apply is_space_lower_char.
  rewrite strip_idem. apply map_chars_idem, lower_char_idem.
Qed.

Lemma upper_strip_normal (s : string) :
  Py.upper (Py.strip (Py.upper (Py.strip s))) = Py.upper (Py.strip s).
Proof.
  unfold Py.upper.
  rewrite (strip_map Py.upper_char) by apply is_space_upper_char.
  rewrite strip_idem. apply map_chars_idem, upper_char_idem.
Qed.

(** X1.  The command router reads a line up to case and to the white
    space around it: a line and its stripped, lower-case form are the same
    command with the same topic. *)
Theorem parse_command_normalises (line : string) :
  parse_command (Py.lower (Py.strip line)) = parse_command line.
Proof. unfold parse_command. now rewrite lower_strip_normal. Qed.

(** ** The topic the router hands over *)

Lemma append_empty_r (a : string) : a ++ EmptyString = a.
Proof. induction a as [|x a IH]; cbn; [reflexivity | now rewrite IH]. Qed.

Lemma last_char_cons (c : ascii) (s : string) :
  last_char (String c s) = match s with
                           | EmptyString => Some c
                           | String _ _ => last_char s
                           end.
Proof. reflexivity. Qed.

Lemma last_char_none (s : string) : last_char s = None -> s = EmptyString.
Proof.
  induction s as [|c s IH]; [reflexivity |]. rewrite last_char_cons.
  destruct s; [discriminate |]. intros H. now apply IH in H.
Qed.

Lemma last_char_map (f : ascii -> ascii) (s : string) :
  last_char (Py.map_chars f s) = option_map f (last_char s).
Proof.
  induction s as [|c s IH]; [reflexivity |].
  cbn [Py.map_chars]. rewrite !last_char_cons.
  destruct s; [reflexivity | exact IH].
Qed.

Lemma last_char_app (a : string) (c : ascii) (b : string) :
  last_char (a ++ String c b) = last_char (String c b).
Proof.
  induction a as [|x a IH]; [reflexivity |].
  cbn [append]. rewrite last_char_cons.
  destruct (a ++ String c b) eqn:E; [| exact IH].
  destruct a; discriminate.
Qed.

(** What [rstrip] leaves does not end with white space. *)
Lemma last_char_rstrip (s : string) (c : ascii) :
  last_char (Py.rstrip s) = Some c -> Py.is_space c = false.
Proof.
  revert c; induction s as [|x s IH]; intros c; [discriminate |].
  cbn [Py.rstrip]. destruct (Py.rstrip s) as [|d r] eqn:E.
  - destruct (Py.is_space x) eqn:Ex; [discriminate |].
    cbn. now intros [= <-].
  - rewrite last_char_cons. apply IH.
Qed.

(** A string that ends with a character that is no white space keeps its
    end when stripped. *)
Lemma last_char_lstrip (s : string) (c : ascii) :
  last_char s = Some c -> Py.is_space c = false ->
  last_char (Py.lstrip s) = Some c.
Proof.
  intros Hl Hc. induction s as [|x s IH]; [discriminate |].
  cbn [Py.lstrip]. destruct (Py.is_space x) eqn:Ex; [| exact Hl].
  rewrite last_char_cons in Hl. destruct s; [| now apply IH].
  injection Hl as ->. congruence.
Qed.

Lemma rstrip_of_clean_end (s : string) (c : ascii) :
  last_char s = Some c -> Py.is_space c = false -> Py.rstrip s = s.
Proof.
  intros Hl Hc. induction s as [|x s IH]; [reflexivity |].
  cbn [Py.rstrip]. rewrite last_char_cons in Hl. destruct s as [|y s].
  - injection Hl as ->. cbn. now rewrite Hc.
  - rewrite (IH Hl). reflexivity.
Qed.

Lemma last_char_strip (s : string) (c : ascii) :
  last_char s = Some c -> Py.is_space c = false ->
  last_char (Py.strip s) = Some c.
Proof.
  intros Hl Hc. unfold Py.strip.
  pose proof (last_char_lstrip s c Hl Hc) as H.
  now rewrite (rstrip_of_clean_end _ c H Hc).
Qed.

Lemma startswith_length (p s : string) :
  Py.startswith p s = true -> (String.length p <= String.length s)%nat.
Proof.
  intros H. apply startswith_iff in H as [post ->].
  rewrite append_length. lia.
Qed.

(** Removing the occurrences of a word that ends with [d] keeps the last
    character of a text that ends otherwise. *)
Lemma last_char_replace (old s : string) (c d : ascii) (k : nat) :
  last_char old = Some d -> c <> d ->
  last_char s = Some c ->
  (k < String.length s)%nat ->
  last_char (Py.replace_from k old EmptyString s) = Some c.
Proof.
  intros Hold Hcd. revert k; induction s as [|x s IH]; intros k Hl Hk;
    [discriminate |].
  rewrite last_char_cons in Hl. cbn [String.length] in Hk.
  destruct k as [|k]; cbn [Py.replace_from].
  - destruct (Py.startswith old (String x s)) eqn:Es.
    + cbn [append].
      apply startswith_iff in Es as [post Hpost].
      assert (post <> EmptyString) as Hne.
      { intros ->. rewrite append_empty_r in Hpost.
        rewrite <- Hpost, last_char_cons in Hold.
        destruct s; congruence. }
      assert (String.length old < String.length (String x s))%nat as Hlen.
      { rewrite Hpost, append_length. destruct post; [contradiction | cbn; lia]. }
      assert (0 < String.length old)%nat
        by (destruct old; [discriminate | cbn; lia]).
      cbn [String.length] in Hlen.
      destruct s as [|y s]; [cbn in Hlen; lia |].
      apply IH; [exact Hl | lia].
    + destruct s as [|y s]; [exact Hl |].
      rewrite last_char_cons.
      pose proof (IH O Hl ltac:(cbn; lia)) as H.
      destruct (Py.replace_from 0 old EmptyString (String y s));
        [discriminate | exact H].
  - destruct s as [|y s]; [cbn in Hk; lia |].
    apply IH; [exact Hl | lia].
Qed.

Lemma map_chars_replace (f : ascii -> ascii) (old s : string) (k : nat) :
  Py.map_chars f s = s ->
  Py.map_chars f (Py.replace_from k old EmptyString s)
  = Py.replace_from k old EmptyString s.
Proof.
  revert k; induction s as [|x s IH]; intros k H; [reflexivity |].
  cbn [Py.map_chars] in H. injection H as Hx Hs.
  destruct k as [|k]; cbn [Py.replace_from]; [| now apply IH].
  destruct (Py.startswith old (String x s)); cbn [append Py.map_chars];
    [now apply IH | now rewrite Hx, IH].
Qed.

(** The topic cut out of a stripped, lower-case line. *)
Lemma topic_normal (word line : string) :
  last_char word = Some " "%char ->
  Py.startswith word (Py.lower (Py.strip line)) = true ->
  let topic :=
    Py.strip (Py.replace word EmptyString (Py.lower (Py.strip line))) in
  topic <> EmptyString /\ Py.strip topic = topic /\ Py.lower topic = topic.
Proof.
  intros Hword Hstart topic.
  set (u := Py.lower (Py.strip line)) in *.
  assert (word <> EmptyString) as Hne by (intros ->; discriminate).
  assert (exists c, last_char u = Some c /\ Py.is_space c = false) as (c & Hl & Hc).
  { destruct (last_char u) as [c|] eqn:E.
    - exists c. split; [reflexivity |].
      unfold u, Py.lower in E. rewrite last_char_map in E.
      destruct (last_char (Py.strip line)) as [c0|] eqn:E0; [| discriminate].
      injection E as <-. rewrite is_space_lower_char.
      now apply (last_char_rstrip (Py.lstrip line)).
    - apply last_char_none in E. rewrite E in Hstart.
      destruct word; [contradiction | discriminate]. }
  assert (last_char (Py.replace word EmptyString u) = Some c) as Hr.
  { unfold Py.replace. destruct word as [|w0 word']; [contradiction |].
    apply (last_char_replace _ _ c " "%char); try assumption.
    - intros ->. discriminate.
    - apply startswith_length in Hstart. cbn in *. lia. }
  repeat split.
  - unfold topic. intros H.
    pose proof (last_char_strip _ c Hr Hc) as H'. now rewrite H in H'.
  - apply strip_idem.
  - unfold topic, Py.lower.
    rewrite <- (strip_map Py.lower_char) by apply is_space_lower_char.
    f_equal. unfold Py.replace. destruct word as [|w0 word']; [contradiction |].
    apply map_chars_replace. apply map_chars_idem, lower_char_idem.
Qed.

(** X2.  The topic of an [explain] or [quiz] command is never empty, has
    no white space around it and no capital in it, whatever the line
    typed. *)
Theorem topic_is_clean (line topic : string) :
  parse_command line = Explain topic \/ parse_command line = Quiz topic ->
  topic <> EmptyString /\ Py.strip topic = topic /\ Py.lower topic = topic.
Proof.
  unfold parse_command.
  destruct (String.eqb (Py.lower (Py.strip line)) "quit");
    [intros [H | H]; discriminate |].
  destruct (String.eqb (Py.lower (Py.strip line)) "help");
    [intros [H | H]; discriminate |].
  destruct (Py.startswith "explain " (Py.lower (Py.strip line))) eqn:Ee.
  - intros [[= <-] | H]; [| discriminate].
    exact (topic_normal "explain " line eq_refl Ee).
  - destruct (Py.startswith "quiz " (Py.lower (Py.strip line))) eqn:Eq.
    + intros [H | [= <-]]; [discriminate |].
      exact (topic_normal "quiz " line eq_refl Eq).
    + destruct (String.eqb (Py.lower (Py.strip line)) "progress");
        intros [H | H]; discriminate.
Qed.

(** ** A command word that comes again in the line *)

Lemma startswith_app_cases (p a r : string) :
  Py.startswith p (a ++ r) = true ->
  Py.startswith p a = true \/
  exists q, p = a ++ q /\ q <> EmptyString /\ Py.startswith q r = true.
Proof.
  revert a; induction p as [|c p IH]; intros a H; [now left |].
  destruct a as [|x a].
  - right. exists (String c p). repeat split; [discriminate | exact H].
  - cbn in H. apply andb_true_iff in H as [Hc Hp].
    destruct (IH a Hp) as [Hl | (q & -> & Hq & Hs)].
    + left. cbn. now rewrite Hc, Hl.
    + right. exists q. apply Ascii.eqb_eq in Hc. subst x. now repeat split.
Qed.

(** A word whose first character does not come again in it does not
    begin across the seam between a text and the word itself. *)
Lemma no_straddle (e : ascii) (w a r : string) :
  Py.contains (String e EmptyString) w = false ->
  a <> EmptyString ->
  Py.startswith (String e w) a = false ->
  Py.startswith (String e w) (a ++ String e w ++ r) = false.
Proof.
  intros Hw Ha Hs.
  destruct (Py.startswith (String e w) (a ++ String e w ++ r)) eqn:E;
    [| reflexivity].
  apply startswith_app_cases in E as [E | (q & Hq & Hne & E)]; [congruence |].
  destruct a as [|x a]; [contradiction |].
  injection Hq as -> ->.
  destruct q as [|c q]; [contradiction |].
  cbn in E. apply andb_true_iff in E as [Ec _].
  apply Ascii.eqb_eq in Ec. subst c.
  assert (Py.contains (String x EmptyString) (a ++ String x q) = true) as Hc
      by (apply contains_iff; now exists a, q).
  congruence.
Qed.

Lemma replace_second (e : ascii) (w a b : string) :
  Py.contains (String e EmptyString) w = false ->
  Py.contains (String e w) a = false ->
  Py.replace_from O (String e w) EmptyString (a ++ String e w ++ b)
  = a ++ Py.replace_from O (String e w) EmptyString b.
Proof.
  intros Hw. induction a as [|x a IH]; intros Ha.
  - cbn [append Py.replace_from].
    replace (Py.startswith (String e w) (String e (w ++ b))) with true
      by (symmetry; apply startswith_iff; now exists b).
    replace (String.length (String e w) - 1)%nat with (String.length w)
      by (cbn [String.length]; lia).
    apply replace_from_skip.
  - cbn [Py.contains] in Ha. apply orb_false_iff in Ha as [Hhere Hlater].
    pose proof (no_straddle e w (String x a) b Hw ltac:(discriminate) Hhere) as H.
    cbn [append] in *. cbn [Py.replace_from]. rewrite H.
    now rewrite (IH Hlater).
Qed.

Lemma replace_head (c : ascii) (word rest : string) :
  Py.replace (String c word) EmptyString (String c word ++ rest)
  = Py.replace_from O (String c word) EmptyString rest.
Proof.
  unfold Py.replace. cbn [append Py.replace_from].
  replace (Py.startswith (String c word) (String c (word ++ rest))) with true
    by (symmetry; apply startswith_iff; now exists rest).
  replace (String.length (String c word) - 1)%nat with (String.length word)
    by (cbn [String.length]; lia).
  rewrite replace_from_skip. reflexivity.
Qed.

Lemma contains_false_of_absent (sub s : string) :
  ~ occurs sub s -> Py.contains sub s = false.
Proof.
  intros H. destruct (Py.contains sub s) eqn:E; [| reflexivity].
  now apply contains_iff in E.
Qed.

(** X3.  The router removes the command word wherever it comes in the
    line, not only at its head: when the stripped, lower-case line is the
    word, a text, the word again and a second text, the two texts free of
    the word, the topic handed over is the two texts joined, stripped
    ("explain how to explain things" gives "how to things"). *)
Theorem command_word_removed_twice (line a b : string) :
  (Py.lower (Py.strip line) = "explain " ++ a ++ "explain " ++ b ->
   ~ occurs "explain " a -> ~ occurs "explain " b ->
   parse_command line = Explain (Py.strip (a ++ b))) /\
  (Py.lower (Py.strip line) = "quiz " ++ a ++ "quiz " ++ b ->
   ~ occurs "quiz " a -> ~ occurs "quiz " b ->
   parse_command line = Quiz (Py.strip (a ++ b))).
Proof.
  split; intros Hline Ha Hb; apply contains_false_of_absent in Ha, Hb;
    unfold parse_command; rewrite Hline;
    rewrite replace_head, replace_second, replace_from_absent
      by (assumption || reflexivity);
    reflexivity.
Qed.

(** ** What the operations leave alone *)

Lemma preserves_ret {A} (R : state -> state -> Prop) (a : A) :
  (forall st, R st st) -> preserves R (ret a).
Proof. intros Hr st. apply Hr. Qed.

Lemma preserves_lift {A} (R : state -> state -> Prop) (r : result A) :
  (forall st, R st st) -> preserves R (lift r).
Proof. intros Hr st. apply Hr. Qed.

Lemma preserves_bind {A B} (R : state -> state -> Prop)
    (c : M A) (k : A -> M B) :
  (forall st1 st2 st3, R st1 st2 -> R st2 st3 -> R st1 st3) ->
  preserves R c -> (forall a, preserves R (k a)) -> preserves R (bind c k).
Proof.
  intros Ht Hc Hk st. unfold bind. specialize (Hc st).
  destruct (c st) as [[e | a] st1]; cbn [snd] in *; [exact Hc |].
  exact (Ht _ _ _ Hc (Hk a st1)).
Qed.

Lemma same_record_refl (st : state) : same_record st st.
Proof. now split. Qed.

Lemma same_record_trans (st1 st2 st3 : state) :
  same_record st1 st2 -> same_record st2 st3 -> same_record st1 st3.
Proof. intros [H1 H2] [H3 H4]. split; congruence. Qed.

Lemma same_at_refl (k : string) (st : state) : same_at k st st.
Proof. reflexivity. Qed.

Lemma same_at_trans (k : string) (st1 st2 st3 : state) :
  same_at k st1 st2 -> same_at k st2 st3 -> same_at k st1 st3.
Proof. unfold same_at. congruence. Qed.

Lemma same_record_at (k : string) (st st' : state) :
  same_record st st' -> same_at k st st'.
Proof. intros [H _]. unfold same_at. now rewrite H. Qed.

Lemma preserves_input : preserves same_record input.
Proof. intros st. unfold input. destruct (stdin st); now split. Qed.

Lemma preserves_print (line : string) : preserves same_record (print line).
Proof. intros st. now split. Qed.

Lemma preserves_progress_getitem (R : state -> state -> Prop) (k : string) :
  (forall st, R st st) -> preserves R (progress_getitem k).
Proof. intros Hr st. apply Hr. Qed.

Lemma progress_setitem_other (k k' : string) (v : json) :
  k' <> k -> preserves (same_at k') (progress_setitem k v).
Proof.
  intros Hne st. unfold same_at, progress_setitem, bind, get_progress, lift.
  destruct (progress st) as [| | | | | |m] eqn:Hp; cbn; rewrite ?Hp; try reflexivity.
  now rewrite dict_get_set_other.
Qed.

Section Frames.

Context {codec : JsonCodec}.

Lemma preserves_save_at (k : string) : preserves (same_at k) save_progress.
Proof. intros st. reflexivity. Qed.

Lemma preserves_ask_questions (questions : list json) (score : Z) :
  preserves same_record (ask_questions questions score).
Proof.
  intros st. destruct (ask_questions_frame questions score st) as (H1 & H2 & _).
  now split.
Qed.

Lemma preserves_generate_quiz (reply : string + string) (topic : string) :
  preserves same_record (generate_quiz reply topic).
Proof.
  intros st. unfold generate_quiz. destruct reply as [error_msg | text].
  - repeat match goal with
           | |- context [if ?b then _ else _] => destruct b
           end; now split.
  - now split.
Qed.

Lemma record_score_keeps (k : string) (now : string) (score n : Z) :
  k <> "quiz_scores" -> k <> "total_questions" -> k <> "correct_answers" ->
  preserves (same_at k) (record_score now score n).
Proof.
  intros H1 H2 H3. unfold record_score.
  repeat lazymatch goal with
         | |- preserves _ (bind _ _) =>
             apply preserves_bind; [apply same_at_trans | | intros ?]
         | |- preserves _ (lift _) => apply preserves_lift, same_at_refl
         | |- preserves _ (progress_getitem _) =>
             apply preserves_progress_getitem, same_at_refl
         | |- preserves _ (progress_setitem _ _) =>
             now apply progress_setitem_other
         | |- preserves _ save_progress => apply preserves_save_at
         end.
Qed.

Lemma take_quiz_keeps (k : string) (now : string) (quiz_data : json) :
  k <> "quiz_scores" -> k <> "total_questions" -> k <> "correct_answers" ->
  preserves (same_at k) (take_quiz now quiz_data).
Proof.
  intros H1 H2 H3. unfold take_quiz.
  apply preserves_bind; [apply same_at_trans | apply preserves_lift, same_at_refl |].
  intros questions.
  apply preserves_bind; [apply same_at_trans | |].
  { intros st. apply same_record_at, preserves_ask_questions. }
  intros score.
  apply preserves_bind; [apply same_at_trans | apply preserves_lift, same_at_refl |].
  intros n.
  apply preserves_bind; [apply same_at_trans | now apply record_score_keeps |].
  intros []. apply preserves_ret, same_at_refl.
Qed.

End Frames.

(** ** How [explain_concept] and [take_quiz] end *)

Lemma with_stdin_same (st : state) : with_stdin (stdin st) st = st.
Proof. now destruct st. Qed.

Section Outcomes.

Context {codec : JsonCodec}.

Lemma persisted_same_record (st st' : state) :
  same_record st st' -> persisted st -> persisted st'.
Proof. intros [H1 H2] Hp. unfold persisted in *. now rewrite H1, H2. Qed.

(** [explain_concept] either leaves record and file as they are, or
    returns after it has put a new list under [topics_studied] and saved
    the record. *)
Lemma explain_concept_outcome
    (reply : string + string) (now topic : string) (st st' : state)
    (r : result string) :
  explain_concept reply now topic st = (r, st') ->
  same_record st st' \/ ((exists explanation, r = inr explanation) /\ persisted st').
Proof.
  unfold explain_concept. destruct reply as [error_msg | explanation].
  - repeat match goal with
           | |- context [if ?b then _ else _] => destruct b
           end; intros [= <- <-]; left; apply same_record_refl.
  - unfold bind at 1. rewrite progress_getitem_eq.
    destruct (py_getitem (progress st) "topics_studied") as [|studied] eqn:Hget;
      [intros [= <- <-]; left; apply same_record_refl |].
    destruct (getitem_is_dict _ _ _ Hget) as (m & Hp & _).
    unfold bind at 1, lift at 1.
    destruct (py_iter studied) as [|entries];
      [intros [= <- <-]; left; apply same_record_refl |].
    unfold bind at 1, lift at 1.
    destruct (map_result _ entries) as [|topics];
      [intros [= <- <-]; left; apply same_record_refl |].
    destruct (existsb (py_str_eq topic) topics); cbn [negb];
      [intros [= <- <-]; left; apply same_record_refl |].
    unfold bind at 1. unfold bind at 1. unfold lift at 1.
    destruct (py_append studied _) as [|studied'];
      [intros [= <- <-]; left; apply same_record_refl |].
    unfold bind at 1. rewrite (progress_setitem_dict _ _ _ m Hp).
    intros [= <- <-]. right. split; [now exists explanation | reflexivity].
Qed.

(** [take_quiz] on a record with its integer counters either raises and
    leaves record and file as they are, or returns a score of [n]
    questions, [n] not 0 and the score at most [n], with the entry
    appended, the counters raised and the record saved. *)
Lemma take_quiz_outcome
    (now : string) (quiz_data : json) (st st' : state) (r : result (Z * Z))
    (m : dict) (total right : Z) :
  progress st = JObj m ->
  dict_get "total_questions" m = Some (JInt total) ->
  dict_get "correct_answers" m = Some (JInt right) ->
  take_quiz now quiz_data st = (r, st') ->
  ((exists e, r = inl e) /\ same_record st st')
  \/
  (exists score n accuracy scores scores',
      r = inr (score, n) /\
      0 <= score <= n /\ 0 < n /\
      accuracy = percentage score n /\
      dict_get "quiz_scores" m = Some scores /\
      py_append scores (score_entry now score n accuracy) = inr scores' /\
      progress st'
      = JObj (dict_set "correct_answers" (JInt (right + score))
                (dict_set "total_questions" (JInt (total + n))
                   (dict_set "quiz_scores" scores' m))) /\
      persisted st').
Proof.
  intros Hp Ht Hr. unfold take_quiz. unfold bind at 1, lift at 1.
  destruct (py_iter quiz_data) as [|questions] eqn:Hiter;
    [intros [= <- <-]; left; split; [eexists; reflexivity | apply same_record_refl] |].
  pose proof (ask_questions_frame questions 0 st) as (Hq1 & Hq2 & Hq3).
  unfold bind at 1.
  destruct (ask_questions questions 0 st) as [[e | score] st1];
    cbn [fst snd] in *;
    [intros [= <- <-]; left; split; [eexists; reflexivity | now split] |].
  specialize (Hq3 score eq_refl).
  unfold bind at 1, lift at 1. rewrite (py_len_iter _ _ Hiter).
  set (n := Z.of_nat (List.length questions)) in *.
  unfold bind at 1.
  rewrite (record_score_run st1 m total right now score n)
    by (assumption || congruence).
  destruct (int_truediv score n) as [|ratio] eqn:Ediv;
    [intros [= <- <-]; left; split; [eexists; reflexivity | now split] |].
  destruct (float_mul_int ratio 100) as [|accuracy] eqn:Emul;
    [intros [= <- <-]; left; split; [eexists; reflexivity | now split] |].
  destruct (dict_get "quiz_scores" m) as [scores|];
    [| intros [= <- <-]; left; split; [eexists; reflexivity | now split]].
  destruct (py_append scores (score_entry now score n accuracy)) as [|scores'] eqn:Ea;
    [intros [= <- <-]; left; split; [eexists; reflexivity | now split] |].
  intros [= <- <-].
  right. exists score, n, accuracy, scores, scores'.
  assert (n <> 0) as Hn.
  { intros Hz. unfold int_truediv in Ediv. rewrite Hz in Ediv. discriminate. }
  repeat split; try (reflexivity || assumption || lia).
  rewrite int_truediv_ok in Ediv by lia. injection Ediv as <-.
  rewrite float_mul_int_100 in Emul. now injection Emul as <-.
Qed.

Lemma counters_dict (p : json) (total right : Z) :
  has_counters p total right ->
  exists m, p = JObj m /\
            dict_get "total_questions" m = Some (JInt total) /\
            dict_get "correct_answers" m = Some (JInt right).
Proof.
  intros [Ht Hr].
  destruct (getitem_is_dict _ _ _ Ht) as (m & Hp & Et).
  destruct (getitem_is_dict _ _ _ Hr) as (m' & Hp' & Er).
  rewrite Hp in Hp'. injection Hp' as <-. now exists m.
Qed.

Lemma perform_outcome (a : action) (st : state) :
  counters_ok (progress st) ->
  same_record st (snd (perform a st)) \/ persisted (snd (perform a st)).
Proof.
  intros (total & right & Hc & _).
  destruct a as [reply now topic | now quiz_data]; cbn [perform]; unfold bind.
  - destruct (explain_concept reply now topic st) as [r st'] eqn:E.
    destruct (explain_concept_outcome _ _ _ _ _ _ E) as [H | [_ H]];
      destruct r; cbn [snd]; auto.
  - destruct (counters_dict _ _ _ Hc) as (m & Hp & Et & Er).
    destruct (take_quiz now quiz_data st) as [r st'] eqn:E.
    destruct (take_quiz_outcome _ _ _ _ _ m total right Hp Et Er E)
      as [[_ H] | (score & n & acc & scores & scores' & _ & _ & _ & _ & _ & _ & _ & H)];
      destruct r; cbn [snd]; auto.
Qed.

(** X5.  Nothing is batched: after a session of explanations and quizzes
    that all return, on a record whose counters are integers, the right
    answers no more than the questions, either record and file are still
    the ones the session began with, or the file holds the record as it
    is now. *)
Theorem session_is_persisted (actions : list action) (st : state) :
  counters_ok (progress st) ->
  completes actions st ->
  same_record st (perform_all actions st) \/
  persisted (perform_all actions st).
Proof.
  revert st; induction actions as [|a actions IH]; intros st Hok Hall;
    [left; apply same_record_refl |].
  cbn [perform_all completes] in *.
  pose proof (perform_counters a st Hok) as Hok'.
  pose proof (perform_outcome a st Hok) as Hout.
  destruct (perform a st) as [[e | x] st1]; cbn [snd] in *; [contradiction |].
  destruct (IH st1 Hok' Hall) as [Hsame | Hpers]; [| now right].
  destruct Hout as [Hsame1 | Hpers1].
  - left. exact (same_record_trans _ _ _ Hsame1 Hsame).
  - right. exact (persisted_same_record _ _ Hsame Hpers1).
Qed.

End Outcomes.

(** ** Invariants of a session *)

Lemma tally_bounds (scores : list json) (total right : Z) :
  tally scores total right ->
  0 <= right <= total /\
  Z.of_nat (List.length scores) <= total /\
  (scores <> [] -> 0 < total).
Proof.
  induction 1 as [|scores total right e score n _ (IH1 & IH2 & IH3) _ Hs Hn].
  - repeat split; cbn; try lia. intros H. now elim H.
  - rewrite length_app. cbn [List.length]. repeat split; lia.
Qed.

Lemma score_entry_record (now : string) (score n : Z) (accuracy : float) :
  is_finite accuracy = true ->
  score_record (score_entry now score n accuracy) score n.
Proof. intros H. repeat split. now exists accuracy. Qed.

Section Invariants.

Context {codec : JsonCodec}.

Lemma explain_concept_same_at
    (k : string) (reply : string + string) (now topic : string) :
  k <> "topics_studied" ->
  preserves (same_at k) (explain_concept reply now topic).
Proof. intros Hk st. now apply explain_concept_frame. Qed.

Lemma take_quiz_tallied (now : string) (quiz_data : json) (st : state) :
  tallied (progress st) -> tallied (progress (snd (take_quiz now quiz_data st))).
Proof.
  intros (scores & total & right & Hs & Hc & Ht).
  destruct (counters_dict _ _ _ Hc) as (m & Hp & Et & Er).
  destruct (take_quiz now quiz_data st) as [r st'] eqn:E. cbn [snd].
  destruct (take_quiz_outcome _ _ _ _ _ m total right Hp Et Er E)
    as [[_ [H _]] | (score & n & acc & old & scores' & _ & Hb & Hn & Hacc & Hold & Ha & Hp' & _)].
  - rewrite H. now exists scores, total, right.
  - unfold has_scores in Hs. rewrite Hp in Hs. cbn in Hs. rewrite Hold in Hs.
    injection Hs as ->. cbn in Ha. injection Ha as <-.
    exists (scores ++ [score_entry now score n acc])%list, (total + n), (right + score).
    rewrite Hp'. repeat split.
    + unfold has_scores. cbn.
      now rewrite !dict_get_set_other, dict_get_set_same by discriminate.
    + cbn. now rewrite dict_get_set_other, dict_get_set_same by discriminate.
    + cbn. now rewrite dict_get_set_same.
    + apply tally_snoc; try assumption. apply score_entry_record.
      rewrite Hacc. now apply percentage_finite.
Qed.

Lemma explain_concept_tallied
    (reply : string + string) (now topic : string) (st : state) :
  tallied (progress st) ->
  tallied (progress (snd (explain_concept reply now topic st))).
Proof.
  intros (scores & total & right & Hs & [Ht Hr] & Htally).
  exists scores, total, right. repeat split; try assumption.
  - unfold has_scores. rewrite <- Hs.
    apply (explain_concept_same_at "quiz_scores"). discriminate.
  - rewrite <- Ht.
    apply (explain_concept_same_at "total_questions"). discriminate.
  - rewrite <- Hr.
    apply (explain_concept_same_at "correct_answers"). discriminate.
Qed.

Lemma perform_all_invariant (P : json -> Prop) :
  (forall reply now topic st,
      P (progress st) -> P (progress (snd (explain_concept reply now topic st)))) ->
  (forall now quiz_data st,
      P (progress st) -> P (progress (snd (take_quiz now quiz_data st)))) ->
  forall actions st, P (progress st) -> P (progress (perform_all actions st)).
Proof.
  intros He Hq. induction actions as [|a actions IH]; intros st Hp; [exact Hp |].
  cbn [perform_all].
  assert (P (progress (snd (perform a st)))) as H.
  { destruct a as [reply now topic | now quiz_data]; cbn [perform]; unfold bind.
    - specialize (He reply now topic st Hp).
      destruct (explain_concept reply now topic st) as [[e | x] st']; exact He.
    - specialize (Hq now quiz_data st Hp).
      destruct (take_quiz now quiz_data st) as [[e | x] st']; exact Hq. }
  destruct (perform a st) as [[e | x] st']; [exact H | now apply IH].
Qed.

Lemma tallied_default : tallied default_progress.
Proof. exists [], 0, 0. repeat split. constructor. Qed.

(** X6.  The counters are the sums over [quiz_scores]: on the empty
    record, and after every session of explanations and quizzes on a
    record of which it holds, [total_questions] is the sum of the totals
    of the entries and [correct_answers] the sum of their scores, every
    entry having at least one question, a score from 0 to its total and a
    finite float (no infinity, no NaN) as accuracy. *)
Theorem session_is_tallied :
  tallied default_progress /\
  forall actions st,
    tallied (progress st) -> tallied (progress (perform_all actions st)).
Proof.
  split.
  - exact tallied_default.
  - apply perform_all_invariant.
    + intros. now apply explain_concept_tallied.
    + intros. now apply take_quiz_tallied.
Qed.

Lemma has_topics_same_at (st st' : state) (entries : list json) (names : list string) :
  same_at "topics_studied" st st' ->
  has_topics (progress st) entries names ->
  has_topics (progress st') entries names.
Proof. intros H [H1 H2]. split; [now rewrite H | exact H2]. Qed.

Lemma explain_concept_unique
    (reply : string + string) (now topic : string) (st : state) :
  unique_topics (progress st) ->
  unique_topics (progress (snd (explain_concept reply now topic st))).
Proof.
  intros (entries & names & Hvalid & Hnd).
  destruct reply as [error_msg | explanation].
  - exists entries, names. split; [| exact Hnd].
    unfold explain_concept.
    repeat match goal with
           | |- context [if ?b then _ else _] => destruct b
           end; exact Hvalid.
  - destruct (in_dec string_dec topic names) as [Hin | Hfresh].
    + rewrite (explain_concept_known st entries names) by assumption.
      now exists entries, names.
    + destruct (getitem_is_dict _ _ _ (proj1 Hvalid)) as (m & Hp & _).
      rewrite (explain_concept_fresh st m entries names) by assumption.
      exists (entries ++ [topic_entry topic now])%list, (names ++ [topic])%list.
      split; [apply has_topics_more, Hvalid |].
      apply NoDup_app; [exact Hnd | repeat constructor; intros [] | ].
      intros x Hx [<- | []]. contradiction.
Qed.

Lemma take_quiz_unique (now : string) (quiz_data : json) (st : state) :
  unique_topics (progress st) ->
  unique_topics (progress (snd (take_quiz now quiz_data st))).
Proof.
  intros (entries & names & Hvalid & Hnd). exists entries, names.
  split; [| exact Hnd].
  apply (has_topics_same_at st); [| exact Hvalid].
  apply take_quiz_keeps; discriminate.
Qed.

Lemma unique_topics_default : unique_topics default_progress.
Proof. exists [], []. repeat split; constructor. Qed.

(** X7.  No topic is listed twice: on the empty record, and after every
    session of explanations and quizzes on a record of which it holds,
    [topics_studied] is a list of entries with a topic each, all
    different. *)
Theorem session_topics_unique :
  unique_topics default_progress /\
  forall actions st,
    unique_topics (progress st) ->
    unique_topics (progress (perform_all actions st)).
Proof.
  split.
  - exact unique_topics_default.
  - apply perform_all_invariant.
    + intros. now apply explain_concept_unique.
    + intros. now apply take_quiz_unique.
Qed.

(** The loop, when fewer lines are typed than there are questions. *)
Lemma ask_questions_eof
    (questions : list json) (score : Z) (st : state) :
  Forall question_ok questions ->
  (List.length (stdin st) < List.length questions)%nat ->
  ask_questions questions score st = (inl EOFError, with_stdin [] st).
Proof.
  intros Hok. revert score st.
  induction Hok as [|q questions Hq _ IH]; intros score st Hlen;
    [cbn in Hlen; lia |].
  destruct Hq as (text & options & items & answer & explanation
                  & Hq1 & Hq2 & Hq3 & Hq4 & Hq5).
  cbn [ask_questions]. unfold bind at 1, lift at 1. rewrite Hq1.
  unfold bind at 1, lift at 1. rewrite Hq2.
  unfold bind at 1, lift at 1. rewrite Hq3.
  unfold bind at 1, input at 1.
  destruct (stdin st) as [|line rest] eqn:Hin.
  - rewrite <- Hin. now rewrite with_stdin_same.
  - unfold bind at 1, lift at 1. rewrite Hq4.
    unfold bind at 1, lift at 1. rewrite Hq5.
    rewrite IH by (cbn in *; lia). reflexivity.
Qed.

(** X8.  When the input ends before every question of a well-formed quiz
    has its answer, [take_quiz] raises [EOFError]: all the lines have been
    read, and the answers given are lost, the record and the file being
    as before. *)
Theorem take_quiz_input_runs_out
    (now : string) (questions : list json) (st : state) :
  Forall question_ok questions ->
  (List.length (stdin st) < List.length questions)%nat ->
  take_quiz now (JArr questions) st = (inl EOFError, with_stdin [] st).
Proof.
  intros Hok Hlen. unfold take_quiz. unfold bind at 1. cbn [lift py_iter].
  unfold bind at 1. now rewrite ask_questions_eof.
Qed.

End Invariants.

(** ** A turn with a failing model call *)

Section Recovery.

Context {codec : JsonCodec}.

Lemma explain_concept_failure (error_msg now topic : string) (st : state) :
  exists message, explain_concept (inl error_msg) now topic st = (inr message, st).
Proof.
  unfold explain_concept.
  repeat match goal with
         | |- context [if ?b then _ else _] => destruct b
         end; eexists; reflexivity.
Qed.

Lemma generate_quiz_failure (error_msg topic : string) (st : state) :
  exists notice,
    generate_quiz (inl error_msg) topic st
    = (inr (JArr []), with_stdout (stdout st ++ [notice]) st).
Proof.
  unfold generate_quiz.
  repeat match goal with
         | |- context [if ?b then _ else _] => destruct b
         end; eexists; reflexivity.
Qed.

(** X9.  A model call that fails ends neither the turn nor the session:
    on every line but [progress] (which calls no model, and displays a
    record that may not be fit for display), whatever the error, the turn
    returns its command, having read that one line, and leaves the record
    and the file as they were. *)
Theorem failed_call_is_recovered
    (error_msg now line : string) (rest : list string) (st : state) :
  stdin st = line :: rest ->
  parse_command line <> Progress ->
  exists st',
    chat_turn (inl error_msg) now st = (inr (parse_command line), st') /\
    progress st' = progress st /\
    progress_file st' = progress_file st /\
    stdin st' = rest.
Proof.
  intros Hin Hline. unfold chat_turn, bind at 1, input. rewrite Hin.
  destruct (parse_command line) as [| |topic|topic| |];
    try (eexists; split; [reflexivity | now repeat split]).
  - unfold explain_command. unfold bind at 1. unfold bind at 1.
    cbn [print]. unfold bind at 1.
    destruct (explain_concept_failure error_msg now topic
                (with_stdout (stdout (with_stdin rest st) ++
                   [nl ++ "🤖 Agent: Let me explain " ++ topic ++ "..." ++ nl])
                   (with_stdin rest st))) as [message ->].
    eexists; split; [reflexivity | now repeat split].
  - unfold quiz_command. unfold bind at 1. unfold bind at 1.
    cbn [print]. unfold bind at 1.
    destruct (generate_quiz_failure error_msg topic
                (with_stdout (stdout (with_stdin rest st) ++
                   [nl ++ "🤖 Agent: Generating quiz on " ++ topic ++ "..." ++ nl])
                   (with_stdin rest st))) as [notice ->].
    eexists; split; [reflexivity | now repeat split].
  - now elim Hline.
Qed.

End Recovery.

(** ** Answers *)

Section Answers.

Context {codec : JsonCodec}.

(** X10.  An answer counts up to case and to the white space around it:
    the quiz runner does with the lines typed what it does with their
    stripped, upper-case forms, raising what it raises then and counting
    the score it counts then. *)
Theorem answers_are_normalised
    (questions : list json) (score : Z) (st : state) :
  fst (ask_questions questions score
         (with_stdin (map (fun line => Py.upper (Py.strip line)) (stdin st)) st))
  = fst (ask_questions questions score st).
Proof.
  revert score st; induction questions as [|q questions IH]; intros score st;
    [reflexivity |].
  cbn [ask_questions]. unfold bind, lift, input.
  destruct (py_getitem q "question"); [reflexivity |].
  destruct (py_getitem q "options") as [|options]; [reflexivity |].
  destruct (py_iter options); [reflexivity |].
  cbn [stdin with_stdin].
  destruct (stdin st) as [|line rest] eqn:Hin; [reflexivity |].
  cbn [map].
  destruct (py_getitem q "correct") as [|answer]; [reflexivity |].
  destruct (py_getitem q "explanation"); [reflexivity |].
  rewrite upper_strip_normal.
  specialize (IH (if py_str_eq (Py.upper (Py.strip line)) answer
                  then score + 1 else score) (with_stdin rest st)).
  cbn [stdin with_stdin] in IH. exact IH.
Qed.

(** X11.  A question whose [correct] is a string that is not in
    stripped, upper-case form (such as "a" or " A") cannot be answered
    right, the answer typed being stripped and put in upper case before
    it is compared: on a well-formed quiz of such questions, with an
    answer typed for each, the score stays what it was, whatever is
    typed. *)
Theorem unanswerable_questions
    (questions : list json) (lines more : list string) (score : Z) (st : state) :
  Forall question_ok questions ->
  Forall (fun q => forall answer,
              py_getitem q "correct" = inr (JStr answer) ->
              Py.upper (Py.strip answer) <> answer) questions ->
  List.length lines = List.length questions ->
  stdin st = (lines ++ more)%list ->
  ask_questions questions score st = (inr score, with_stdin more st).
Proof.
  intros Hok Hbad Hlen Hin.
  rewrite (ask_questions_ok questions lines more score st Hok Hlen Hin).
  replace (count_right questions lines) with 0; [now rewrite Z.add_0_r |].
  clear Hin Hok. revert lines Hlen.
  induction Hbad as [|q questions Hq _ IH]; intros lines Hlen; [reflexivity |].
  destruct lines as [|line lines]; [reflexivity |].
  cbn [count_right]. rewrite <- (IH lines) by (cbn in Hlen; lia).
  unfold right_answer.
  destruct (py_getitem q "correct") as [|answer]; [reflexivity |].
  destruct answer as [| | | |answer| |]; try reflexivity.
  cbn [py_str_eq].
  destruct (String.eqb (Py.upper (Py.strip line)) answer) eqn:E; [| reflexivity].
  apply String.eqb_eq in E. exfalso. apply (Hq answer eq_refl).
  rewrite <- E. apply upper_strip_normal.
Qed.

End Answers.

(** ** Floats: small integers convert exactly *)

Lemma digits2_pos_iter_xO (p k : positive) :
  digits2_pos (Pos.iter xO p k) = (digits2_pos p + k)%positive.
Proof.
  induction k as [|k IH] using Pos.peano_ind.
  - cbn. lia.
  - rewrite Pos.iter_succ. cbn [digits2_pos]. rewrite IH. lia.
Qed.

(** A mantissa in canonical form is left as it is by rounding. *)
Lemma binary_round_aux_canonical (sx : bool) (m : positive) (e : Z) :
  fexp prec emax (Z.pos (digits2_pos m) + e) = e ->
  e <= emax - prec ->
  binary_round_aux prec emax sx (Z.pos m) e loc_Exact = S754_finite sx m e.
Proof.
  intros Hc He. unfold binary_round_aux, shr_fexp.
  cbn [Zdigits2 shr_record_of_loc]. rewrite Hc, Z.sub_diag.
  cbn [shr shr_m loc_of_shr_record round_nearest_even Zdigits2 shr_record_of_loc].
  rewrite Hc, Z.sub_diag. cbn [shr shr_m].
  apply Z.leb_le in He. now rewrite He.
Qed.

(** [float(z)] for [0 < z < 2^53] is a float that is not zero. *)
Lemma float_of_int_small (z : Z) :
  0 < z < 2 ^ 53 ->
  exists m e, float_of_int z = inr (S754_finite false m e).
Proof.
  intros [H0 Hlt]. destruct z as [|p|p]; try lia.
  assert (Z.pos (digits2_pos p) <= 53) as Hd
      by (apply (Zdigits2_upper (Z.pos p)); lia).
  unfold float_of_int, binary_normalize, binary_round.
  destruct (Z.eq_dec (Z.pos (digits2_pos p)) 53) as [E | E].
  - assert (fexp prec emax (Z.pos (digits2_pos p) + 0) = 0) as Hf
        by (unfold fexp, emin, prec, emax; lia).
    unfold shl_align. rewrite Hf. cbn [Z.sub Z.opp Z.add].
    rewrite binary_round_aux_canonical by (assumption || (unfold emax, prec; lia)).
    now exists p, 0.
  - set (k := 53 - Z.pos (digits2_pos p)).
    assert (fexp prec emax (Z.pos (digits2_pos p) + 0) = - k) as Hf
        by (unfold fexp, emin, prec, emax, k; lia).
    unfold shl_align. rewrite Hf.
    destruct k as [|q|q] eqn:Ek; try (unfold k in Ek; lia).
    cbn [Z.sub Z.opp Z.add].
    rewrite binary_round_aux_canonical.
    + now exists (Pos.iter xO p q), (Z.neg q).
    + rewrite digits2_pos_iter_xO. unfold fexp, emin, prec, emax.
      unfold k in Ek. lia.
    + unfold emax, prec. lia.
Qed.

(** ** The [progress] command *)

Lemma bind_getitem {A} (k : string) (f : json -> M A) (st : state) :
  bind (progress_getitem k) f st
  = match py_getitem (progress st) k with
    | inr v => f v st
    | inl e => (inl e, st)
    end.
Proof.
  unfold bind. rewrite progress_getitem_eq.
  now destruct (py_getitem (progress st) k).
Qed.

Lemma bind_lift {A B} (r : result A) (f : A -> M B) (st : state) :
  bind (lift r) f st
  = match r with
    | inr v => f v st
    | inl e => (inl e, st)
    end.
Proof. unfold bind, lift. now destruct r. Qed.

Lemma bind_ret {A B} (a : A) (f : A -> M B) (st : state) :
  bind (ret a) f st = f a st.
Proof. reflexivity. Qed.

Lemma Forall_skipn {A} (P : A -> Prop) (n : nat) (l : list A) :
  Forall P l -> Forall P (skipn n l).
Proof.
  revert l. induction n as [|n IH]; intros l H; [exact H |].
  destruct H as [|x l _ H]; cbn; [constructor | now apply IH].
Qed.

Lemma map_result_ok {A B} (f : A -> result B) (l : list A) :
  Forall (fun a => exists b, f a = inr b) l ->
  exists bs, map_result f l = inr bs.
Proof.
  induction 1 as [|a l [b Hb] _ [bs IH]]; cbn; [now exists [] |].
  rewrite Hb, IH. now exists (b :: bs).
Qed.

Lemma has_topics_forall (p : json) (entries : list json) (names : list string) :
  has_topics p entries names ->
  Forall (fun e => exists v, py_getitem e "topic" = inr v) entries.
Proof.
  intros [_ H]. induction H as [|e name entries names He _ IH];
    constructor; [now exists (JStr name) | exact IH].
Qed.

Lemma tally_forall (scores : list json) (total right : Z) :
  tally scores total right ->
  Forall (fun e => exists score n, score_record e score n) scores.
Proof.
  induction 1 as [|scores total right e score n _ IH Hr _ _]; [constructor |].
  apply Forall_app. split; [exact IH |].
  constructor; [now exists score, n | constructor].
Qed.

Lemma show_quiz_ok (e : json) (score n : Z) :
  score_record e score n -> show_quiz e = inr tt.
Proof.
  intros (Hs & Hn & accuracy & Ha & _). unfold show_quiz. now rewrite Hs, Hn, Ha.
Qed.

(** The sum of accuracies that are floats is a float. *)
Lemma sum_accuracies_ok (quizzes : list json) (acc : json) :
  Forall (fun e => exists score n, score_record e score n) quizzes ->
  acc = JInt 0 \/ (exists f, acc = JFloat f) ->
  exists r, sum_accuracies quizzes acc = inr r /\
            (quizzes <> [] -> exists f, r = JFloat f).
Proof.
  intros H. revert acc.
  induction H as [|e quizzes (score & n & _ & _ & accuracy & Ha & _) _ IH];
    intros acc Hacc.
  - exists acc. split; [reflexivity | intros Hc; now elim Hc].
  - cbn [sum_accuracies]. rewrite Ha. cbn [rbind].
    assert (exists f, py_add acc (JFloat accuracy) = inr (JFloat f)) as [f Hf].
    { destruct Hacc as [-> | [f ->]]; eexists; reflexivity. }
    rewrite Hf. cbn [rbind].
    destruct (IH (JFloat f)) as (r & Hr & Hfloat); [right; now exists f |].
    exists r. split; [exact Hr |]. intros _.
    destruct quizzes as [|q quizzes]; [| apply Hfloat; discriminate].
    cbn in Hr. injection Hr as <-. now exists f.
Qed.

(** X12.  The [progress] command displays a well-formed record without
    raising and without changing anything: a record whose [topics_studied]
    lists entries with a topic each, whose counters are the sums over
    [quiz_scores], with fewer than 2^53 questions counted (so that the
    number of scores is a float exactly). *)
Theorem show_progress_returns
    (st : state) (entries : list json) (names : list string) (total right : Z) :
  has_topics (progress st) entries names ->
  tallied (progress st) ->
  has_counters (progress st) total right ->
  total < 2 ^ 53 ->
  show_progress st = (inr tt, st).
Proof.
  intros Htopics (scores & total' & right' & Hs & [Ht' Hr'] & Htally) [Ht Hr] Hlt.
  rewrite Ht in Ht'. injection Ht' as <-.
  rewrite Hr in Hr'. injection Hr' as <-.
  unfold has_scores in Hs.
  pose proof (proj1 Htopics) as Hget.
  pose proof (has_topics_forall _ _ _ Htopics) as Hall.
  pose proof (tally_forall _ _ _ Htally) as Hrec.
  destruct (tally_bounds _ _ _ Htally) as (Hb & Hlen & Hpos).
  unfold show_progress.
  rewrite bind_getitem, Hget, bind_lift. cbn [py_len].
  rewrite bind_getitem, Hget.
  assert (forall (k : unit -> M unit),
             bind (if py_truthy (JArr entries)
                   then
                     studied <- progress_getitem "topics_studied" ;;
                     recent <- lift (py_last 5 studied) ;;
                     items <- lift (py_iter recent) ;;
                     lift (map_result (fun item => py_getitem item "topic") items) ;;;
                     ret tt
                   else ret tt) k st = k tt st) as Hfirst.
  { intros k. destruct (py_truthy (JArr entries)); [| reflexivity].
    unfold bind at 1. rewrite bind_getitem, Hget, bind_lift. cbn [py_last].
    rewrite bind_lift. cbn [py_iter].
    destruct (map_result_ok (fun item => py_getitem item "topic")
                (skipn (List.length entries - 5) entries)
                (Forall_skipn _ _ _ Hall)) as [bs Hbs].
    rewrite bind_lift, Hbs. reflexivity. }
  rewrite Hfirst. clear Hfirst.
  rewrite bind_getitem, Hs.
  destruct scores as [|q scores].
  - cbn [py_truthy List.length Z.of_nat Z.eqb negb]. rewrite bind_ret.
    rewrite bind_getitem, Hs. reflexivity.
  - assert (py_truthy (JArr (q :: scores)) = true) as Htruthy
        by (cbn [py_truthy List.length]; apply negb_true_iff, Z.eqb_neq; lia).
    rewrite Htruthy.
    specialize (Hpos ltac:(discriminate)).
    unfold bind at 1.
    rewrite bind_getitem, Hr, bind_getitem, Ht, bind_lift.
    cbn [py_truediv py_number]. rewrite (int_truediv_ok right total) by lia.
    rewrite bind_lift, float_mul_int_100.
    rewrite bind_getitem, Ht, bind_getitem, Hr, bind_getitem, Hs.
    rewrite bind_lift. cbn [py_last]. rewrite bind_lift. cbn [py_iter].
    destruct (map_result_ok show_quiz
                (skipn (List.length (q :: scores) - 3) (q :: scores))) as [bs Hbs].
    { apply Forall_skipn. eapply Forall_impl; [| exact Hrec].
      intros e (score & n & He). exists tt. now apply (show_quiz_ok e score n). }
    rewrite bind_lift, Hbs. unfold ret at 1. cbv beta iota.
    rewrite bind_getitem, Hs, Htruthy.
    rewrite bind_getitem, Hs, bind_lift. cbn [py_iter].
    destruct (sum_accuracies_ok (q :: scores) (JInt 0) Hrec (or_introl eq_refl))
      as (r & Hsum & Hfloat).
    destruct (Hfloat ltac:(discriminate)) as [f ->].
    rewrite bind_lift, Hsum, bind_getitem, Hs, bind_lift. cbn [py_len].
    destruct (float_of_int_small (Z.of_nat (List.length (q :: scores))))
      as (m & e & Hconv); [cbn [List.length] in *; lia |].
    rewrite bind_lift. cbn [py_truediv py_number number_float rbind].
    rewrite Hconv. reflexivity.
Qed.

(** X13.  The [progress] command divides [correct_answers] by
    [total_questions] as soon as [quiz_scores] is not empty: on a record
    with scores listed and [total_questions] 0, as a progress file edited
    by hand may hold, it raises [ZeroDivisionError]. *)
Theorem show_progress_divides_by_zero
    (st : state) (entries : list json) (names : list string)
    (scores : list json) (right : Z) :
  has_topics (progress st) entries names ->
  has_scores (progress st) scores -> scores <> [] ->
  has_counters (progress st) 0 right ->
  show_progress st = (inl ZeroDivisionError, st).
Proof.
  intros Htopics Hs Hne [Ht Hr].
  pose proof (proj1 Htopics) as Hget.
  pose proof (has_topics_forall _ _ _ Htopics) as Hall.
  unfold has_scores in Hs. unfold show_progress.
  rewrite bind_getitem, Hget, bind_lift. cbn [py_len].
  rewrite bind_getitem, Hget.
  assert (forall (k : unit -> M unit),
             bind (if py_truthy (JArr entries)
                   then
                     studied <- progress_getitem "topics_studied" ;;
                     recent <- lift (py_last 5 studied) ;;
                     items <- lift (py_iter recent) ;;
                     lift (map_result (fun item => py_getitem item "topic") items) ;;;
                     ret tt
                   else ret tt) k st = k tt st) as Hfirst.
  { intros k. destruct (py_truthy (JArr entries)); [| reflexivity].
    unfold bind at 1. rewrite bind_getitem, Hget, bind_lift. cbn [py_last].
    rewrite bind_lift. cbn [py_iter].
    destruct (map_result_ok (fun item => py_getitem item "topic")
                (skipn (List.length entries - 5) entries)
                (Forall_skipn _ _ _ Hall)) as [bs Hbs].
    rewrite bind_lift, Hbs. reflexivity. }
  rewrite Hfirst. clear Hfirst.
  rewrite bind_getitem, Hs.
  assert (py_truthy (JArr scores) = true) as Htruthy
      by (destruct scores; [contradiction | reflexivity]).
  rewrite Htruthy. unfold bind at 1.
  rewrite bind_getitem, Hr, bind_getitem, Ht, bind_lift. reflexivity.
Qed.

(** ** The loop of [chat] *)

Ltac frame refl trans leaf :=
  repeat (cbv beta;
          lazymatch goal with
          | |- preserves _ (bind _ _) =>
              apply preserves_bind; [exact trans | | intros ?]
          | |- preserves _ (lift _) => apply preserves_lift; exact refl
          | |- preserves _ (ret _) => apply preserves_ret; exact refl
          | |- preserves _ (progress_getitem _) =>
              apply preserves_progress_getitem; exact refl
          | |- preserves _ (if ?b then _ else _) => destruct b
          | |- preserves _ (let (_, _) := ?x in _) => destruct x
          | |- _ => leaf
          end).

Lemma unchanged_trans (st1 st2 st3 : state) : st2 = st1 -> st3 = st2 -> st3 = st1.
Proof. congruence. Qed.

(** [show_progress] changes nothing, whether it returns or raises. *)
Lemma show_progress_state (st : state) : snd (show_progress st) = st.
Proof.
  revert st. change (preserves (fun st st' => st' = st) show_progress).
  unfold show_progress.
  frame (fun st : state => eq_refl st) unchanged_trans ltac:(idtac; fail).
Qed.

Lemma consumed_refl (st : state) : consumed st st.
Proof. now exists []. Qed.

Lemma consumed_trans (st1 st2 st3 : state) :
  consumed st1 st2 -> consumed st2 st3 -> consumed st1 st3.
Proof.
  intros [a Ha] [b Hb]. exists (a ++ b)%list.
  now rewrite Ha, Hb, app_assoc.
Qed.

Lemma consumed_same (st st' : state) : stdin st' = stdin st -> consumed st st'.
Proof. intros H. exists []. now rewrite H. Qed.

Lemma consumed_input : preserves consumed input.
Proof.
  intros st. unfold input. destruct (stdin st) as [|line rest] eqn:E; cbn [snd].
  - apply consumed_refl.
  - exists [line]. exact E.
Qed.

Lemma consumed_print (line : string) : preserves consumed (print line).
Proof. intros st. now apply consumed_same. Qed.

Lemma consumed_setitem (k : string) (v : json) :
  preserves consumed (progress_setitem k v).
Proof.
  intros st. apply consumed_same.
  unfold progress_setitem, bind, get_progress, lift.
  now destruct (py_setitem (progress st) k v).
Qed.

Lemma carries_refl (P : json -> Prop) (st : state) : carries P st st.
Proof. intros H. exact H. Qed.

Lemma carries_trans (P : json -> Prop) (st1 st2 st3 : state) :
  carries P st1 st2 -> carries P st2 st3 -> carries P st1 st3.
Proof. unfold carries. auto. Qed.

Lemma carries_same (P : json -> Prop) (st st' : state) :
  progress st' = progress st -> carries P st st'.
Proof. intros H Hp. now rewrite H. Qed.

Section Loop.

Context {codec : JsonCodec}.

Lemma consumed_save : preserves consumed save_progress.
Proof. intros st. now apply consumed_same. Qed.

Ltac consumed_leaf :=
  idtac;
  lazymatch goal with
  | |- preserves _ input => exact consumed_input
  | |- preserves _ (print _) => apply consumed_print
  | |- preserves _ (progress_setitem _ _) => apply consumed_setitem
  | |- preserves _ save_progress => exact consumed_save
  end.

Lemma consumed_explain_concept (reply : string + string) (now topic : string) :
  preserves consumed (explain_concept reply now topic).
Proof.
  unfold explain_concept. destruct reply as [error_msg | explanation];
    frame consumed_refl consumed_trans consumed_leaf.
Qed.

Lemma consumed_generate_quiz (reply : string + string) (topic : string) :
  preserves consumed (generate_quiz reply topic).
Proof.
  unfold generate_quiz. destruct reply as [error_msg | text];
    frame consumed_refl consumed_trans consumed_leaf.
Qed.

Lemma consumed_ask_questions (questions : list json) (score : Z) :
  preserves consumed (ask_questions questions score).
Proof.
  revert score. induction questions as [|q questions IH]; intros score;
    cbn [ask_questions].
  - apply preserves_ret, consumed_refl.
  - frame consumed_refl consumed_trans
          ltac:(idtac; first [consumed_leaf | apply IH]).
Qed.

Lemma consumed_take_quiz (now : string) (quiz_data : json) :
  preserves consumed (take_quiz now quiz_data).
Proof.
  unfold take_quiz, record_score.
  frame consumed_refl consumed_trans
        ltac:(idtac; first [consumed_leaf | apply consumed_ask_questions]).
Qed.

(** What one turn of the loop relates, given what its parts relate. *)
Lemma chat_turn_frame (R : state -> state -> Prop) :
  (forall st, R st st) ->
  (forall st1 st2 st3, R st1 st2 -> R st2 st3 -> R st1 st3) ->
  preserves R input ->
  (forall line, preserves R (print line)) ->
  (forall reply now topic, preserves R (explain_concept reply now topic)) ->
  (forall reply topic, preserves R (generate_quiz reply topic)) ->
  (forall now quiz_data, preserves R (take_quiz now quiz_data)) ->
  forall reply now, preserves R (chat_turn reply now).
Proof.
  intros Hrefl Htrans Hinput Hprint Hexplain Hgenerate Htake reply now.
  assert (preserves R show_progress) as Hshow.
  { intros st. rewrite show_progress_state. apply Hrefl. }
  unfold chat_turn.
  apply preserves_bind; [exact Htrans | exact Hinput |].
  intros line. destruct (parse_command line);
    unfold explain_command, quiz_command;
    frame Hrefl Htrans
          ltac:(idtac;
                first [apply Hprint | apply Hexplain | apply Hgenerate
                      | apply Htake | exact Hshow]).
Qed.

Lemma chat_loop_frame (R : state -> state -> Prop) :
  (forall st, R st st) ->
  (forall st1 st2 st3, R st1 st2 -> R st2 st3 -> R st1 st3) ->
  (forall reply now, preserves R (chat_turn reply now)) ->
  forall oracle fuel i, preserves R (chat_loop oracle fuel i).
Proof.
  intros Hrefl Htrans Hturn oracle.
  induction fuel as [|fuel IH]; intros i; cbn [chat_loop].
  - apply preserves_ret, Hrefl.
  - apply preserves_bind; [exact Htrans | apply Hturn |].
    intros c. destruct c; (apply preserves_ret, Hrefl) || apply IH.
Qed.

(** A turn that returns has read a line and returns its command. *)
Lemma chat_turn_returns
    (reply : string + string) (now : string) (st st' : state) (c : command) :
  chat_turn reply now st = (inr c, st') ->
  exists line taken,
    stdin st = line :: (taken ++ stdin st')%list /\ parse_command line = c.
Proof.
  unfold chat_turn. unfold bind at 1, input.
  destruct (stdin st) as [|line rest]; [discriminate |].
  set (st1 := with_stdin rest st). intros H.
  assert (consumed st1 st') as [taken Ht].
  { match type of H with
    | ?k st1 = _ => assert (preserves consumed k) as Hk
    end.
    { destruct (parse_command line); unfold explain_command, quiz_command;
        frame consumed_refl consumed_trans
              ltac:(idtac;
                    first [consumed_leaf | apply consumed_explain_concept
                          | apply consumed_generate_quiz
                          | apply consumed_take_quiz
                          | intros st0; rewrite show_progress_state;
                            apply consumed_refl]). }
    specialize (Hk st1). now rewrite H in Hk. }
  exists line, taken. split; [exact (f_equal (cons line) Ht) |].
  destruct (parse_command line) as [| |topic|topic| |]; unfold bind in H;
    try (now injection H as <- _).
  - destruct (explain_command reply now topic st1) as [[e | []] st2];
      [discriminate | now injection H as <- _].
  - destruct (quiz_command reply now topic st1) as [[e | []] st2];
      [discriminate | now injection H as <- _].
  - destruct (show_progress st1) as [[e | []] st2];
      [discriminate | now injection H as <- _].
Qed.

End Loop.

(** ** A session: [chat] and the main block *)

Section Sessions.

Context {codec : JsonCodec}.

(** With more turns allowed than there are lines, the loop does not stop
    for want of turns, and allowing more changes nothing. *)
Lemma chat_loop_fuel (oracle : nat -> (string + string) * string) :
  forall fuel fuel' i st,
    (List.length (stdin st) < fuel)%nat ->
    (List.length (stdin st) < fuel')%nat ->
    chat_loop oracle fuel i st = chat_loop oracle fuel' i st /\
    fst (chat_loop oracle fuel i st) <> inr false.
Proof.
  induction fuel as [|fuel IH]; intros fuel' i st H H'; [lia |].
  destruct fuel' as [|fuel']; [lia |].
  cbn [chat_loop]. unfold bind.
  destruct (chat_turn (fst (oracle i)) (snd (oracle i)) st) as [[e | c] st1] eqn:E.
  - split; [reflexivity | discriminate].
  - apply chat_turn_returns in E as (line & taken & Hin & _).
    assert (List.length (stdin st1) < List.length (stdin st))%nat as Hlt
        by (rewrite Hin; cbn [List.length]; rewrite length_app; lia).
    destruct c; try (apply IH; lia).
    split; [reflexivity | discriminate].
Qed.

(** The loop returns only after a line that reads [quit]. *)
Lemma chat_loop_quit (oracle : nat -> (string + string) * string) :
  forall fuel i st st',
    chat_loop oracle fuel i st = (inr true, st') ->
    exists line, In line (stdin st) /\ parse_command line = Quit.
Proof.
  induction fuel as [|fuel IH]; intros i st st'; cbn [chat_loop];
    [discriminate |].
  unfold bind.
  destruct (chat_turn (fst (oracle i)) (snd (oracle i)) st) as [[e | c] st1] eqn:E;
    [discriminate |].
  apply chat_turn_returns in E as (line & taken & Hin & Hc).
  destruct c;
    try (intros H; apply IH in H as (l & Hl & Hq); exists l;
         split; [rewrite Hin; right; apply in_or_app; now right | exact Hq]).
  intros _. exists line. split; [rewrite Hin; now left | exact Hc].
Qed.

(** A turn on a line that reads [quit] or [help], or is not understood. *)
Lemma turn_plain
    (reply : string + string) (now line : string) (rest : list string)
    (st : state) :
  stdin st = line :: rest ->
  parse_command line = Quit \/ idle line ->
  chat_turn reply now st = (inr (parse_command line), with_stdin rest st).
Proof.
  intros Hin Hc. unfold chat_turn, bind, input. rewrite Hin.
  destruct Hc as [-> | [-> | ->]]; reflexivity.
Qed.

Lemma chat_loop_idle (oracle : nat -> (string + string) * string)
    (quit_line : string) (rest : list string) :
  parse_command quit_line = Quit ->
  forall lines fuel i st,
    Forall idle lines ->
    stdin st = (lines ++ quit_line :: rest)%list ->
    (List.length lines < fuel)%nat ->
    chat_loop oracle fuel i st = (inr true, with_stdin rest st).
Proof.
  intros Hq. induction lines as [|line lines IH]; intros fuel i st Hidle Hin Hlen;
    (destruct fuel as [|fuel]; [cbn in Hlen; lia |]);
    cbn [chat_loop]; unfold bind.
  - rewrite (turn_plain _ _ quit_line rest st Hin (or_introl Hq)).
    now rewrite Hq.
  - inversion Hidle as [|x l Hline Hrest]; subst.
    rewrite (turn_plain _ _ line (lines ++ quit_line :: rest)%list st Hin
               (or_intror Hline)).
    pose proof (IH fuel (S i) (with_stdin (lines ++ quit_line :: rest) st)
                  Hrest eq_refl ltac:(cbn in Hlen; lia)) as Hloop.
    destruct Hline as [-> | ->]; exact Hloop.
Qed.

Lemma init_returns (api_key : option string) (model_ok : bool) (st st' : state) :
  init api_key model_ok st = (inr tt, st') ->
  st' = with_progress (loaded_record (progress_file st)) st.
Proof.
  unfold init. destruct api_key as [[|c key]|]; try discriminate.
  destruct model_ok; [| discriminate].
  rewrite load_progress_eq. now intros [= <-].
Qed.

(** X14.  The loop of [chat] ends on every input: it takes a line at
    each turn, so that with more turns allowed than there are lines it
    returns after a [quit] or raises ([EOFError] when the lines run out),
    and never stops for want of turns; allowing more turns changes
    nothing. *)
Theorem chat_ends
    (oracle : nat -> (string + string) * string) (st : state) (fuel : nat) :
  (List.length (stdin st) < fuel)%nat ->
  chat_loop oracle fuel 0 st = chat oracle st /\
  fst (chat oracle st) <> inr false.
Proof.
  intros H. unfold chat.
  destruct (chat_loop_fuel oracle fuel (S (List.length (stdin st))) 0 st H
              ltac:(lia)) as [H1 H2].
  split; [exact H1 | rewrite <- H1; exact H2].
Qed.

(** X15.  A session can only end well by [quit]: when no line of the
    input reads [quit] (whatever the case and the blanks around it), the
    program ends with exit status 1, by a configuration error or by an
    exception of the loop, at the latest the [EOFError] of [input] at the
    end of the lines. *)
Theorem session_without_quit_fails
    (api_key : option string) (model_ok : bool)
    (oracle : nat -> (string + string) * string) (st : state) :
  Forall (fun line => parse_command line <> Quit) (stdin st) ->
  fst (main api_key model_ok oracle st) = 1.
Proof.
  intros Hno. unfold main, bind.
  destruct (init api_key model_ok st) as [[e | []] st1] eqn:Ei; [reflexivity |].
  apply init_returns in Ei.
  assert (stdin st1 = stdin st) as Hin by now subst st1.
  destruct (chat oracle st1) as [[e | b] st2] eqn:Ec; [reflexivity |].
  exfalso. destruct b.
  - apply chat_loop_quit in Ec as (line & Hl & Hq). rewrite Hin in Hl.
    rewrite Forall_forall in Hno. exact (Hno line Hl Hq).
  - unfold chat in Ec.
    destruct (chat_loop_fuel oracle (S (List.length (stdin st1)))
                (S (List.length (stdin st1))) 0 st1 ltac:(lia) ltac:(lia))
      as [_ Hne].
    rewrite Ec in Hne. now apply Hne.
Qed.

(** X16.  The first [quit] ends the session: with a key and a model,
    after any number of lines that read [help] or are not understood, a
    line that reads [quit] makes the program end with exit status 0; the
    lines after it are not read, and nothing is written: the record is
    the one loaded and the file is as it was. *)
Theorem session_ends_at_quit
    (key : string) (oracle : nat -> (string + string) * string)
    (lines : list string) (quit_line : string) (rest : list string) (st : state) :
  key <> EmptyString ->
  Forall idle lines ->
  parse_command quit_line = Quit ->
  stdin st = (lines ++ quit_line :: rest)%list ->
  main (Some key) true oracle st
  = (0, with_stdin rest (with_progress (loaded_record (progress_file st)) st)).
Proof.
  intros Hkey Hidle Hq Hin. unfold main. unfold bind at 1.
  destruct key as [|c key]; [now elim Hkey |]. cbn [init].
  rewrite load_progress_eq. unfold chat.
  rewrite (chat_loop_idle oracle quit_line rest Hq lines); try assumption.
  - reflexivity.
  - cbn [stdin with_progress]. rewrite Hin, length_app. lia.
Qed.

Lemma carries_turn (P : json -> Prop) :
  (forall reply now topic st,
      P (progress st) -> P (progress (snd (explain_concept reply now topic st)))) ->
  (forall now quiz_data st,
      P (progress st) -> P (progress (snd (take_quiz now quiz_data st)))) ->
  forall reply now, preserves (carries P) (chat_turn reply now).
Proof.
  intros He Hq. apply chat_turn_frame.
  - apply carries_refl.
  - apply carries_trans.
  - intros st. apply carries_same. apply preserves_input.
  - intros line st. now apply carries_same.
  - intros reply now topic st. exact (He reply now topic st).
  - intros reply topic st. apply carries_same. apply preserves_generate_quiz.
  - intros now quiz_data st. exact (Hq now quiz_data st).
Qed.

(** X17.  The loop of [chat] keeps the record well formed: when the
    counters are the sums over [quiz_scores] and no topic is listed twice
    as the loop begins, both hold as it ends, by [quit] or by an
    exception, whatever was typed and whatever the model replied. *)
Theorem chat_keeps_record_well_formed
    (oracle : nat -> (string + string) * string) (st : state) :
  tallied (progress st) -> unique_topics (progress st) ->
  tallied (progress (snd (chat oracle st))) /\
  unique_topics (progress (snd (chat oracle st))).
Proof.
  intros Ht Hu. unfold chat. split.
  - refine (chat_loop_frame (carries tallied) (carries_refl _) (carries_trans _)
              _ oracle _ 0%nat st Ht).
    apply carries_turn.
    + intros. now apply explain_concept_tallied.
    + intros. now apply take_quiz_tallied.
  - refine (chat_loop_frame (carries unique_topics) (carries_refl _)
              (carries_trans _) _ oracle _ 0%nat st Hu).
    apply carries_turn.
    + intros. now apply explain_concept_unique.
    + intros. now apply take_quiz_unique.
Qed.

Lemma settled_refl (st : state) : settled st st.
Proof. intros H. split; [exact H | left; apply same_record_refl]. Qed.

Lemma settled_trans (st1 st2 st3 : state) :
  settled st1 st2 -> settled st2 st3 -> settled st1 st3.
Proof.
  intros H12 H23 H1. destruct (H12 H1) as [H2 Hs2].
  destruct (H23 H2) as [H3 Hs3]. split; [exact H3 |].
  destruct Hs3 as [Hsame | Hpers]; [| now right].
  destruct Hs2 as [Hsame2 | Hpers2].
  - left. exact (same_record_trans _ _ _ Hsame2 Hsame).
  - right. exact (persisted_same_record _ _ Hsame Hpers2).
Qed.

Lemma settled_same (st st' : state) : same_record st st' -> settled st st'.
Proof. intros Hs H. split; [now rewrite (proj1 Hs) | now left]. Qed.

Lemma settled_perform (a : action) (st : state) :
  settled st (snd (perform a st)).
Proof.
  intros H. split; [now apply perform_counters | now apply perform_outcome].
Qed.

Lemma settled_turn (reply : string + string) (now : string) :
  preserves settled (chat_turn reply now).
Proof.
  apply chat_turn_frame.
  - exact settled_refl.
  - exact settled_trans.
  - intros st. apply settled_same, preserves_input.
  - intros line st. apply settled_same, preserves_print.
  - intros reply' now' topic st.
    pose proof (settled_perform (Explained reply' now' topic) st) as H.
    cbn [perform] in H. unfold bind in H.
    now destruct (explain_concept reply' now' topic st) as [[e | x] st'].
  - intros reply' topic st. apply settled_same, preserves_generate_quiz.
  - intros now' quiz_data st.
    pose proof (settled_perform (Quizzed now' quiz_data) st) as H.
    cbn [perform] in H. unfold bind in H.
    now destruct (take_quiz now' quiz_data st) as [[e | x] st'].
Qed.

(** X18.  Nothing is left unsaved when the loop of [chat] ends by
    [quit]: on a record whose counters are integers, the right answers no
    more than the questions, either record and file are the ones the loop
    began with, or the file holds the record as it is in memory. *)
Theorem chat_leaves_record_saved
    (oracle : nat -> (string + string) * string) (st st' : state) :
  counters_ok (progress st) ->
  chat oracle st = (inr true, st') ->
  same_record st st' \/ persisted st'.
Proof.
  intros Hok Hrun. unfold chat in Hrun.
  pose proof (chat_loop_frame settled settled_refl settled_trans settled_turn
                oracle (S (List.length (stdin st))) 0%nat st Hok) as [_ H].
  now rewrite Hrun in H.
Qed.

End Sessions.

(** * The reference codec reads back what it writes *)

(** ** Decimal digits *)

Lemma digits_spec (s rest : string) (acc count : Z) :
  all_digits s = true -> no_digit rest ->
  RefJson.digits acc count (s ++ rest)
  = (digits_value acc s, count + Z.of_nat (String.length s), rest).
Proof.
  intros Hs Hrest. revert acc count Hs.
  induction s as [|c s IH]; intros acc count Hs.
  - cbn [append String.length digits_value Z.of_nat]. rewrite Z.add_0_r.
    destruct rest as [|c t]; [reflexivity |]. cbn in *. now rewrite Hrest.
  - cbn [append all_digits RefJson.digits digits_value String.length] in *.
    destruct (RefJson.digit_val c) as [d|]; [| discriminate].
    rewrite IH by assumption. f_equal. f_equal. lia.
Qed.

Lemma all_digits_app (a b : string) :
  all_digits (a ++ b) = all_digits a && all_digits b.
Proof.
  induction a as [|c a IH]; [reflexivity |]. cbn.
  now destruct (RefJson.digit_val c).
Qed.

Lemma digits_value_app (a b : string) (acc : Z) :
  all_digits a = true ->
  digits_value acc (a ++ b) = digits_value (digits_value acc a) b.
Proof.
  revert acc; induction a as [|c a IH]; intros acc H; [reflexivity |].
  cbn in *. destruct (RefJson.digit_val c); [now apply IH | discriminate].
Qed.

Lemma digit_val_range (c : ascii) (d : Z) :
  RefJson.digit_val c = Some d -> 0 <= d <= 9.
Proof.
  unfold RefJson.digit_val.
  destruct ((48 <=? Py.code c) && (Py.code c <=? 57)) eqn:E; [| discriminate].
  intros [= <-]. apply andb_true_iff in E as [H1 H2].
  apply Z.leb_le in H1, H2. lia.
Qed.

Lemma digits_value_shift (s : string) (acc : Z) :
  all_digits s = true ->
  digits_value acc s
  = acc * 10 ^ Z.of_nat (String.length s) + digits_value 0 s.
Proof.
  revert acc; induction s as [|c s IH]; intros acc H.
  - cbn. lia.
  - cbn [digits_value all_digits String.length] in *.
    destruct (RefJson.digit_val c) as [d|]; [| discriminate].
    rewrite (IH (10 * acc + d)), (IH (10 * 0 + d)) by assumption.
    rewrite Nat2Z.inj_succ, Z.pow_succ_r by lia. ring.
Qed.

Lemma digits_value_nonneg (s : string) (acc : Z) :
  0 <= acc -> 0 <= digits_value acc s.
Proof.
  revert acc; induction s as [|c s IH]; intros acc H; [exact H |].
  cbn [digits_value]. destruct (RefJson.digit_val c) as [d|] eqn:E; [| exact H].
  apply IH. apply digit_val_range in E. lia.
Qed.

(** *** The digits of a number *)

Lemma uint_all_digits (d : Decimal.uint) :
  all_digits (NilEmpty.string_of_uint d) = true.
Proof. induction d; cbn; auto. Qed.

Lemma uint_value_acc (d : Decimal.uint) (acc : positive) :
  digits_value (Z.pos acc) (NilEmpty.string_of_uint d)
  = Z.pos (Pos.of_uint_acc d acc).
Proof.
  revert acc; induction d as [|d IH|d IH|d IH|d IH|d IH|d IH|d IH|d IH|d IH|d IH];
    intros acc;
    cbn [NilEmpty.string_of_uint digits_value Pos.of_uint_acc];
    [reflexivity | ..];
    match goal with
    | |- context [RefJson.digit_val ?c] =>
        let v := eval vm_compute in (RefJson.digit_val c) in
        change (RefJson.digit_val c) with v
    end;
    cbv beta iota; rewrite <- IH; f_equal; lia.
Qed.

Lemma uint_value (d : Decimal.uint) :
  digits_value 0 (NilEmpty.string_of_uint d) = Z.of_N (Pos.of_uint d).
Proof.
  induction d as [|d IH|d IH|d IH|d IH|d IH|d IH|d IH|d IH|d IH|d IH];
    cbn [NilEmpty.string_of_uint digits_value Pos.of_uint];
    [reflexivity | ..];
    match goal with
    | |- context [RefJson.digit_val ?c] =>
        let v := eval vm_compute in (RefJson.digit_val c) in
        change (RefJson.digit_val c) with v
    end;
    cbv beta iota; [exact IH | ..];
    cbn [Z.of_N]; rewrite <- uint_value_acc; reflexivity.
Qed.

(** The first digit of a number that is not 0 is not "0". *)
Lemma nzhead_head (d : Decimal.uint) :
  match Decimal.nzhead d with
  | Decimal.D0 _ => False
  | _ => True
  end.
Proof. induction d; cbn; auto. Qed.

Lemma to_uint_head (p : positive) :
  match Pos.to_uint p with
  | Decimal.Nil | Decimal.D0 _ => False
  | _ => True
  end.
Proof.
  pose proof (DecimalPos.Unsigned.to_of (Pos.to_uint p)) as H.
  rewrite DecimalPos.Unsigned.of_to in H. cbn [N.to_uint] in H.
  pose proof (DecimalPos.Unsigned.to_uint_nonzero p) as Hz.
  pose proof (DecimalPos.Unsigned.to_uint_nonnil p) as Hn.
  destruct (Pos.to_uint p) as [|d| | | | | | | | |] eqn:E; try exact I;
    [now elim Hn |].
  unfold Decimal.unorm in H. cbn [Decimal.nzhead] in H.
  pose proof (nzhead_head d) as Hh.
  destruct (Decimal.nzhead d); try discriminate; try contradiction;
    injection H as <-; now elim Hz.
Qed.

(** [int_repr] of a positive number: its digits, the first not "0". *)
Lemma int_repr_pos (p : positive) :
  exists c t,
    RefJson.int_repr (Z.pos p) = String c t /\
    leading c /\ all_digits t = true /\
    digits_value 0 (String c t) = Z.pos p.
Proof.
  unfold RefJson.int_repr. cbn [Z.to_int NilZero.string_of_int].
  pose proof (to_uint_head p) as Hh.
  pose proof (uint_value (Pos.to_uint p)) as Hv.
  pose proof (uint_all_digits (Pos.to_uint p)) as Hd.
  rewrite DecimalPos.Unsigned.of_to in Hv. cbn [Z.of_N] in Hv.
  unfold NilZero.string_of_uint.
  destruct (Pos.to_uint p) as [|d|d|d|d|d|d|d|d|d|d]; try contradiction;
    cbn [NilEmpty.string_of_uint] in *;
    eexists; eexists; (split; [reflexivity |]);
    (split; [eexists; split; [vm_compute; reflexivity | reflexivity] |]);
    (split; [exact Hd | exact Hv]).
Qed.

(** *** Numbers *)

Lemma stops_no_digit (rest : string) : stops rest = true -> no_digit rest.
Proof.
  destruct rest as [|c t]; [exact (fun _ => I) |]. cbn.
  intros H. apply orb_true_iff in H as [H | H]; apply Ascii.eqb_eq in H;
    subst c; reflexivity.
Qed.

Lemma stops_cases (rest : string) :
  stops rest = true ->
  rest = EmptyString \/
  (exists t, rest = String ","%char t) \/ (exists t, rest = String "010"%char t).
Proof.
  destruct rest as [|c t]; [now left |]. cbn. intros H. right.
  apply orb_true_iff in H as [H | H]; apply Ascii.eqb_eq in H; subst c;
    [left | right]; now exists t.
Qed.

Lemma leading_cases (c : ascii) :
  leading c ->
  (c = "1" \/ c = "2" \/ c = "3" \/ c = "4" \/ c = "5" \/
   c = "6" \/ c = "7" \/ c = "8" \/ c = "9")%char.
Proof.
  intros (d & Hd & Hpos).
  destruct c as [[] [] [] [] [] [] [] []]; vm_compute in Hd;
    try discriminate; injection Hd as <-; try lia; tauto.
Qed.

Lemma int_part_digits_ok (s : string) : int_part s -> all_digits s = true.
Proof.
  intros [|c t (d & Hd & _) Ht]; [reflexivity |]. cbn. now rewrite Hd.
Qed.

Lemma parse_number_int (sign : bool) (s rest : string) :
  int_part s -> stops rest = true ->
  RefJson.parse_number ((if sign then "-" else "") ++ s ++ rest)
  = Some (JInt (if sign then - digits_value 0 s else digits_value 0 s), rest).
Proof.
  intros Hs Hrest.
  pose proof (stops_no_digit _ Hrest) as Hnd.
  destruct Hs as [|c t Hc Ht].
  - destruct (stops_cases _ Hrest) as [-> | [[u ->] | [u ->]]];
      destruct sign; reflexivity.
  - assert (all_digits (String c t) = true) as Hall
        by (apply int_part_digits_ok; now constructor).
    pose proof (digits_spec (String c t) rest 0 0 Hall Hnd) as Hdig.
    cbn [String.length Z.of_nat Z.add] in Hdig.
    destruct (leading_cases c Hc) as [-> | [-> | [-> | [-> | [-> | [-> | [-> | [-> | ->]]]]]]]];
      destruct sign; unfold RefJson.parse_number; cbn [append] in *;
      rewrite Hdig.
    all: destruct (stops_cases _ Hrest) as [-> | [[u ->] | [u ->]]]; reflexivity.
Qed.

Lemma parse_number_decimal (sign : bool) (s f rest : string) :
  int_part s -> all_digits f = true -> f <> EmptyString -> stops rest = true ->
  RefJson.parse_number ((if sign then "-" else "") ++ s ++ "." ++ f ++ rest)
  = Some (JFloat (RefJson.decimal_float sign
                    (digits_value (digits_value 0 s) f)
                    (- Z.of_nat (String.length f))), rest).
Proof.
  intros Hs Hf Hne Hrest.
  pose proof (stops_no_digit _ Hrest) as Hnd.
  destruct f as [|x f]; [now elim Hne |]. clear Hne.
  assert (forall i, RefJson.digits i 0 (String x (f ++ rest))
                    = (digits_value i (String x f),
                       Z.pos (Pos.of_succ_nat (String.length f)), rest)) as Hfrac.
  { intros i. exact (digits_spec (String x f) rest i 0 Hf Hnd). }
  destruct Hs as [|c t Hc Ht].
  - destruct sign; unfold RefJson.parse_number; cbn [append];
      rewrite Hfrac;
      destruct (stops_cases _ Hrest) as [-> | [[u ->] | [u ->]]]; reflexivity.
  - assert (all_digits (String c t) = true) as Hall
        by (apply int_part_digits_ok; now constructor).
    pose proof (digits_spec (String c t) ("." ++ String x f ++ rest) 0 0 Hall
                  eq_refl) as Hdig.
    cbn [String.length Z.of_nat Z.add] in Hdig.
    destruct (leading_cases c Hc) as [-> | [-> | [-> | [-> | [-> | [-> | [-> | [-> | ->]]]]]]]];
      destruct sign; unfold RefJson.parse_number; cbn [append] in *;
      rewrite Hdig; cbv beta iota; rewrite Hfrac.
    all: destruct (stops_cases _ Hrest) as [-> | [[u ->] | [u ->]]]; reflexivity.
Qed.

(** ** Floats: a quotient that is a float is not rounded *)

Lemma Zdigits2_positive (x : Z) : 0 < x -> 2 ^ (Zdigits2 x - 1) <= x.
Proof.
  intros Hx. destruct x as [|p|p]; try lia. cbn [Zdigits2].
  rewrite digits2_pos_size.
  pose proof (Pos.size_le p) as H.
  apply Pos2Z.pos_le_pos in H. rewrite Pos2Z.inj_pow in H.
  replace (Z.pos (Pos.size p)) with (Z.pos (Pos.size p) - 1 + 1) in H by lia.
  rewrite Z.pow_add_r, Z.pow_1_r in H by lia. lia.
Qed.

Lemma Zdigits2_unique (x d : Z) :
  2 ^ (d - 1) <= x < 2 ^ d -> 0 < x -> Zdigits2 x = d.
Proof.
  intros [Hlo Hhi] Hx.
  pose proof (Zdigits2_positive x Hx) as Hlo'.
  pose proof (Zdigits2_lower x ltac:(lia)) as Hhi'.
  pose proof (Zdigits2_nonneg x) as Hn.
  destruct (Z.lt_trichotomy (Zdigits2 x) d) as [Hlt | [Heq | Hgt]];
    [| exact Heq |]; exfalso.
  - assert (2 ^ Zdigits2 x <= 2 ^ (d - 1)) by (apply Z.pow_le_mono_r; lia). lia.
  - assert (0 <= d).
    { destruct (Z.le_gt_cases 0 d) as [H | H]; [exact H |].
      rewrite (Z.pow_neg_r 2 d) in Hhi by lia. lia. }
    assert (2 ^ d <= 2 ^ (Zdigits2 x - 1)) by (apply Z.pow_le_mono_r; lia). lia.
Qed.

Lemma Zdigits2_shift (m : positive) (t : Z) :
  0 <= t -> Zdigits2 (Z.pos m * 2 ^ t) = Zdigits2 (Z.pos m) + t.
Proof.
  intros Ht.
  pose proof (Zdigits2_positive (Z.pos m) ltac:(lia)) as Hlo.
  pose proof (Zdigits2_lower (Z.pos m) ltac:(lia)) as Hhi.
  pose proof (Zdigits2_nonneg (Z.pos m)) as Hn.
  assert (0 < Zdigits2 (Z.pos m)) as Hpos by (cbn; lia).
  assert (0 < 2 ^ t) as Hpow by (apply Z.pow_pos_nonneg; lia).
  apply Zdigits2_unique; [| nia].
  replace (Zdigits2 (Z.pos m) + t - 1) with (Zdigits2 (Z.pos m) - 1 + t) by lia.
  rewrite !Z.pow_add_r by lia. nia.
Qed.

(** Shifting out bits that are all 0 loses nothing. *)
Lemma shr_exact (m : positive) (t e : Z) :
  0 <= t ->
  shr (Build_shr_record (Z.pos m * 2 ^ t) false false) e t
  = (Build_shr_record (Z.pos m) false false, e + t).
Proof.
  intros Ht. destruct t as [|p|p]; try lia.
  - cbn [shr]. rewrite Z.pow_0_r, Z.mul_1_r, Z.add_0_r. reflexivity.
  - cbn [shr]. f_equal.
    set (P := fun (k : Z) (x : shr_record) =>
                k <= Z.pos p ->
                x = Build_shr_record (Z.pos m * 2 ^ (Z.pos p - k)) false false).
    assert (forall k x, P k x -> P (k + 1) (shr_1 x)) as Hstep.
    { intros k x Hx Hk. rewrite (Hx ltac:(lia)).
      replace (Z.pos p - k) with (Z.pos p - (k + 1) + 1) by lia.
      rewrite Z.pow_add_r, Z.pow_1_r by lia.
      assert (0 < Z.pos m * 2 ^ (Z.pos p - (k + 1))) as Hy
          by (apply Z.mul_pos_pos; [lia | apply Z.pow_pos_nonneg; lia]).
      destruct (Z.pos m * 2 ^ (Z.pos p - (k + 1))) as [|y|y] eqn:E; try lia.
      replace (Z.pos m * (2 ^ (Z.pos p - (k + 1)) * 2)) with (2 * Z.pos y) by lia.
      reflexivity. }
    assert (P 0 (Build_shr_record (Z.pos m * 2 ^ Z.pos p) false false)) as Hinit
        by (intros _; now rewrite Z.sub_0_r).
    pose proof (iter_pos_invariant shr_1 P Hstep p 0 _ Hinit) as H.
    unfold P in H. cbn [Z.add] in H. rewrite H by apply Z.le_refl.
    now rewrite Z.sub_diag, Z.pow_0_r, Z.mul_1_r.
Qed.

(** Rounding a mantissa that is a float's, shifted left, gives the
    float. *)
Lemma binary_round_aux_shifted (sx : bool) (m : positive) (e e' : Z) :
  bounded prec emax m e = true -> e' <= e ->
  binary_round_aux prec emax sx (Z.pos m * 2 ^ (e - e')) e' loc_Exact
  = S754_finite sx m e.
Proof.
  intros Hb He. apply andb_true_iff in Hb as [Hcan Hle].
  apply Z.eqb_eq in Hcan.
  unfold binary_round_aux, shr_fexp.
  rewrite Zdigits2_shift by lia. cbn [Zdigits2 shr_record_of_loc].
  replace (Z.pos (digits2_pos m) + (e - e') + e')
    with (Z.pos (digits2_pos m) + e) by lia.
  rewrite Hcan, shr_exact by lia.
  cbn [shr_m loc_of_shr_record round_nearest_even Zdigits2 shr_record_of_loc].
  replace (e' + (e - e')) with e by lia.
  rewrite Hcan, Z.sub_diag. cbn [shr shr_m]. now rewrite Hle.
Qed.

(** A quotient of integers that is a float is that float. *)
Lemma fdiv_exact (sign : bool) (M m : positive) (e c : Z) :
  bounded prec emax m e = true -> 0 <= c ->
  Z.pos M * 2 ^ Z.max 0 (- e) = Z.pos m * 2 ^ Z.max 0 e * 10 ^ c ->
  fdiv (S754_finite sign M 0) (exact_int (10 ^ c)) = S754_finite sign m e.
Proof.
  intros Hb Hc Hval.
  pose proof Hb as Hb'. apply andb_true_iff in Hb' as [Hcan _].
  apply Z.eqb_eq in Hcan.
  assert (0 < 10 ^ c) as Hten by (apply Z.pow_pos_nonneg; lia).
  destruct (10 ^ c) as [|T|T] eqn:ET; try lia. cbn [exact_int].
  unfold fdiv, SFdiv, SFdiv_core_binary.
  set (a := Z.max 0 (- e)) in *. set (b := Z.max 0 e) in *.
  set (d1 := Zdigits2 (Z.pos M)). set (d2 := Zdigits2 (Z.pos T)).
  set (dm := Z.pos (digits2_pos m)) in *.
  assert (d1 - d2 <= dm + e) as Hd.
  { destruct (Z.le_gt_cases (d1 - d2) (dm + e)) as [H | H]; [exact H | exfalso].
    pose proof (Zdigits2_positive (Z.pos M) ltac:(lia)) as H1.
    pose proof (Zdigits2_lower (Z.pos T) ltac:(lia)) as H2.
    pose proof (Zdigits2_lower (Z.pos m) ltac:(lia)) as H3.
    pose proof (Zdigits2_nonneg (Z.pos T)) as N2.
    fold d1 in H1. fold d2 in H2. change (Zdigits2 (Z.pos m)) with dm in H3.
    assert (0 < d1) as P1 by (unfold d1; cbn; lia).
    assert (0 < dm) as Pm by (unfold dm; lia).
    assert (0 < 2 ^ a) as Pa by (apply Z.pow_pos_nonneg; unfold a; lia).
    assert (0 < 2 ^ b) as Pb by (apply Z.pow_pos_nonneg; unfold b; lia).
    assert (2 ^ (dm + d2 + b) <= 2 ^ (d1 - 1 + a)) as Hpow
        by (apply Z.pow_le_mono_r; unfold a, b in *; lia).
    rewrite !Z.pow_add_r in Hpow by (unfold a, b; lia).
    assert (Z.pos m * 2 ^ b * Z.pos T < 2 ^ dm * 2 ^ d2 * 2 ^ b) as Hlt.
    { assert (Z.pos m * Z.pos T < 2 ^ dm * 2 ^ d2) by nia. nia. }
    assert (2 ^ (d1 - 1) * 2 ^ a <= Z.pos M * 2 ^ a) by nia.
    lia. }
  set (e' := Z.min (fexp prec emax (d1 + 0 - (d2 + 0))) (0 - 0)).
  assert (e' <= 0) as He0 by (unfold e'; lia).
  assert (e' <= e) as Hee.
  { unfold e', fexp, emin in *. lia. }
  set (s := 0 - 0 - e').
  set (m' := match s with
             | 0 => Z.pos M
             | Z.pos _ => Z.shiftl (Z.pos M) s
             | Z.neg _ => 0
             end).
  assert (m' = Z.pos M * 2 ^ s) as Hm'.
  { unfold m'. destruct s as [|p|p] eqn:Es.
    - rewrite Z.pow_0_r. lia.
    - apply Z.shiftl_mul_pow2. lia.
    - unfold s in Es. lia. }
  assert (m' = Z.pos T * (Z.pos m * 2 ^ (e - e')) + 0) as Hexact.
  { rewrite Hm'. replace s with (a + (s - a)) by lia.
    replace (e - e') with (b + (s - a)) by (unfold a, b, s; lia).
    rewrite !Z.pow_add_r by (unfold a, b, s; lia).
    rewrite Z.mul_assoc, Hval. ring. }
  pose proof (Z_div_mod m' (Z.pos T) eq_refl) as Hdiv.
  destruct (Z.div_eucl m' (Z.pos T)) as [q r].
  destruct Hdiv as [Hq Hr].
  assert (q = Z.pos m * 2 ^ (e - e') /\ r = 0) as [-> ->].
  { apply (Z.div_mod_unique (Z.pos T)); [left; exact Hr | left; lia |].
    now rewrite <- Hq. }
  replace (new_location (Z.pos T) 0) with loc_Exact
    by (unfold new_location, new_location_even, new_location_odd;
        now destruct (Z.even (Z.pos T))).
  rewrite xorb_false_r. now apply binary_round_aux_shifted.
Qed.

(** ** Floats: the text of a float reads back as the float *)

Lemma zeros_length (j : nat) : String.length (RefJson.zeros j) = j.
Proof. induction j; cbn; auto. Qed.

Lemma zeros_digits (j : nat) : all_digits (RefJson.zeros j) = true.
Proof. induction j; cbn; auto. Qed.

Lemma zeros_value (j : nat) (acc : Z) :
  digits_value acc (RefJson.zeros j) = acc * 10 ^ Z.of_nat j.
Proof.
  revert acc; induction j as [|j IH]; intros acc.
  - cbn. lia.
  - cbn [RefJson.zeros digits_value].
    change (RefJson.digit_val "0") with (Some 0). cbv beta iota.
    rewrite IH, Nat2Z.inj_succ, Z.pow_succ_r by lia. ring.
Qed.

(** A string cut in two. *)
Lemma substring_cut (s : string) (n : nat) :
  (n <= String.length s)%nat ->
  substring 0 n s ++ substring n (String.length s - n) s = s /\
  String.length (substring 0 n s) = n.
Proof.
  revert n; induction s as [|c s IH]; intros n Hn.
  - destruct n; [now split | cbn in Hn; lia].
  - destruct n as [|n].
    + cbn [substring append String.length Nat.sub].
      split; [| reflexivity]. f_equal.
      destruct (IH 0%nat ltac:(lia)) as [H _].
      rewrite Nat.sub_0_r in H.
      destruct s; [reflexivity |]. cbn [substring append] in H. exact H.
    + cbn [substring append String.length Nat.sub] in *.
      destruct (IH n ltac:(lia)) as [H1 H2]. now rewrite H1, H2.
Qed.

(** [drop_zeros] takes zeros off the end, and nothing else. *)
Lemma drop_zeros_spec (t : string) :
  exists j, t = RefJson.drop_zeros t ++ RefJson.zeros j.
Proof.
  induction t as [|c t [j IH]]; [now exists 0%nat |].
  cbn [RefJson.drop_zeros].
  destruct (RefJson.drop_zeros t) as [|x t'] eqn:E.
  - cbn [append] in IH. destruct (Ascii.eqb c "0") eqn:Ec.
    + apply Ascii.eqb_eq in Ec. subst c. exists (S j). now rewrite IH.
    + exists j. now rewrite IH at 1.
  - exists j. cbn [append]. now rewrite IH at 1.
Qed.

Lemma fraction_digits_spec (f : string) :
  f <> EmptyString ->
  exists j, f = RefJson.fraction_digits f ++ RefJson.zeros j /\
            RefJson.fraction_digits f <> EmptyString.
Proof.
  destruct f as [|c t]; [intros H; now elim H | intros _].
  destruct (drop_zeros_spec t) as [j Hj]. exists j.
  cbn [RefJson.fraction_digits append]. split; [now rewrite Hj at 1 | discriminate].
Qed.

(** The text of a finite float: an integer part, a point and a
    fraction, of which the digits, read as an integer, are the float
    scaled by a power of 10. *)
Lemma decimal_repr_shape (m : positive) (e : Z) :
  exists s f j,
    RefJson.decimal_repr m e = s ++ "." ++ f /\
    int_part s /\ all_digits f = true /\ f <> EmptyString /\
    digits_value 0 (s ++ f) * 10 ^ Z.of_nat j * 2 ^ Z.max 0 (- e)
    = Z.pos m * 2 ^ Z.max 0 e
      * 10 ^ Z.of_nat (String.length f) * 10 ^ Z.of_nat j.
Proof.
  unfold RefJson.decimal_repr. destruct e as [|k|k].
  - (* an integer *)
    destruct (Z.pos m * 2 ^ 0) as [|P|P] eqn:EP; try lia.
    destruct (int_repr_pos P) as (c & t & -> & Hc & Ht & Hv).
    exists (String c t), "0", 0%nat.
    split; [reflexivity |]. split; [now constructor |].
    split; [reflexivity |]. split; [discriminate |].
    rewrite digits_value_app
      by (apply int_part_digits_ok; now constructor).
    rewrite Hv. cbn [digits_value].
    change (RefJson.digit_val "0") with (Some 0). cbv beta iota.
    cbn [String.length Z.of_nat Z.max Z.opp Z.compare]. lia.
  - assert (0 < 2 ^ Z.pos k) as Hk by (apply Z.pow_pos_nonneg; lia).
    destruct (Z.pos m * 2 ^ Z.pos k) as [|P|P] eqn:EP; try lia.
    destruct (int_repr_pos P) as (c & t & -> & Hc & Ht & Hv).
    exists (String c t), "0", 0%nat.
    split; [reflexivity |]. split; [now constructor |].
    split; [reflexivity |]. split; [discriminate |].
    rewrite digits_value_app
      by (apply int_part_digits_ok; now constructor).
    rewrite Hv. cbn [digits_value].
    change (RefJson.digit_val "0") with (Some 0). cbv beta iota.
    cbn [String.length Z.of_nat Z.opp Pos.of_succ_nat].
    rewrite Z.max_l, Z.max_r by lia. lia.
  - (* a fraction *)
    cbv zeta.
    assert (0 < 5 ^ Z.pos k) as Hk by (apply Z.pow_pos_nonneg; lia).
    destruct (Z.pos m * 5 ^ Z.pos k) as [|P|P] eqn:EP; try lia.
    destruct (int_repr_pos P) as (c & t & -> & Hc & Ht & Hv).
    set (ds := String c t) in *.
    set (k' := Pos.to_nat k).
    assert (0 < k')%nat as Hk' by (unfold k'; lia).
    set (ds' := RefJson.zeros (S k' - String.length ds) ++ ds).
    assert (all_digits ds = true) as Hds
        by (apply int_part_digits_ok; now constructor).
    assert (all_digits ds' = true) as Hds'
        by (unfold ds'; now rewrite all_digits_app, zeros_digits, Hds).
    assert (digits_value 0 ds' = Z.pos P) as Hv'.
    { unfold ds'. rewrite digits_value_app, zeros_value by apply zeros_digits.
      exact Hv. }
    assert (k' < String.length ds')%nat as Hlen.
    { unfold ds'. rewrite append_length, zeros_length. lia. }
    set (n := (String.length ds' - k')%nat).
    destruct (substring_cut ds' n ltac:(unfold n; lia)) as [Hcut Hn].
    replace (String.length ds' - n)%nat with k' in Hcut by (unfold n; lia).
    set (s := substring 0 n ds') in *. set (f := substring n k' ds') in *.
    assert (String.length f = k') as Hf.
    { apply (f_equal String.length) in Hcut. rewrite append_length, Hn in Hcut.
      unfold n in Hcut. lia. }
    assert (all_digits s = true /\ all_digits f = true) as [Hs Hfd].
    { rewrite <- Hcut, all_digits_app in Hds'. now apply andb_true_iff. }
    assert (int_part s) as Hint.
    { unfold s, n, ds'.
      destruct (Nat.le_gt_cases (String.length ds) k') as [Hle | Hgt].
      - replace (S k' - String.length ds)%nat
          with (S (k' - String.length ds)) by lia.
        cbn [RefJson.zeros append String.length].
        rewrite append_length, zeros_length.
        replace (S (k' - String.length ds + String.length ds) - k')%nat
          with 1%nat by lia.
        cbn [substring]. rewrite substring_none. constructor.
      - replace (S k' - String.length ds)%nat with 0%nat by lia.
        cbn [RefJson.zeros append]. unfold ds. cbn [String.length].
        replace (S (String.length t) - k')%nat
          with (S (String.length t - k')) by (unfold ds in Hgt; cbn in Hgt; lia).
        cbn [substring]. constructor; [exact Hc |].
        destruct (substring_cut t (String.length t - k') ltac:(lia)) as [H _].
        rewrite <- H, all_digits_app in Ht. now apply andb_true_iff in Ht. }
    assert (f <> EmptyString) as Hne
        by (intros E; rewrite E in Hf; cbn in Hf; lia).
    destruct (fraction_digits_spec f Hne) as (j & Hj & Hne').
    assert (all_digits (RefJson.fraction_digits f) = true) as Hfr.
    { rewrite Hj, all_digits_app in Hfd. now apply andb_true_iff in Hfd. }
    exists s, (RefJson.fraction_digits f), j.
    split; [reflexivity |]. repeat (split; [assumption |]).
    assert (digits_value 0 (s ++ RefJson.fraction_digits f) * 10 ^ Z.of_nat j
            = Z.pos P) as Hall.
    { rewrite <- Hv', <- Hcut.
      replace (s ++ f) with ((s ++ RefJson.fraction_digits f) ++ RefJson.zeros j)
        by (rewrite append_assoc; now rewrite <- Hj).
      rewrite (digits_value_app (s ++ RefJson.fraction_digits f)
                 (RefJson.zeros j)), zeros_value; [reflexivity |].
      now rewrite all_digits_app, Hs, Hfr. }
    rewrite Hall, <- EP.
    assert (Z.of_nat (String.length (RefJson.fraction_digits f)) + Z.of_nat j
            = Z.pos k) as Hsum.
    { apply (f_equal String.length) in Hj.
      rewrite append_length, zeros_length, Hf in Hj. unfold k' in Hj. lia. }
    assert (10 ^ Z.of_nat (String.length (RefJson.fraction_digits f))
            * 10 ^ Z.of_nat j = 5 ^ Z.pos k * 2 ^ Z.pos k) as Hten.
    { rewrite <- Z.pow_add_r, Hsum by lia. now rewrite <- Z.pow_mul_l. }
    change (Z.max 0 (- Z.neg k)) with (Z.pos k).
    change (Z.max 0 (Z.neg k)) with 0.
    rewrite Z.pow_0_r, <- (Z.mul_assoc (Z.pos m * 1)), Hten. ring.
Qed.

Lemma parse_decimal_repr (sign : bool) (m : positive) (e : Z) (rest : string) :
  bounded prec emax m e = true -> stops rest = true ->
  RefJson.parse_number
    ((if sign then "-" else "") ++ RefJson.decimal_repr m e ++ rest)
  = Some (JFloat (S754_finite sign m e), rest).
Proof.
  intros Hb Hrest.
  destruct (decimal_repr_shape m e) as (s & f & j & -> & Hs & Hf & Hne & Hval).
  rewrite (append_assoc s), (append_assoc ".").
  rewrite parse_number_decimal by assumption.
  rewrite <- digits_value_app by now apply int_part_digits_ok.
  assert (0 < 10 ^ Z.of_nat j) as Hj by (apply Z.pow_pos_nonneg; lia).
  assert (0 < 2 ^ Z.max 0 (- e)) as Ha by (apply Z.pow_pos_nonneg; lia).
  assert (0 < 2 ^ Z.max 0 e) as Hb' by (apply Z.pow_pos_nonneg; lia).
  assert (0 < 10 ^ Z.of_nat (String.length f)) as Hc
      by (apply Z.pow_pos_nonneg; lia).
  pose proof (digits_value_nonneg (s ++ f) 0 (Z.le_refl 0)) as Hnn.
  destruct (digits_value 0 (s ++ f)) as [|M|M] eqn:EM; try lia; try nia.
  destruct f as [|x f]; [now elim Hne |].
  unfold RefJson.decimal_float.
  replace (0 <=? - Z.of_nat (String.length (String x f))) with false
    by (symmetry; apply Z.leb_gt; cbn [String.length]; lia).
  rewrite Z.opp_involutive. do 3 f_equal.
  apply fdiv_exact; [assumption | lia |].
  apply (Z.mul_reg_r _ _ (10 ^ Z.of_nat j)); [lia |].
  rewrite <- Hval. ring.
Qed.

(** The text of a number begins with a digit. *)
Lemma int_part_head (s : string) :
  int_part s ->
  exists c t d, s = String c t /\ RefJson.digit_val c = Some d.
Proof.
  intros [|c t (d & Hd & _) _]; [now exists "0"%char, EmptyString, 0 |].
  now exists c, t, d.
Qed.

(** ** Values *)

Lemma skip_ws_start (c : ascii) (t : string) :
  value_start c = true -> RefJson.skip_ws (String c t) = String c t.
Proof.
  destruct c as [[] [] [] [] [] [] [] []]; intros H;
    try discriminate H; reflexivity.
Qed.

Lemma skip_ws_spaces (k : nat) (s : string) :
  RefJson.skip_ws (RefJson.spaces k ++ s) = RefJson.skip_ws s.
Proof. induction k as [|k IH]; [reflexivity | exact IH]. Qed.

Lemma skip_ws_indent (k : nat) (s : string) :
  RefJson.skip_ws ((nl ++ RefJson.spaces k) ++ s) = RefJson.skip_ws s.
Proof. rewrite append_assoc. cbn. apply skip_ws_spaces. Qed.

Lemma digit_start (c : ascii) (d : Z) :
  RefJson.digit_val c = Some d -> value_start c = true.
Proof.
  destruct c as [[] [] [] [] [] [] [] []]; intros H;
    try discriminate H; reflexivity.
Qed.

(** A text that begins with a digit, or with "-" and a digit, is read as
    a number. *)
Lemma parse_value_digit (fuel : nat) (c : ascii) (t : string) (d : Z) :
  RefJson.digit_val c = Some d ->
  RefJson.parse_value (S fuel) (String c t) = RefJson.parse_number (String c t).
Proof.
  destruct c as [[] [] [] [] [] [] [] []]; intros H;
    try discriminate H; reflexivity.
Qed.

Lemma parse_value_minus (fuel : nat) (c : ascii) (t : string) (d : Z) :
  RefJson.digit_val c = Some d ->
  RefJson.parse_value (S fuel) (String "-" (String c t))
  = RefJson.parse_number (String "-" (String c t)).
Proof.
  destruct c as [[] [] [] [] [] [] [] []]; intros H;
    try discriminate H; reflexivity.
Qed.

Lemma parse_value_signed (fuel : nat) (sign : bool) (s rest : string) :
  int_part s ->
  RefJson.parse_value (S fuel) ((if sign then "-" else "") ++ s ++ rest)
  = RefJson.parse_number ((if sign then "-" else "") ++ s ++ rest).
Proof.
  intros Hs. destruct (int_part_head s Hs) as (c & t & d & -> & Hd).
  destruct sign; cbn [append].
  - now apply (parse_value_minus fuel c _ d).
  - now apply (parse_value_digit fuel c _ d).
Qed.

Lemma parse_int (fuel : nat) (z : Z) (rest : string) :
  stops rest = true ->
  RefJson.parse_value (S fuel) (RefJson.int_repr z ++ rest) = Some (JInt z, rest).
Proof.
  intros Hrest.
  assert (forall (sign : bool) (s : string),
             int_part s ->
             RefJson.parse_value (S fuel) ((if sign then "-" else "") ++ s ++ rest)
             = Some (JInt (if sign then - digits_value 0 s else digits_value 0 s),
                     rest)) as H.
  { intros sign s Hs. rewrite parse_value_signed by assumption.
    now apply parse_number_int. }
  destruct z as [|p|p].
  - exact (H false "0" int_part_zero).
  - destruct (int_repr_pos p) as (c & t & E & Hc & Ht & Hv). rewrite E, <- Hv.
    exact (H false (String c t) (int_part_digits c t Hc Ht)).
  - destruct (int_repr_pos p) as (c & t & E & Hc & Ht & Hv).
    change (RefJson.int_repr (Z.neg p)) with ("-" ++ RefJson.int_repr (Z.pos p)).
    rewrite E, append_assoc.
    change (Z.neg p) with (- Z.pos p). rewrite <- Hv.
    exact (H true (String c t) (int_part_digits c t Hc Ht)).
Qed.

Lemma substring_whole (n : nat) (s : string) :
  (String.length s <= n)%nat -> substring 0 n s = s.
Proof.
  revert n; induction s as [|c s IH]; intros n Hn.
  - now destruct n.
  - destruct n as [|n]; [cbn in Hn; lia |]. cbn in *. rewrite IH; [reflexivity | lia].
Qed.

Lemma keyword_spec (k : string) (v : json) (rest : string) :
  RefJson.keyword k v (k ++ rest) = Some (v, rest).
Proof.
  unfold RefJson.keyword.
  replace (Py.startswith k (k ++ rest)) with true
    by (symmetry; apply startswith_iff; now exists rest).
  rewrite substring_skip, substring_whole; [reflexivity |].
  rewrite append_length. lia.
Qed.

Lemma parse_float (fuel : nat) (f : float) (rest : string) :
  well_formed (JFloat f) = true -> stops rest = true ->
  RefJson.parse_value (S fuel) (RefJson.float_repr f ++ rest)
  = Some (JFloat f, rest).
Proof.
  intros Hf Hrest. destruct f as [s | s | | s m e]; cbn [well_formed] in Hf.
  - (* zero *)
    assert (RefJson.float_repr (S754_zero s)
            = (if s then "-" else "") ++ "0" ++ "." ++ "0") as ->
        by now destruct s.
    rewrite !append_assoc.
    rewrite (parse_value_signed fuel s "0") by constructor.
    rewrite (parse_number_decimal s "0" "0")
      by (constructor || assumption || discriminate).
    reflexivity.
  - (* an infinity *)
    destruct s.
    + change (RefJson.parse_value (S fuel) (RefJson.float_repr (S754_infinity true) ++ rest))
        with (RefJson.keyword "-Infinity" (JFloat (S754_infinity true))
                ("-Infinity" ++ rest)).
      apply keyword_spec.
    + change (RefJson.parse_value (S fuel) (RefJson.float_repr (S754_infinity false) ++ rest))
        with (RefJson.keyword "Infinity" (JFloat (S754_infinity false))
                ("Infinity" ++ rest)).
      apply keyword_spec.
  - discriminate.
  - (* a number *)
    assert (RefJson.float_repr (S754_finite s m e)
            = (if s then "-" else "") ++ RefJson.decimal_repr m e) as ->
        by now destruct s.
    rewrite append_assoc.
    destruct (decimal_repr_shape m e) as (i & fr & j & E & Hi & _).
    pose proof (parse_decimal_repr s m e rest Hf Hrest) as Hp.
    rewrite E in *. rewrite (append_assoc i).
    rewrite (parse_value_signed fuel s i) by assumption.
    now rewrite <- (append_assoc i).
Qed.

(** *** Strings *)

Lemma parse_chars_escape_char (c : ascii) (t r rest : string) :
  RefJson.parse_chars t = Some (r, rest) ->
  RefJson.parse_chars (RefJson.escape_char c ++ t) = Some (String c r, rest).
Proof.
  intros H.
  destruct c as [[] [] [] [] [] [] [] []]; simpl; rewrite H; reflexivity.
Qed.

Lemma parse_chars_escape (s rest : string) :
  RefJson.parse_chars (RefJson.escape s ++ String RefJson.dquote rest)
  = Some (s, rest).
Proof.
  induction s as [|c s IH]; [reflexivity |].
  cbn [RefJson.escape]. rewrite append_assoc.
  now apply parse_chars_escape_char.
Qed.

Lemma parse_string (fuel : nat) (s rest : string) :
  RefJson.parse_value (S fuel) (RefJson.quote s ++ rest) = Some (JStr s, rest).
Proof.
  unfold RefJson.quote. cbn [append]. rewrite append_assoc. cbn [append].
  change (RefJson.parse_value (S fuel)
            (String RefJson.dquote (RefJson.escape s ++ String RefJson.dquote rest)))
    with (match RefJson.parse_chars
                  (RefJson.escape s ++ String RefJson.dquote rest) with
          | Some (str, rest') => Some (JStr str, rest')
          | None => None
          end).
  now rewrite parse_chars_escape.
Qed.

(** *** Arrays and objects *)

Lemma json_induction (P : json -> Prop) :
  P JNull -> (forall b, P (JBool b)) -> (forall z, P (JInt z)) ->
  (forall f, P (JFloat f)) -> (forall s, P (JStr s)) ->
  (forall l, Forall P l -> P (JArr l)) ->
  (forall m, Forall (fun kv : string * json => P (snd kv)) m -> P (JObj m)) ->
  forall v, P v.
Proof.
  intros Hnull Hbool Hint Hfloat Hstr Harr Hobj.
  fix IH 1.
  intros [| b | z | f | s | l | m];
    [apply Hnull | apply Hbool | apply Hint | apply Hfloat | apply Hstr | |].
  - apply Harr. revert l. fix IHl 1. intros [|x l]; constructor.
    + apply IH.
    + apply IHl.
  - apply Hobj. revert m. fix IHm 1. intros [|[k x] m]; constructor.
    + apply IH.
    + apply IHm.
Qed.

Lemma dumps_start (level : nat) (v : json) :
  exists c t, RefJson.dumps_at level v = String c t /\ value_start c = true.
Proof.
  destruct v as [| [] | z | f | s | [|x l] | [|kv m]];
    try (eexists; eexists; split; [reflexivity | reflexivity]).
  - cbn [RefJson.dumps_at]. destruct z as [|p|p].
    + now exists "0"%char, EmptyString.
    + destruct (int_repr_pos p) as (c & t & E & (d & Hd & _) & _).
      exists c, t. split; [exact E | now apply (digit_start c d)].
    + now exists "-"%char, (RefJson.int_repr (Z.pos p)).
  - cbn [RefJson.dumps_at].
    destruct f as [[] | [] | | [] m e];
      try (eexists; eexists; split; [reflexivity | reflexivity]).
    destruct (decimal_repr_shape m e) as (i & fr & j & E & Hi & _).
    destruct (int_part_head i Hi) as (c & t & d & -> & Hd).
    exists c, (t ++ "." ++ fr). split; [| now apply (digit_start c d)].
    cbn [RefJson.float_repr]. now rewrite E.
Qed.

(** White space before a value is passed over. *)
Lemma parse_value_ws (fuel : nat) (s s' : string) :
  RefJson.skip_ws s = RefJson.skip_ws s' ->
  RefJson.parse_value fuel s = RefJson.parse_value fuel s'.
Proof.
  intros H. destruct fuel as [|fuel]; [reflexivity |].
  simpl. now rewrite H.
Qed.

Lemma parse_members_ws (fuel : nat) (acc : dict) (s s' : string) :
  RefJson.skip_ws s = RefJson.skip_ws s' ->
  RefJson.parse_members fuel acc s = RefJson.parse_members fuel acc s'.
Proof.
  intros H. destruct fuel as [|fuel]; [reflexivity |].
  simpl. now rewrite H.
Qed.

(** An array that is not empty: its items are read. *)
Lemma parse_value_array (fuel : nat) (t : string) (c : ascii) (t' : string) :
  RefJson.skip_ws t = String c t' -> value_start c = true ->
  RefJson.parse_value (S fuel) (String "[" t)
  = match RefJson.parse_items fuel t with
    | Some (l, rest) => Some (JArr l, rest)
    | None => None
    end.
Proof.
  intros H Hc. simpl. rewrite H.
  destruct c as [[] [] [] [] [] [] [] []]; try discriminate Hc; reflexivity.
Qed.

Lemma parse_value_object (fuel : nat) (t : string) (t' : string) :
  RefJson.skip_ws t = String RefJson.dquote t' ->
  RefJson.parse_value (S fuel) (String "{" t)
  = match RefJson.parse_members fuel [] t with
    | Some (m, rest) => Some (JObj m, rest)
    | None => None
    end.
Proof. intros H. simpl. now rewrite H. Qed.

Lemma parse_items_last (fuel : nat) (s r rest : string) (v : json) :
  RefJson.parse_value fuel s = Some (v, r) ->
  RefJson.skip_ws r = String "]" rest ->
  RefJson.parse_items (S fuel) s = Some ([v], rest).
Proof. intros H1 H2. simpl. now rewrite H1, H2. Qed.

Lemma parse_items_more
    (fuel : nat) (s r t rest : string) (v : json) (l : list json) :
  RefJson.parse_value fuel s = Some (v, r) ->
  RefJson.skip_ws r = String "," t ->
  RefJson.parse_items fuel t = Some (l, rest) ->
  RefJson.parse_items (S fuel) s = Some (v :: l, rest).
Proof. intros H1 H2 H3. simpl. rewrite H1, H2. simpl. now rewrite H3. Qed.

Lemma parse_members_last
    (fuel : nat) (acc : dict) (s t r1 r rest k : string) (v : json) :
  RefJson.skip_ws s = String RefJson.dquote t ->
  RefJson.parse_chars t = Some (k, String ":" r1) ->
  RefJson.parse_value fuel r1 = Some (v, r) ->
  RefJson.skip_ws r = String "}" rest ->
  RefJson.parse_members (S fuel) acc s = Some (dict_set k v acc, rest).
Proof.
  intros H1 H2 H3 H4. simpl. rewrite H1. simpl. rewrite H2. simpl.
  now rewrite H3, H4.
Qed.

Lemma parse_members_more
    (fuel : nat) (acc m : dict) (s t r1 r u rest k : string) (v : json) :
  RefJson.skip_ws s = String RefJson.dquote t ->
  RefJson.parse_chars t = Some (k, String ":" r1) ->
  RefJson.parse_value fuel r1 = Some (v, r) ->
  RefJson.skip_ws r = String "," u ->
  RefJson.parse_members fuel (dict_set k v acc) u = Some (m, rest) ->
  RefJson.parse_members (S fuel) acc s = Some (m, rest).
Proof.
  intros H1 H2 H3 H4 H5. simpl. rewrite H1. simpl. rewrite H2. simpl.
  rewrite H3, H4. simpl. exact H5.
Qed.

Lemma size_items (x : json) (l : list json) :
  size (JArr (x :: l)) = (S (size x) + size (JArr l))%nat.
Proof. cbn [size fold_right]. lia. Qed.

Lemma size_members (k : string) (x : json) (m : dict) :
  size (JObj ((k, x) :: m)) = (S (size x) + size (JObj m))%nat.
Proof. cbn [size fold_right snd]. lia. Qed.

Lemma size_positive (v : json) : (0 < size v)%nat.
Proof. destruct v; cbn; lia. Qed.

Lemma dict_set_fresh (k : string) (v : json) (acc : dict) :
  existsb (String.eqb k) (map fst acc) = false ->
  dict_set k v acc = (acc ++ [(k, v)])%list.
Proof.
  induction acc as [|[k' v'] acc IH]; [reflexivity |].
  cbn [map fst existsb dict_set app]. intros H.
  apply orb_false_iff in H as [Hk H]. rewrite Hk. now rewrite IH.
Qed.

Lemma distinct_middle (a : list string) (k : string) (b : list string) :
  distinct (a ++ k :: b) = true -> existsb (String.eqb k) a = false.
Proof.
  induction a as [|x a IH]; [reflexivity |].
  cbn [app distinct existsb]. intros H.
  apply andb_true_iff in H as [Hx H]. rewrite (IH H), orb_false_r.
  apply negb_true_iff in Hx. rewrite existsb_app in Hx.
  apply orb_false_iff in Hx as [_ Hx]. cbn [existsb] in Hx.
  apply orb_false_iff in Hx as [Hx _]. now rewrite String.eqb_sym.
Qed.

Section Indented.

(** The white space before an item and before the closing bracket. *)
Variables (d : json -> string) (ind out : string).

Hypothesis ind_ws : forall s, RefJson.skip_ws (ind ++ s) = RefJson.skip_ws s.
Hypothesis out_ws : forall s, RefJson.skip_ws (out ++ s) = RefJson.skip_ws s.
Hypothesis out_stops : forall s, stops (out ++ s) = true.

Lemma parse_items_text (l : list json) :
  l <> [] -> Forall (reads_back d) l ->
  forall fuel rest,
    (size (JArr l) <= fuel)%nat ->
    RefJson.parse_items fuel
      (ind ++ RefJson.join ("," ++ ind) (map d l) ++ out ++ "]" ++ rest)
    = Some (l, rest).
Proof.
  induction l as [|x l IH]; [intros H; now elim H |].
  intros _ Hall fuel rest Hfuel.
  inversion Hall as [|? ? Hx Hl]; subst.
  rewrite size_items in Hfuel. pose proof (size_positive (JArr l)) as Hpos.
  destruct fuel as [|fuel]; [lia |].
  destruct l as [|y l].
  - cbn [map RefJson.join].
    apply (parse_items_last fuel _ (out ++ "]" ++ rest)).
    + rewrite (parse_value_ws fuel _ (d x ++ out ++ "]" ++ rest)) by apply ind_ws.
      apply Hx; [cbn in *; lia | apply out_stops].
    + now rewrite out_ws.
  - change (RefJson.join ("," ++ ind) (map d (x :: y :: l)))
      with (d x ++ ("," ++ ind) ++ RefJson.join ("," ++ ind) (map d (y :: l))).
    rewrite !append_assoc.
    apply (parse_items_more fuel _
             ("," ++ ind ++ RefJson.join ("," ++ ind) (map d (y :: l))
                  ++ out ++ "]" ++ rest)
             (ind ++ RefJson.join ("," ++ ind) (map d (y :: l))
                  ++ out ++ "]" ++ rest)).
    + rewrite (parse_value_ws fuel _
                 (d x ++ "," ++ ind ++ RefJson.join ("," ++ ind) (map d (y :: l))
                      ++ out ++ "]" ++ rest)) by apply ind_ws.
      apply Hx; [lia | reflexivity].
    + reflexivity.
    + apply IH; [discriminate | assumption | lia].
Qed.

Lemma parse_members_text (m : dict) :
  m <> [] -> Forall (fun kv : string * json => reads_back d (snd kv)) m ->
  forall fuel acc rest,
    distinct (map fst acc ++ map fst m) = true ->
    (size (JObj m) <= fuel)%nat ->
    RefJson.parse_members fuel acc
      (ind ++ RefJson.join ("," ++ ind)
                (map (fun kv : string * json =>
                        let (k, x) := kv in RefJson.quote k ++ ": " ++ d x) m)
           ++ out ++ "}" ++ rest)
    = Some ((acc ++ m)%list, rest).
Proof.
  induction m as [|[k x] m IH]; [intros H; now elim H |].
  intros _ Hall fuel acc rest Hkeys Hfuel.
  inversion Hall as [|? ? Hx Hm]; subst. cbn [snd] in Hx.
  rewrite size_members in Hfuel. pose proof (size_positive (JObj m)) as Hpos.
  destruct fuel as [|fuel]; [lia |].
  pose proof (distinct_middle _ _ _ Hkeys) as Hfresh.
  assert (forall tail,
             (RefJson.quote k ++ ": " ++ d x) ++ tail
             = String RefJson.dquote
                 (RefJson.escape k
                    ++ String RefJson.dquote
                         (String ":" (String " " (d x ++ tail))))) as Htext.
  { intros tail. unfold RefJson.quote. cbn [append].
    now rewrite !append_assoc. }
  destruct m as [|kv m].
  - cbn [map RefJson.join]. rewrite <- (dict_set_fresh k x acc Hfresh).
    apply (parse_members_last fuel acc _
             (RefJson.escape k
                ++ String RefJson.dquote
                     (String ":" (String " " (d x ++ out ++ "}" ++ rest))))
             (String " " (d x ++ out ++ "}" ++ rest))
             (out ++ "}" ++ rest)).
    + now rewrite ind_ws, Htext.
    + apply parse_chars_escape.
    + rewrite (parse_value_ws fuel _ (d x ++ out ++ "}" ++ rest)) by reflexivity.
      apply Hx; [cbn in *; lia | apply out_stops].
    + now rewrite out_ws.
  - change (RefJson.join ("," ++ ind)
              (map (fun kv : string * json =>
                      let (k, x) := kv in RefJson.quote k ++ ": " ++ d x)
                 ((k, x) :: kv :: m)))
      with ((RefJson.quote k ++ ": " ++ d x) ++ ("," ++ ind)
            ++ RefJson.join ("," ++ ind)
                 (map (fun kv : string * json =>
                         let (k, x) := kv in RefJson.quote k ++ ": " ++ d x)
                    (kv :: m))).
    rewrite (append_assoc (RefJson.quote k ++ ": " ++ d x)).
    rewrite (append_assoc ("," ++ ind)), (append_assoc ",").
    set (more := ind ++ RefJson.join ("," ++ ind)
                   (map (fun kv : string * json =>
                           let (k, x) := kv in RefJson.quote k ++ ": " ++ d x)
                      (kv :: m)) ++ out ++ "}" ++ rest).
    replace (acc ++ (k, x) :: kv :: m)%list
      with ((acc ++ [(k, x)]) ++ kv :: m)%list by now rewrite <- app_assoc.
    rewrite <- (dict_set_fresh k x acc Hfresh).
    apply (parse_members_more fuel acc _ _
             (RefJson.escape k
                ++ String RefJson.dquote
                     (String ":" (String " " (d x ++ "," ++ more))))
             (String " " (d x ++ "," ++ more))
             ("," ++ more) more rest k x).
    + now rewrite ind_ws, Htext.
    + apply parse_chars_escape.
    + rewrite (parse_value_ws fuel _ (d x ++ "," ++ more)) by reflexivity.
      apply Hx; [lia | reflexivity].
    + reflexivity.
    + apply IH; [discriminate | assumption | | lia].
      rewrite (dict_set_fresh k x acc Hfresh), map_app. cbn [map fst].
      now rewrite <- app_assoc.
Qed.

End Indented.

(** *** Every well-formed value *)

Lemma dumps_at_array (level : nat) (x : json) (l : list json) :
  RefJson.dumps_at level (JArr (x :: l))
  = "[" ++ (nl ++ RefJson.spaces (2 * S level))
        ++ RefJson.join ("," ++ nl ++ RefJson.spaces (2 * S level))
             (map (RefJson.dumps_at (S level)) (x :: l))
        ++ (nl ++ RefJson.spaces (2 * level)) ++ "]".
Proof. reflexivity. Qed.

Lemma dumps_at_object (level : nat) (kv : string * json) (m : dict) :
  RefJson.dumps_at level (JObj (kv :: m))
  = "{" ++ (nl ++ RefJson.spaces (2 * S level))
        ++ RefJson.join ("," ++ nl ++ RefJson.spaces (2 * S level))
             (map (fun kv : string * json =>
                     let (k, x) := kv in
                     RefJson.quote k ++ ": " ++ RefJson.dumps_at (S level) x)
                (kv :: m))
        ++ (nl ++ RefJson.spaces (2 * level)) ++ "}".
Proof. reflexivity. Qed.

Lemma join_head (sep a : string) (l : list string) :
  exists u, RefJson.join sep (a :: l) = a ++ u.
Proof.
  destruct l as [|b l].
  - exists EmptyString. cbn. clear. induction a as [|c a IH]; [reflexivity |].
    cbn. now rewrite <- IH.
  - now exists (sep ++ RefJson.join sep (b :: l)).
Qed.

Lemma stops_indent (k : nat) (s : string) :
  stops ((nl ++ RefJson.spaces k) ++ s) = true.
Proof. reflexivity. Qed.

Lemma dumps_reads_back (v : json) :
  well_formed v = true -> forall level, reads_back (RefJson.dumps_at level) v.
Proof.
  induction v as [| b | z | f | s | l IH | m IH] using json_induction;
    intros Hv level fuel rest Hfuel Hrest;
    (destruct fuel as [|fuel]; [inversion Hfuel |]).
  - exact (keyword_spec "null" JNull rest).
  - destruct b.
    + exact (keyword_spec "true" (JBool true) rest).
    + exact (keyword_spec "false" (JBool false) rest).
  - now apply parse_int.
  - now apply parse_float.
  - apply parse_string.
  - destruct l as [|x l]; [reflexivity |].
    rewrite dumps_at_array.
    set (ind := nl ++ RefJson.spaces (2 * S level)).
    set (out := nl ++ RefJson.spaces (2 * level)).
    set (d := RefJson.dumps_at (S level)).
    replace (("[" ++ ind ++ RefJson.join ("," ++ ind) (map d (x :: l))
                  ++ out ++ "]") ++ rest)
      with (String "["
              (ind ++ RefJson.join ("," ++ ind) (map d (x :: l))
                   ++ out ++ "]" ++ rest))
      by (cbn [append]; now rewrite !append_assoc).
    destruct (dumps_start (S level) x) as (c & t & Ec & Hc).
    destruct (join_head ("," ++ ind) (d x) (map d l)) as (u & Eu).
    rewrite (parse_value_array fuel _ c
               (t ++ u ++ out ++ "]" ++ rest)); [| | exact Hc].
    + rewrite (parse_items_text d ind out
                 (fun s => skip_ws_indent _ s) (fun s => skip_ws_indent _ s)
                 (fun s => stops_indent _ s) (x :: l)); [reflexivity | | |].
      * discriminate.
      * cbn [well_formed] in Hv. rewrite forallb_forall in Hv.
        rewrite Forall_forall in IH |- *. intros y Hy.
        exact (IH y Hy (Hv y Hy) (S level)).
      * lia.
    + unfold ind at 1. rewrite skip_ws_indent. cbn [map]. rewrite Eu.
      unfold d at 1. rewrite Ec. cbn [append]. rewrite append_assoc.
      now apply skip_ws_start.
  - destruct m as [|[k x] m]; [reflexivity |].
    rewrite dumps_at_object.
    set (ind := nl ++ RefJson.spaces (2 * S level)).
    set (out := nl ++ RefJson.spaces (2 * level)).
    set (d := RefJson.dumps_at (S level)).
    set (member := fun kv : string * json =>
                     let (k, x) := kv in RefJson.quote k ++ ": " ++ d x).
    replace (("{" ++ ind ++ RefJson.join ("," ++ ind) (map member ((k, x) :: m))
                  ++ out ++ "}") ++ rest)
      with (String "{"
              (ind ++ RefJson.join ("," ++ ind) (map member ((k, x) :: m))
                   ++ out ++ "}" ++ rest))
      by (cbn [append]; now rewrite !append_assoc).
    destruct (join_head ("," ++ ind) (member (k, x)) (map member m)) as (u & Eu).
    cbn [well_formed] in Hv. apply andb_true_iff in Hv as [Hv Hkeys].
    rewrite (parse_value_object fuel _
               ((RefJson.escape k ++ String RefJson.dquote (": " ++ d x))
                  ++ u ++ out ++ "}" ++ rest)).
    + rewrite (parse_members_text d ind out
                 (fun s => skip_ws_indent _ s) (fun s => skip_ws_indent _ s)
                 (fun s => stops_indent _ s) ((k, x) :: m)).
      * reflexivity.
      * discriminate.
      * rewrite forallb_forall in Hv.
        rewrite Forall_forall in IH |- *. intros y Hy.
        exact (IH y Hy (Hv y Hy) (S level)).
      * exact Hkeys.
      * lia.
    + unfold ind at 1. rewrite skip_ws_indent. cbn [map]. rewrite Eu.
      unfold member at 1, RefJson.quote. cbn [append].
      rewrite !append_assoc. reflexivity.
Qed.

(** The text is at least as long as the value is big, so the decoder,
    which may go as deep as the text is long, reads it to the end. *)
Lemma size_join (d : json -> string) (sep : string) (l : list json) :
  (0 < String.length sep)%nat ->
  Forall (fun x => (size x <= String.length (d x))%nat) l ->
  (size (JArr l) <= 2 + String.length (RefJson.join sep (map d l)))%nat.
Proof.
  intros Hsep Hall. induction Hall as [|x l Hx Hl IH]; [cbn; lia |].
  rewrite size_items. destruct l as [|y l].
  - cbn [map RefJson.join]. cbn [size fold_right]. lia.
  - change (RefJson.join sep (map d (x :: y :: l)))
      with (d x ++ sep ++ RefJson.join sep (map d (y :: l))).
    rewrite !append_length. lia.
Qed.

Lemma size_join_members
    (d : string * json -> string) (sep : string) (m : dict) :
  (0 < String.length sep)%nat ->
  Forall (fun kv => (size (snd kv) <= String.length (d kv))%nat) m ->
  (size (JObj m) <= 2 + String.length (RefJson.join sep (map d m)))%nat.
Proof.
  intros Hsep Hall. induction Hall as [|[k x] m Hx Hm IH]; [cbn; lia |].
  rewrite size_members. cbn [snd] in Hx. destruct m as [|kv m].
  - cbn [map RefJson.join]. cbn [size fold_right]. lia.
  - change (RefJson.join sep (map d ((k, x) :: kv :: m)))
      with (d (k, x) ++ sep ++ RefJson.join sep (map d (kv :: m))).
    rewrite !append_length. lia.
Qed.

Lemma size_dumps (v : json) (level : nat) :
  (size v <= String.length (RefJson.dumps_at level v))%nat.
Proof.
  revert level.
  induction v as [| b | z | f | s | l IH | m IH] using json_induction;
    intros level.
  1-5: match goal with
       | |- (size ?v <= _)%nat =>
           destruct (dumps_start level v) as (c & t & -> & _); cbn; lia
       end.
  - destruct l as [|x l]; [cbn; lia |].
    rewrite dumps_at_array, !append_length.
    pose proof (size_join (RefJson.dumps_at (S level))
                  ("," ++ nl ++ RefJson.spaces (2 * S level)) (x :: l)) as H.
    cbn [String.length append] in H |- *.
    specialize (H ltac:(lia)).
    assert (Forall (fun x => (size x <= String.length (RefJson.dumps_at (S level) x))%nat)
              (x :: l)) as Hall
        by (rewrite Forall_forall in IH |- *; intros y Hy; exact (IH y Hy (S level))).
    specialize (H Hall). lia.
  - destruct m as [|kv m]; [cbn; lia |].
    rewrite dumps_at_object, !append_length.
    pose proof (size_join_members
                  (fun kv : string * json =>
                     let (k, x) := kv in
                     RefJson.quote k ++ ": " ++ RefJson.dumps_at (S level) x)
                  ("," ++ nl ++ RefJson.spaces (2 * S level)) (kv :: m)) as H.
    cbn [String.length append] in H |- *.
    specialize (H ltac:(lia)).
    assert (Forall (fun kv : string * json =>
                      (size (snd kv)
                       <= String.length
                            (let (k, x) := kv in
                             RefJson.quote k ++ ": " ++ RefJson.dumps_at (S level) x))%nat)
              (kv :: m)) as Hall.
    { rewrite Forall_forall in IH |- *. intros [k y] Hy. cbn [snd].
      rewrite !append_length. specialize (IH (k, y) Hy (S level)).
      cbn [snd] in IH. lia. }
    specialize (H Hall). lia.
Qed.

(** What the reference encoder writes of a well-formed value, the
    reference decoder reads as that value. *)
Lemma loads_dumps (v : json) :
  well_formed v = true -> RefJson.loads (RefJson.dumps v) = inr v.
Proof.
  intros Hv. unfold RefJson.loads, RefJson.dumps.
  assert (RefJson.dumps_at 0 v = RefJson.dumps_at 0 v ++ EmptyString) as E.
  { generalize (RefJson.dumps_at 0 v). intros s.
    induction s as [|c s IH]; [reflexivity |]. cbn. now rewrite <- IH. }
  rewrite E at 2.
  rewrite (dumps_reads_back v Hv 0); [reflexivity | | reflexivity].
  pose proof (size_dumps v 0). lia.
Qed.

(** ** Saving and loading again (section 4.3) *)

(** C3.  [save_progress] then [load_progress] gives back the record that
    was saved, whatever the memory holds when the file is loaded.  With
    the reference codec for [json], and for every storable record (a
    well-formed JSON value within the limits of the interpreter, as a
    progress record of section 3 is): the save writes the text of the
    record to the file; the load reads that text back as the record, so
    that it neither raises nor falls back on the empty record, and it
    leaves the file as written. *)
Theorem save_then_load (st : state) (memory : json) :
  storable (progress st) = true ->
  exists st1 st2,
    save_progress st = (inr tt, st1) /\
    progress_file st1 = Some (RefJson.dumps (progress st)) /\
    load_progress (with_progress memory st1) = (inr tt, st2) /\
    progress st2 = progress st /\
    progress_file st2 = progress_file st1.
Proof.
  intros H. apply andb_true_iff in H as [Hwf _].
  exists (with_file (RefJson.dumps (progress st)) st),
         (with_progress (progress st)
            (with_file (RefJson.dumps (progress st)) st)).
  split; [reflexivity | split; [reflexivity |]].
  split; [| split; reflexivity].
  rewrite load_progress_eq. unfold loaded_record.
  cbn [with_file with_progress progress_file json_loads reference_codec].
  now rewrite (loads_dumps (progress st) Hwf).
Qed.

(** * Instances on the reference codec *)

Lemma reference_decoder_errors (s : string) (e : exn) :
  json_loads s = inl e -> e = JSONDecodeError.
Proof.
  cbn. unfold RefJson.loads.
  destruct (RefJson.parse_value _ s) as [[v rest]|]; [| congruence].
  destruct (RefJson.skip_ws rest); congruence.
Qed.

Lemma reference_decoder_no_zero_division (s : string) :
  json_loads s <> inl ZeroDivisionError.
Proof. intros H. apply reference_decoder_errors in H. discriminate. Qed.

Lemma absent_of_contains (sub s : string) :
  Py.contains sub s = false -> ~ occurs sub s.
Proof. intros H Hc. apply contains_iff in Hc. congruence. Qed.



Lemma sample_question_ok : question_ok sample_question.
Proof.
  exists (JStr "What is phishing?"),
    (JArr [JStr "A) A scam"; JStr "B) A fish"; JStr "C) A wall"; JStr "D) A virus"]),
    [JStr "A) A scam"; JStr "B) A fish"; JStr "C) A wall"; JStr "D) A virus"],
    (JStr "A"), (JStr "Phishing tricks people.").
  repeat split.
Qed.

(** C2 on the empty record: three questions, " a" and "A" right, "b"
    wrong. *)
Lemma take_quiz_records_score_witness :
  exists st',
    take_quiz sample_time (JArr [sample_question; sample_question; sample_question])
              (fresh_state [" a"; "b"; "A"])
    = (inr (2, 3), st') /\
    has_counters (progress st') 3 2 /\
    has_scores (progress st') [score_entry sample_time 2 3 (percentage 2 3)].
Proof.
  destruct (take_quiz_records_score
              (fresh_state [" a"; "b"; "A"])
              [sample_question; sample_question; sample_question]
              [" a"; "b"; "A"] [] sample_time [] 0 0)
    as (st' & H1 & H2 & H3 & _).
  - discriminate.
  - repeat constructor; apply sample_question_ok.
  - reflexivity.
  - reflexivity.
  - reflexivity.
  - split; reflexivity.
  - exists st'. split; [exact H1 | split; [exact H2 | exact H3]].
Defined.

(** C2 as stated fails: with 11 of 20 questions right the accuracy
    recorded is the float 55.00000000000001, not the rational
    11/20 * 100 = 55. *)
Lemma accuracy_is_not_the_exact_rational :
  exists st',
    take_quiz sample_time (JArr (repeat sample_question 20))
              (fresh_state (repeat "a" 11 ++ repeat "b" 9)%list)
    = (inr (11, 20), st') /\
    has_scores (progress st')
               [score_entry sample_time 11 20
                  (S754_finite false 7740561859543041 (-47))] /\
    ~ (float_value (S754_finite false 7740561859543041 (-47))
       == (11 # 20) * 100)%Q.
Proof.
  eexists. split; [vm_compute; reflexivity |].
  split; [reflexivity |].
  vm_compute. discriminate.
Qed.

(** C3 on [sample_record], loaded where the memory held [null]. *)
Lemma save_then_load_witness :
  exists st1 st2,
    save_progress (with_progress sample_record (fresh_state [])) = (inr tt, st1) /\
    progress_file st1 = Some (RefJson.dumps sample_record) /\
    load_progress (with_progress JNull st1) = (inr tt, st2) /\
    progress st2 = sample_record /\
    progress_file st2 = progress_file st1.
Proof.
  apply (save_then_load (with_progress sample_record (fresh_state [])) JNull).
  vm_compute. reflexivity.
Defined.

(** C4 with no file, and with a file that is not JSON. *)
Lemma load_progress_missing_or_malformed_witness :
  load_progress (fresh_state [])
  = (inr tt, with_progress default_progress (fresh_state [])) /\
  load_progress (with_file "{not json" (with_progress sample_record (fresh_state [])))
  = (inr tt, with_file "{not json" (fresh_state [])).
Proof.
  split.
  - apply (load_progress_missing_or_malformed (fresh_state [])).
    left. reflexivity.
  - apply (load_progress_missing_or_malformed
             (with_file "{not json" (with_progress sample_record (fresh_state [])))).
    right. exists "{not json", JSONDecodeError. split; reflexivity.
Defined.

(** C9 on a file that is JSON but no progress record: it is adopted, with
    more right answers than questions. *)
Lemma load_progress_adopts_any_json_witness :
  load_progress
    (with_file (RefJson.dq "{'correct_answers': 5, 'total_questions': 1}")
               (fresh_state []))
  = (inr tt,
     with_progress (JObj [("correct_answers", JInt 5); ("total_questions", JInt 1)])
       (with_file (RefJson.dq "{'correct_answers': 5, 'total_questions': 1}")
                  (fresh_state []))).
Proof.
  apply (load_progress_adopts_any_json
           (with_file (RefJson.dq "{'correct_answers': 5, 'total_questions': 1}")
                      (fresh_state []))
           (RefJson.dq "{'correct_answers': 5, 'total_questions': 1}")).
  - reflexivity.
  - vm_compute. reflexivity.
Defined.

(** C5 on a session of two quizzes and an explanation, the second quiz
    raising [TypeError]. *)
Lemma counters_invariant_witness :
  counters_ok
    (progress
       (perform_all
          [Quizzed sample_time (JArr [sample_question; sample_question]);
           Explained (inr "Phishing is ...") sample_time "phishing";
           Quizzed sample_time (JArr [JInt 1])]
          (fresh_state ["a"; "b"]))).
Proof.
  destruct counters_invariant as (Hinit & _ & _ & Hall).
  apply Hall. exact Hinit.
Defined.

(** C6 on the empty record. *)
Lemma explain_twice_appends_once_witness :
  exists st1,
    explain_concept (inr "Phishing is ...") sample_time "phishing" (fresh_state [])
    = (inr "Phishing is ...", st1) /\
    explain_concept (inr "Phishing is, again, ...") "2024-05-02T09:30:00" "phishing" st1
    = (inr "Phishing is, again, ...", st1) /\
    has_topics (progress st1) [topic_entry "phishing" sample_time] ["phishing"].
Proof.
  destruct (explain_twice_appends_once
              (fresh_state []) [] [] "phishing"
              "Phishing is ..." sample_time
              "Phishing is, again, ..." "2024-05-02T09:30:00")
    as (st1 & H1 & H2 & H3 & _).
  - split; [reflexivity | constructor].
  - exists st1. split; [exact H1 | split; [exact H2 |]].
    apply H3. intros [].
Defined.

(** C7 on one message of each class. *)
Lemma failure_classified_by_text_witness :
  explain_concept (inl "429 Too Many Requests") sample_time "xss" (fresh_state [])
  = (inr rate_limit_explanation, fresh_state []) /\
  explain_concept (inl "PERMISSION_DENIED: key") sample_time "xss" (fresh_state [])
  = (inr access_denied_explanation, fresh_state []) /\
  exists shown,
    first_chars 100 "Connection reset by peer" shown /\
    explain_concept (inl "Connection reset by peer") sample_time "xss" (fresh_state [])
    = (inr ("⚠️ Error generating explanation: " ++ shown), fresh_state []).
Proof.
  split; [| split].
  - apply (failure_classified_by_text "429 Too Many Requests").
    left. exists EmptyString, " Too Many Requests". reflexivity.
  - apply (failure_classified_by_text "PERMISSION_DENIED: key").
    + intros H. apply rate_limited_iff in H. discriminate H.
    + right. exists EmptyString, "PERMISSION", "_DENIED: key". split; reflexivity.
  - destruct (failure_classified_by_text "Connection reset by peer"
                sample_time "xss" (fresh_state []))
      as (_ & _ & H).
    destruct H as (shown & Hs & He & _).
    + intros H. apply rate_limited_iff in H. discriminate H.
    + intros H. apply permission_denied_iff in H. discriminate H.
    + exists shown. split; assumption.
Defined.

(** C8, as the code has it, on a line with capitals and spaces. *)
Lemma command_topic_normalised_witness :
  parse_command "  Explain   SQL Injection " = Explain "sql injection" /\
  exists st',
    chat_turn (inr "SQL injection is ...") sample_time
              (fresh_state ["  Explain   SQL Injection "])
    = (inr (Explain "sql injection"), st') /\
    has_topics (progress st') [topic_entry "sql injection" sample_time]
               ["sql injection"].
Proof.
  destruct (command_topic_normalised
              (fresh_state ["  Explain   SQL Injection "])
              "  Explain   SQL Injection " "  sql injection" [] eq_refl)
    as (_ & H).
  destruct H as (H1 & H2).
  - reflexivity.
  - apply absent_of_contains. reflexivity.
  - split; [exact H1 |].
    apply (H2 [] [] "SQL injection is ..." sample_time).
    + split; [reflexivity | constructor].
    + intros [].
Defined.

(** C8 as stated fails: the topic typed as "XSS" reaches the handler, and
    the record, as "xss". *)
Lemma typed_topic_is_not_kept :
  parse_command "explain XSS" = Explain "xss" /\
  Explain "xss" <> Explain "XSS" /\
  exists st',
    chat_turn (inr "Cross-site scripting is ...") sample_time
              (fresh_state ["explain XSS"])
    = (inr (Explain "xss"), st') /\
    has_topics (progress st') [topic_entry "xss" sample_time] ["xss"].
Proof.
  split; [reflexivity |]. split; [discriminate |].
  eexists. split; [vm_compute; reflexivity |].
  split; [reflexivity | repeat constructor].
Qed.

(** C10 on a reply whose quiz is the empty list. *)
Lemma quiz_division_is_guarded_witness :
  take_quiz sample_time (JArr []) (fresh_state [])
  = (inl ZeroDivisionError, fresh_state []) /\
  no_zero_division (quiz_command (inr "Here it is: []") sample_time "xss")
                   (fresh_state []).
Proof.
  destruct (quiz_division_is_guarded (inr "Here it is: []") sample_time "xss"
              (fresh_state []) reference_decoder_no_zero_division)
    as (H1 & _ & _ & _ & H2).
  split; assumption.
Defined.

(** ** Instances of the further properties *)

Lemma counters_ok_default : counters_ok default_progress.
Proof. exists 0, 0. split; [split; reflexivity | lia]. Qed.

Lemma lowercase_question_ok : question_ok lowercase_question.
Proof.
  exists (JStr "What is phishing?"),
    (JArr [JStr "a) A scam"; JStr "b) A fish"]),
    [JStr "a) A scam"; JStr "b) A fish"],
    (JStr "a"), (JStr "Phishing tricks people.").
  repeat split.
Qed.

(** X2 on a line with capitals and spaces. *)
Lemma topic_is_clean_witness :
  "sql injection" <> EmptyString /\
  Py.strip "sql injection" = "sql injection" /\
  Py.lower "sql injection" = "sql injection".
Proof.
  apply (topic_is_clean "  Explain   SQL Injection " "sql injection").
  left. reflexivity.
Defined.

(** X3 on a line with the command word twice. *)
Lemma command_word_removed_twice_witness :
  parse_command "Explain how to explain things" = Explain "how to things".
Proof.
  apply (proj1 (command_word_removed_twice
                  "Explain how to explain things" "how to " "things")).
  - reflexivity.
  - apply absent_of_contains. reflexivity.
  - apply absent_of_contains. reflexivity.
Defined.

(** X5 on a session of a quiz, an explanation and a second quiz. *)
Lemma session_is_persisted_witness :
  same_record
    (fresh_state ["a"; "b"; "c"])
    (perform_all
       [Quizzed sample_time (JArr [sample_question; sample_question]);
        Explained (inr "Phishing is ...") sample_time "phishing";
        Quizzed sample_time (JArr [sample_question])]
       (fresh_state ["a"; "b"; "c"])) \/
  persisted
    (perform_all
       [Quizzed sample_time (JArr [sample_question; sample_question]);
        Explained (inr "Phishing is ...") sample_time "phishing";
        Quizzed sample_time (JArr [sample_question])]
       (fresh_state ["a"; "b"; "c"])).
Proof.
  apply (session_is_persisted
           [Quizzed sample_time (JArr [sample_question; sample_question]);
            Explained (inr "Phishing is ...") sample_time "phishing";
            Quizzed sample_time (JArr [sample_question])]
           (fresh_state ["a"; "b"; "c"])).
  - exists 0, 0. split; [split; reflexivity | lia].
  - vm_compute. exact I.
Defined.

(** X6 on a session of two quizzes. *)
Lemma session_is_tallied_witness :
  tallied
    (progress
       (perform_all
          [Quizzed sample_time (JArr [sample_question; sample_question]);
           Quizzed sample_time (JArr [sample_question])]
          (fresh_state ["a"; "b"; "c"]))).
Proof.
  destruct session_is_tallied as [Hinit Hall].
  apply Hall. exact Hinit.
Defined.

(** X7 on a session that explains a topic twice. *)
Lemma session_topics_unique_witness :
  unique_topics
    (progress
       (perform_all
          [Explained (inr "Phishing is ...") sample_time "phishing";
           Explained (inr "Phishing is, again, ...") sample_time "phishing"]
          (fresh_state []))).
Proof.
  destruct session_topics_unique as [Hinit Hall].
  apply Hall. exact Hinit.
Defined.

(** X8 on a quiz of two questions and one line of input. *)
Lemma take_quiz_input_runs_out_witness :
  take_quiz sample_time (JArr [sample_question; sample_question])
            (fresh_state ["a"])
  = (inl EOFError, with_stdin [] (fresh_state ["a"])).
Proof.
  apply (take_quiz_input_runs_out sample_time
           [sample_question; sample_question] (fresh_state ["a"])).
  - repeat constructor; apply sample_question_ok.
  - cbn. lia.
Defined.

(** X9 on a call that fails during an explanation. *)
Lemma failed_call_is_recovered_witness :
  exists st',
    chat_turn (inl "Connection reset by peer") sample_time
              (fresh_state ["explain xss"; "quit"])
    = (inr (parse_command "explain xss"), st') /\
    progress st' = progress (fresh_state ["explain xss"; "quit"]) /\
    progress_file st' = progress_file (fresh_state ["explain xss"; "quit"]) /\
    stdin st' = ["quit"].
Proof.
  apply (failed_call_is_recovered "Connection reset by peer" sample_time
           "explain xss" ["quit"] (fresh_state ["explain xss"; "quit"])).
  - reflexivity.
  - discriminate.
Defined.

(** X11 on a question whose answer is given as "a". *)
Lemma unanswerable_questions_witness :
  ask_questions [lowercase_question] 0 (fresh_state ["a"])
  = (inr 0, with_stdin [] (fresh_state ["a"])).
Proof.
  apply (unanswerable_questions [lowercase_question] ["a"] [] 0
           (fresh_state ["a"])).
  - repeat constructor. apply lowercase_question_ok.
  - repeat constructor. intros answer H. injection H as <-. discriminate.
  - reflexivity.
  - reflexivity.
Defined.

(** X12 on [sample_record]. *)
Lemma show_progress_returns_witness :
  show_progress (with_progress sample_record (fresh_state []))
  = (inr tt, with_progress sample_record (fresh_state [])).
Proof.
  apply (show_progress_returns
           (with_progress sample_record (fresh_state []))
           [topic_entry "phishing" sample_time] ["phishing"] 5 3).
  - split; [reflexivity | repeat constructor].
  - exists [score_entry sample_time 3 5 (percentage 3 5)], 5, 3.
    split; [reflexivity |]. split; [split; reflexivity |].
    refine (tally_snoc [] 0 0 _ 3 5 tally_nil _ _ _); [| lia | lia].
    split; [reflexivity |]. split; [reflexivity |].
    exists (percentage 3 5). split; reflexivity.
  - split; reflexivity.
  - reflexivity.
Defined.

(** X13 on [uncounted_record]. *)
Lemma show_progress_divides_by_zero_witness :
  show_progress (with_progress uncounted_record (fresh_state []))
  = (inl ZeroDivisionError, with_progress uncounted_record (fresh_state [])).
Proof.
  apply (show_progress_divides_by_zero
           (with_progress uncounted_record (fresh_state []))
           [] [] [score_entry sample_time 3 5 (percentage 3 5)] 0).
  - split; [reflexivity | constructor].
  - reflexivity.
  - discriminate.
  - split; reflexivity.
Defined.

(** X14 on a session of three lines, with ten turns allowed. *)
Lemma chat_ends_witness :
  chat_loop sample_oracle 10 0 (fresh_state ["help"; "explain xss"; "quit"])
  = chat sample_oracle (fresh_state ["help"; "explain xss"; "quit"]) /\
  fst (chat sample_oracle (fresh_state ["help"; "explain xss"; "quit"]))
  <> inr false.
Proof.
  apply (chat_ends sample_oracle
           (fresh_state ["help"; "explain xss"; "quit"]) 10).
  cbn. lia.
Defined.

(** X15 on a session that ends without [quit]. *)
Lemma session_without_quit_fails_witness :
  fst (main (Some "key") true sample_oracle
            (fresh_state ["help"; "progress"; "explain xss"]))
  = 1.
Proof.
  apply (session_without_quit_fails (Some "key") true sample_oracle
           (fresh_state ["help"; "progress"; "explain xss"])).
  repeat constructor; intros H; vm_compute in H; discriminate H.
Defined.

(** X16 on a session with a line after [quit]. *)
Lemma session_ends_at_quit_witness :
  main (Some "key") true sample_oracle
       (fresh_state ["help"; "what?"; " QUIT "; "explain xss"])
  = (0, with_stdin ["explain xss"]
          (with_progress (loaded_record None)
             (fresh_state ["help"; "what?"; " QUIT "; "explain xss"]))).
Proof.
  apply (session_ends_at_quit "key" sample_oracle ["help"; "what?"] " QUIT "
           ["explain xss"]
           (fresh_state ["help"; "what?"; " QUIT "; "explain xss"])).
  - discriminate.
  - constructor; [left; reflexivity |].
    constructor; [right; reflexivity | constructor].
  - reflexivity.
  - reflexivity.
Defined.

(** X17 on a session with a quiz and an explanation. *)
Lemma chat_keeps_record_well_formed_witness :
  tallied
    (progress
       (snd (chat sample_oracle
               (fresh_state ["quiz phishing"; "a"; "explain xss"; "quit"])))) /\
  unique_topics
    (progress
       (snd (chat sample_oracle
               (fresh_state ["quiz phishing"; "a"; "explain xss"; "quit"])))).
Proof.
  apply (chat_keeps_record_well_formed sample_oracle
           (fresh_state ["quiz phishing"; "a"; "explain xss"; "quit"])).
  - exact tallied_default.
  - exact unique_topics_default.
Defined.

(** X18 on the same session. *)
Lemma chat_leaves_record_saved_witness :
  same_record
    (fresh_state ["quiz phishing"; "a"; "explain xss"; "quit"])
    (snd (chat sample_oracle
            (fresh_state ["quiz phishing"; "a"; "explain xss"; "quit"]))) \/
  persisted
    (snd (chat sample_oracle
            (fresh_state ["quiz phishing"; "a"; "explain xss"; "quit"]))).
Proof.
  apply (chat_leaves_record_saved sample_oracle
           (fresh_state ["quiz phishing"; "a"; "explain xss"; "quit"])).
  - exact counters_ok_default.
  - vm_compute. reflexivity.
Defined.
